(** * The PICA command processor (video_core/command_processor.cpp)

    A shallow embedding of the register-write path [WritePicaReg], the
    float-uniform loader [WriteUniformFloatReg], the shader program and
    swizzle loaders, the draw trigger (fast-path decision, worker count,
    the single-threaded vertex loop with its cache) and the command-list
    walk [ProcessCommandList], followed by the properties proved of them.

    Conventions.  A [u32] is a [Z] in [0, 2^32) and every wrap-around is
    written out.  C++ arrays are lists read and updated by index with
    stdpp's [!!] and [<[ _ := _ ]>].  Calls into collaborators that are
    observational (logging, tracing, debug events, rasterizer
    notifications) are recorded, in call order, in an event log.  What the
    command processor takes from headers that are not part of this source
    tree (register layout, bit-field accessors, the float24 type, the
    shader engine, the rasterizer) is a section variable. *)

From Stdlib Require Import ZArith Lia Bool.
From stdpp Require Import base list.

Local Open Scope Z_scope.

(** ** Machine words *)

Definition u32_modulus : Z := 2 ^ 32.

(** Arithmetic on [u32] wraps. *)
Definition wrap32 (x : Z) : Z := x mod u32_modulus.

(** [~x] on a [u32]. *)
Definition u32_not (x : Z) : Z := Z.land (Z.lnot x) (Z.ones 32).

(** [a[i]] for an array of words; the model reads 0 where the source would
    read past the end of the array. *)
Definition word_at (a : list Z) (i : Z) : Z := default 0 (a !! Z.to_nat i).

(** [a[i] = x]. *)
Definition array_set {A : Type} (a : list A) (i : Z) (x : A) : list A :=
  <[Z.to_nat i := x]> a.

(** ** The mask table *)

(** Expand a 4-bit mask to 4-byte mask, e.g. 0b0101 -> 0x00FF00FF *)
Definition expand_bits_to_bytes_table : list Z :=
  [ 0x00000000; 0x000000ff; 0x0000ff00; 0x0000ffff;
    0x00ff0000; 0x00ff00ff; 0x00ffff00; 0x00ffffff;
    0xff000000; 0xff0000ff; 0xff00ff00; 0xff00ffff;
    0xffff0000; 0xffff00ff; 0xffffff00; 0xffffffff ].

(** [expand_bits_to_bytes[mask]].  The table has 16 entries; the command
    list passes the header's 4-bit [parameter_mask]. *)
Definition expand_bits_to_bytes (mask : Z) : Z :=
  word_at expand_bits_to_bytes_table mask.

(** ** Shader units, vectors, events *)

(** [g_state.vs] and [g_state.gs], as [GetShaderSetupTypeName] tells them
    apart. *)
Inductive ShaderUnit : Type := VS | GS.

(** [Common::Vec4<T>]; [operator[]] numbers the components x, y, z, w. *)
Record Vec4 (A : Type) : Type := mkVec4 { vx : A; vy : A; vz : A; vw : A }.
Arguments mkVec4 {A} _ _ _ _.
Arguments vx {A} _.
Arguments vy {A} _.
Arguments vz {A} _.
Arguments vw {A} _.

(** [uniform[i] = a]. *)
Definition vec4_set {A : Type} (v : Vec4 A) (i : Z) (a : A) : Vec4 A :=
  if i =? 0 then mkVec4 a (vy v) (vz v) (vw v)
  else if i =? 1 then mkVec4 (vx v) a (vz v) (vw v)
  else if i =? 2 then mkVec4 (vx v) (vy v) a (vw v)
  else mkVec4 (vx v) (vy v) (vz v) a.

(** [DebugContext::Event] values raised by the command processor. *)
Inductive DebugEvent : Type :=
| PicaCommandLoaded
| PicaCommandProcessed
| IncomingPrimitiveBatch
| FinishedPrimitiveBatch
| VertexShaderInvocation.

(** Calls that leave the command processor, in the order they are made. *)
Inductive Event : Type :=
| LogError_InvalidRegister (id value mask : Z)
| LogError_InvalidFloatUniformIndex (u : ShaderUnit) (index : Z)
| LogError_InvalidProgramOffset (u : ShaderUnit) (offset : Z)
| LogError_InvalidSwizzleOffset (u : ShaderUnit) (offset : Z)
| LogTrace_SetFloatUniform (u : ShaderUnit) (index : Z)
| OnPicaRegWrite (id mask value : Z)
| OnEvent (e : DebugEvent) (id : Z)
| NotifyPicaRegisterChanged (id : Z).

(** [g_state.cmd_list]: pointers are word addresses of host memory. *)
Record CmdList : Type := mkCmdList {
  head_ptr : Z;
  current_ptr : Z;
  length_words : Z
}.

(** ** The draw trigger's configuration *)

(** [PipelineRegs::TriangleTopology]. *)
Inductive TriangleTopology : Type := TopologyList | TopologyStrip | TopologyFan | TopologyShader.

(** [PipelineRegs::UseGS]: the two named values and any other content of
    the field. *)
Inductive UseGS : Type := UseGS_No | UseGS_Yes | UseGS_Other.

(** What the start of the draw case reads. *)
Record DrawConfig : Type := mkDrawConfig {
  hw_shader_enabled : bool;          (* VideoCore::g_hw_shader_enabled *)
  assembler_is_empty : bool;         (* primitive_assembler.IsEmpty() *)
  pipeline_use_gs : UseGS;           (* regs.pipeline.use_gs *)
  assembler_topology : TriangleTopology; (* primitive_assembler.GetTopology() *)
  num_vertices : Z                   (* regs.pipeline.num_vertices *)
}.

(** Lines 277-293: [accelerate_draw] before the rasterizer is asked. *)
Definition accelerate_draw (c : DrawConfig) : bool :=
  let accelerate := hw_shader_enabled c && assembler_is_empty c in
  match pipeline_use_gs c with
  | UseGS_No =>
      match assembler_topology c with
      | TopologyShader | TopologyList => accelerate && (num_vertices c mod 3 =? 0)
      | _ => accelerate
      end
  | _ => false
  end.

(** Lines 420-422: [vs_threads].  Both operands are unsigned 32-bit: the
    [int] setting is converted, and [hardware_concurrency() - 1] wraps. *)
Definition vs_threads (num_vertices min_vertices_per_thread hardware_concurrency : Z) : Z :=
  Z.min (num_vertices / wrap32 min_vertices_per_thread) (wrap32 (hardware_concurrency - 1)).

(** How the vertex-shader phase is started (lines 424-430). *)
Inductive VSDispatch : Type :=
| RunInline                          (* VSUnitLoop(0, integral_constant<u32, 1>) *)
| Spawned (jobs : list (Z * Z)).     (* thread_pool.Push(VSUnitLoop, thread_id, vs_threads) *)

(** The [for] loop pushing one job per [thread_id < vs_threads]. *)
Fixpoint push_jobs (remaining : nat) (thread_id threads : Z) : list (Z * Z) :=
  match remaining with
  | O => []
  | S k => (thread_id, threads) :: push_jobs k (thread_id + 1) threads
  end.

Definition dispatch_vs_units (threads : Z) : VSDispatch :=
  if threads =? 0 then RunInline
  else Spawned (push_jobs (Z.to_nat threads) 0 threads).

Definition spawned_workers (d : VSDispatch) : Z :=
  match d with
  | RunInline => 0
  | Spawned jobs => Z.of_nat (length jobs)
  end.

(** ** The vertex cache *)

(** The union of a cache entry: the raw attribute buffer (geometry shader
    in use) or the finished output vertex. *)
Inductive CachedOutput (AttributeBuffer OutputVertex : Type) : Type :=
| NoOutput
| OutputAttr (output_attr : AttributeBuffer)
| OutputVertexOf (output_vertex : OutputVertex).
Arguments NoOutput {AttributeBuffer OutputVertex}.
Arguments OutputAttr {AttributeBuffer OutputVertex} _.
Arguments OutputVertexOf {AttributeBuffer OutputVertex} _.

(** [struct CachedVertex]. *)
Record CachedVertex (AttributeBuffer OutputVertex : Type) : Type := mkCachedVertex {
  cached_output : CachedOutput AttributeBuffer OutputVertex;
  batch : Z;
  lock : bool
}.
Arguments mkCachedVertex {AttributeBuffer OutputVertex} _ _ _.
Arguments cached_output {AttributeBuffer OutputVertex} _.
Arguments batch {AttributeBuffer OutputVertex} _.
Arguments lock {AttributeBuffer OutputVertex} _.

(** Calls made during a draw: a vertex-shader run for a loop index and its
    vertex, and what the consumption loop hands to the geometry pipeline or
    to the primitive assembler. *)
Inductive DrawEvent (AttributeBuffer OutputVertex : Type) : Type :=
| RunShader (index vertex : Z)
| GeometrySubmitIndex (vertex : Z)
| GeometrySubmitVertex (o : CachedOutput AttributeBuffer OutputVertex)
| AssemblerSubmitVertex (o : CachedOutput AttributeBuffer OutputVertex).
Arguments RunShader {AttributeBuffer OutputVertex} _ _.
Arguments GeometrySubmitIndex {AttributeBuffer OutputVertex} _.
Arguments GeometrySubmitVertex {AttributeBuffer OutputVertex} _.
Arguments AssemblerSubmitVertex {AttributeBuffer OutputVertex} _.

(** Where [VertexIndex] takes a vertex number from. *)
Record IndexSource : Type := mkIndexSource {
  is_indexed : bool;
  index_u16 : bool;                  (* index_info.format != 0 *)
  index_address_8 : Z -> Z;          (* index_address_8[index] *)
  index_address_16 : Z -> Z;         (* index_address_16[index] *)
  vertex_offset : Z                  (* regs.pipeline.vertex_offset *)
}.

(** Lines 346-350. *)
Definition VertexIndex (src : IndexSource) (index : Z) : Z :=
  if is_indexed src then
    (if index_u16 src then index_address_16 src index else index_address_8 src index)
  else wrap32 (index + vertex_offset src).

(** Lines 330-337: the batch id advances; when it wraps to 0 it is bumped
    once more and every entry's tag is cleared. *)
Definition advance_batch {A V : Type} (batch_id : Z) (vs_output : list (CachedVertex A V))
  : Z * list (CachedVertex A V) :=
  let batch_id := wrap32 (batch_id + 1) in
  if batch_id =? 0 then
    (wrap32 (batch_id + 1),
     map (fun entry => mkCachedVertex (cached_output entry) 0 (lock entry)) vs_output)
  else (batch_id, vs_output).

Section GPUState.

Context {float24 : Type}.

(** ** GPU state *)

(** [Shader::ShaderSetup]: the parts the loaders below write. *)
Record ShaderSetup : Type := mkShaderSetup {
  uniforms_f : list (Vec4 float24);
  program_code : list Z;
  swizzle_data : list Z;
  program_code_dirty : bool;
  swizzle_data_dirty : bool
}.

Definition with_uniforms_f (f : list (Vec4 float24)) (t : ShaderSetup) : ShaderSetup :=
  mkShaderSetup f (program_code t) (swizzle_data t) (program_code_dirty t) (swizzle_data_dirty t).

(** [program_code[offset] = value; MarkProgramCodeDirty();] *)
Definition write_program_code (offset value : Z) (t : ShaderSetup) : ShaderSetup :=
  mkShaderSetup (uniforms_f t) (array_set (program_code t) offset value) (swizzle_data t)
    true (swizzle_data_dirty t).

(** [swizzle_data[offset] = value; MarkSwizzleDataDirty();] *)
Definition write_swizzle_data (offset value : Z) (t : ShaderSetup) : ShaderSetup :=
  mkShaderSetup (uniforms_f t) (program_code t) (array_set (swizzle_data t) offset value)
    (program_code_dirty t) true.

(** [g_state], restricted to what the modelled paths touch, with the two
    optional observers and the event log. *)
Record State : Type := mkState {
  regs : list Z;                       (* g_state.regs.reg_array *)
  vs : ShaderSetup;
  gs : ShaderSetup;
  vs_float_regs_counter : Z;
  vs_uniform_write_buffer : list Z;
  gs_float_regs_counter : Z;
  gs_uniform_write_buffer : list Z;
  cmd_list : CmdList;
  is_pica_tracing : bool;              (* DebugUtils::IsPicaTracing() *)
  has_debug_context : bool;            (* g_debug_context != nullptr *)
  log : list Event
}.

Definition with_regs (r : list Z) (s : State) : State :=
  mkState r (vs s) (gs s) (vs_float_regs_counter s) (vs_uniform_write_buffer s)
    (gs_float_regs_counter s) (gs_uniform_write_buffer s) (cmd_list s)
    (is_pica_tracing s) (has_debug_context s) (log s).

Definition with_cmd_list (c : CmdList) (s : State) : State :=
  mkState (regs s) (vs s) (gs s) (vs_float_regs_counter s) (vs_uniform_write_buffer s)
    (gs_float_regs_counter s) (gs_uniform_write_buffer s) c
    (is_pica_tracing s) (has_debug_context s) (log s).

Definition log_event (e : Event) (s : State) : State :=
  mkState (regs s) (vs s) (gs s) (vs_float_regs_counter s) (vs_uniform_write_buffer s)
    (gs_float_regs_counter s) (gs_uniform_write_buffer s) (cmd_list s)
    (is_pica_tracing s) (has_debug_context s) (log s ++ [e]).

Definition setup (u : ShaderUnit) (s : State) : ShaderSetup :=
  match u with VS => vs s | GS => gs s end.

Definition with_setup (u : ShaderUnit) (t : ShaderSetup) (s : State) : State :=
  match u with
  | VS => mkState (regs s) t (gs s) (vs_float_regs_counter s) (vs_uniform_write_buffer s)
            (gs_float_regs_counter s) (gs_uniform_write_buffer s) (cmd_list s)
            (is_pica_tracing s) (has_debug_context s) (log s)
  | GS => mkState (regs s) (vs s) t (vs_float_regs_counter s) (vs_uniform_write_buffer s)
            (gs_float_regs_counter s) (gs_uniform_write_buffer s) (cmd_list s)
            (is_pica_tracing s) (has_debug_context s) (log s)
  end.

Definition float_regs_counter (u : ShaderUnit) (s : State) : Z :=
  match u with VS => vs_float_regs_counter s | GS => gs_float_regs_counter s end.

Definition with_float_regs_counter (u : ShaderUnit) (c : Z) (s : State) : State :=
  match u with
  | VS => mkState (regs s) (vs s) (gs s) c (vs_uniform_write_buffer s)
            (gs_float_regs_counter s) (gs_uniform_write_buffer s) (cmd_list s)
            (is_pica_tracing s) (has_debug_context s) (log s)
  | GS => mkState (regs s) (vs s) (gs s) (vs_float_regs_counter s) (vs_uniform_write_buffer s)
            c (gs_uniform_write_buffer s) (cmd_list s)
            (is_pica_tracing s) (has_debug_context s) (log s)
  end.

Definition uniform_write_buffer (u : ShaderUnit) (s : State) : list Z :=
  match u with VS => vs_uniform_write_buffer s | GS => gs_uniform_write_buffer s end.

Definition with_uniform_write_buffer (u : ShaderUnit) (b : list Z) (s : State) : State :=
  match u with
  | VS => mkState (regs s) (vs s) (gs s) (vs_float_regs_counter s) b
            (gs_float_regs_counter s) (gs_uniform_write_buffer s) (cmd_list s)
            (is_pica_tracing s) (has_debug_context s) (log s)
  | GS => mkState (regs s) (vs s) (gs s) (vs_float_regs_counter s) (vs_uniform_write_buffer s)
            (gs_float_regs_counter s) b (cmd_list s)
            (is_pica_tracing s) (has_debug_context s) (log s)
  end.

End GPUState.

Arguments ShaderSetup : clear implicits.
Arguments State : clear implicits.

(** ** A concrete platform

    The declarations the command processor takes from its headers, filled
    in with the PICA200 register map (command buffer registers at 0x238,
    the geometry unit's block at 0x280, the vertex unit's at 0x2B0), and a
    few states and inputs, to run the model on. *)

(** A [float24] told by the bits it was made from. *)
Inductive float24_bits : Type :=
| Float32Bits (bits : Z)
| RawBits (raw : Z).

Definition pica_NUM_REGS : Z := 0x300.

Definition pica_reg_uniform_setup (u : ShaderUnit) : Z :=
  match u with GS => 0x290 | VS => 0x2C0 end.

(** [BitField<0, 7, u32> index] and [BitField<31, 1, Format> format]. *)
Definition pica_uniform_setup_index (u : ShaderUnit) (r : list Z) : Z :=
  Z.land (word_at r (pica_reg_uniform_setup u)) 0x7F.

Definition pica_uniform_setup_IsFloat32 (u : ShaderUnit) (r : list Z) : bool :=
  Z.testbit (word_at r (pica_reg_uniform_setup u)) 31.

Definition pica_uniform_setup_index_Assign (u : ShaderUnit) (n : Z) (r : list Z) : list Z :=
  array_set r (pica_reg_uniform_setup u)
    (Z.lor (Z.land (word_at r (pica_reg_uniform_setup u)) (u32_not 0x7F)) (Z.land n 0x7F)).

Definition pica_reg_program_offset (u : ShaderUnit) : Z :=
  match u with GS => 0x29B | VS => 0x2CB end.

Definition pica_reg_swizzle_offset (u : ShaderUnit) : Z :=
  match u with GS => 0x2A5 | VS => 0x2D5 end.

Definition pica_gs_unit_exclusive_configuration (r : list Z) : Z :=
  Z.land (word_at r 0x244) 1.

Definition pica_command_buffer_GetPhysicalAddress (r : list Z) (index : Z) : Z :=
  8 * Z.land (word_at r (0x23A + index)) 0xFFFFFFF.

Definition pica_command_buffer_GetSize (r : list Z) (index : Z) : Z :=
  8 * Z.land (word_at r (0x238 + index)) 0xFFFFF.

Definition pica_reg_trigger : Z := 0x23C.

Definition pica_reg_uniform_set_value (u : ShaderUnit) : Z :=
  match u with GS => 0x291 | VS => 0x2C1 end.

Definition pica_reg_program_set_word (u : ShaderUnit) : Z :=
  match u with GS => 0x29C | VS => 0x2CC end.

Definition pica_reg_swizzle_set_word (u : ShaderUnit) : Z :=
  match u with GS => 0x2A6 | VS => 0x2D6 end.

(** [CommandHeader]: id in bits 0-15, mask in 16-19, extra data length in
    20-30, group flag in bit 31. *)
Definition pica_header_cmd_id (header : Z) : Z := Z.land header 0xFFFF.
Definition pica_header_parameter_mask (header : Z) : Z := Z.land (Z.shiftr header 16) 0xF.
Definition pica_header_extra_data_length (header : Z) : Z :=
  Z.land (Z.shiftr header 20) 0x7FF.
Definition pica_header_group_commands (header : Z) : bool := Z.testbit header 31.

(** Physical memory laid out flat: the word address of a byte address. *)
Definition flat_GetPhysicalPointer (paddr : Z) : Z := paddr / 4.

(** A shader setup and a GPU state after reset, with chosen registers. *)
Definition example_setup : ShaderSetup float24_bits :=
  mkShaderSetup
    (replicate 96 (mkVec4 (RawBits 0) (RawBits 0) (RawBits 0) (RawBits 0)))
    (replicate 4096 0) (replicate 4096 0) false false.

Definition example_regs (assignments : list (nat * Z)) : list Z :=
  foldr (fun a r => <[fst a := snd a]> r) (replicate 0x300 0) assignments.

Definition example_state (assignments : list (nat * Z)) (counter : Z) (buffer : list Z)
    (observed : bool) (events : list Event) : State float24_bits :=
  mkState (example_regs assignments) example_setup example_setup
    counter buffer 0 [0; 0; 0; 0] (mkCmdList 0 0 0) observed observed events.

(** A list whose only command writes [command_buffer.trigger[0]] while the
    command buffer registers point back at the list itself: two words at
    address 0, the value and the header (id 0x23C, mask 0xF). *)
Definition jump_list_word (address : Z) : Z :=
  if address =? 1 then 0x000F023C else 0.

Definition jump_list_state (events : list Event) : State float24_bits :=
  mkState (example_regs [(0x238%nat, 1)]) example_setup example_setup
    0 [0; 0; 0; 0] 0 [0; 0; 0; 0] (mkCmdList 0 0 2) false false events.

(** An index array for a draw of five vertices, three of them vertex 2. *)
Definition example_indices : IndexSource :=
  mkIndexSource true false (word_at [2; 0; 2; 1; 2]) (fun _ => 0) 0.

(** A stand-in shader: the unit counts its runs, and the output tells the
    vertex and the run that made it. *)
Definition example_shader (unit index vertex : Z) (held : CachedOutput Z Z) : Z * Z :=
  (unit + 1, 100 * vertex + unit).

(** The default-attribute index register, the number of the last input
    attribute ([BitField<0, 4, u32>] of register 0x242) and the fog table
    offset ([BitField<0, 16, u32>] of register 0x0E6). *)
Definition pica_reg_default_attr_index : Z := 0x232.

Definition pica_max_input_attrib_index (r : list Z) : Z := Z.land (word_at r 0x242) 0xF.

Definition pica_fog_lut_offset (r : list Z) : Z := Z.land (word_at r 0xE6) 0xFFFF.

Definition pica_fog_lut_offset_Assign (n : Z) (r : list Z) : list Z :=
  array_set r 0xE6 (Z.lor (Z.land (word_at r 0xE6) (u32_not 0xFFFF)) (Z.land n 0xFFFF)).

(** A state about to walk a list of [len] words at address 0. *)
Definition example_list_state (assignments : list (nat * Z)) (len : Z) : State float24_bits :=
  mkState (example_regs assignments) example_setup example_setup
    0 [0; 0; 0; 0] 0 [0; 0; 0; 0] (mkCmdList 0 0 len) false false [].

(** A command for the registers 0x300 to 0x302, which do not exist: the
    value 7, the header (id 0x300, mask 0xF, two extra words, grouped), and
    the extra words 8 and 9. *)
Definition invalid_list_word (address : Z) : Z :=
  word_at [7; 0x802F0300; 8; 9] address.

(** A command for the registers 5 and 6: the value, the header (id 5, mask
    0xF, one extra word, grouped), and the extra word. *)
Definition grouped_list_word (address : Z) : Z :=
  word_at [0xAABBCCDD; 0x801F0005; 0x11] address.

(** A draw of three vertices from vertex 10 on, without an index array. *)
Definition example_plain_source : IndexSource :=
  mkIndexSource false false (fun _ => 0) (fun _ => 0) 10.

(** Two commands whose value words would name the trigger registers were
    they read as headers: 0x23C for register 5, and -1.0f (0xBF800000: id
    0, 1016 extra words, grouped) for register 6. *)
Definition value_list_word (address : Z) : Z :=
  word_at [0x0000023C; 0x000F0005; 0xBF800000; 0x000F0006] address.

(** The jump command at address 0 and, at word address 8, the two commands
    above. *)
Definition jump_to_values_word (address : Z) : Z :=
  word_at [0; 0x000F023C; 0; 0; 0; 0; 0; 0;
           0x0000023C; 0x000F0005; 0xBF800000; 0x000F0006] address.

(** A stand-in geometry pipeline: its state is the number of vertex
    indices it still asks for. *)
Definition example_NeedIndexInput (wanted : Z) : bool := 0 <? wanted.

Definition example_SubmitIndex (vertex wanted : Z) : Z := wanted - 1.

Section CommandProcessor.

(** ** What the absent headers declare *)

(** [Pica::float24] (video_core/pica_types.h).  [FromFloat32] is applied to
    the 32 bits of a staged word read as a [float]; [FromRaw] to a 24-bit
    pattern. *)
Variable float24 : Type.
Variable FromFloat32 : Z -> float24.
Variable FromRaw : Z -> float24.

(** [Regs::NUM_REGS]. *)
Variable NUM_REGS : Z.

(** The bit-fields of [ShaderRegs::uniform_setup] as views of the register
    array: [index] read, [IsFloat32()], and [index.Assign]. *)
Variable uniform_setup_index : ShaderUnit -> list Z -> Z.
Variable uniform_setup_IsFloat32 : ShaderUnit -> list Z -> bool.
Variable uniform_setup_index_Assign : ShaderUnit -> Z -> list Z -> list Z.

(** Register numbers of the plain [u32] fields [program.offset] and
    [swizzle_patterns.offset] of each unit. *)
Variable reg_program_offset : ShaderUnit -> Z.
Variable reg_swizzle_offset : ShaderUnit -> Z.

(** [regs.pipeline.gs_unit_exclusive_configuration], read from the array. *)
Variable gs_unit_exclusive_configuration : list Z -> Z.

(** [regs.pipeline.command_buffer]: [GetPhysicalAddress(index)] and
    [GetSize(index)]. *)
Variable command_buffer_GetPhysicalAddress : list Z -> Z -> Z.
Variable command_buffer_GetSize : list Z -> Z -> Z.

(** [PICA_REG_INDEX] of the case labels: [command_buffer.trigger[0]], and
    for each unit [uniform_setup.set_value[0]], [program.set_word[0]],
    [swizzle_patterns.set_word[0]]. *)
Variable reg_trigger : Z.
Variable reg_uniform_set_value : ShaderUnit -> Z.
Variable reg_program_set_word : ShaderUnit -> Z.
Variable reg_swizzle_set_word : ShaderUnit -> Z.

(** The fields of a [CommandHeader] word. *)
Variable header_cmd_id : Z -> Z.
Variable header_parameter_mask : Z -> Z.
Variable header_extra_data_length : Z -> Z.
Variable header_group_commands : Z -> bool.

(** Host memory: [g_memory->GetPhysicalPointer] as a word address, and the
    word a pointer reads.  The command list is read from it; the modelled
    register writes do not store to it. *)
Variable GetPhysicalPointer : Z -> Z.
Variable host_word : Z -> Z.

Local Abbreviation ShaderSetup := (ShaderSetup float24).
Local Abbreviation State := (State float24).

(** The rest of the [switch] in [WritePicaReg]: the cases that are not
    modelled (interrupt, topology, default attributes, the draw itself,
    bool and int uniforms, lookup tables). *)
Variable other_cases : Z -> Z -> State -> State.

(** ** WriteUniformFloatReg *)

(** Line 69: [uniform_write_buffer[float_regs_counter++] = value]. *)
Definition stage_uniform_word (u : ShaderUnit) (value : Z) (s : State) : State :=
  let counter := float_regs_counter u s in
  with_float_regs_counter u (counter + 1)
    (with_uniform_write_buffer u (array_set (uniform_write_buffer u s) counter value) s).

(** Lines 74-75: the flush condition. *)
Definition flush_threshold_reached (u : ShaderUnit) (s : State) : bool :=
  let counter := float_regs_counter u s in
  let is_float32 := uniform_setup_IsFloat32 u (regs s) in
  ((4 <=? counter) && is_float32) || ((3 <=? counter) && negb is_float32).

(** Lines 87-88: [for (auto i : {0, 1, 2, 3}) uniform[3 - i] = ...]. *)
Definition decode_float32 (buffer : list Z) (uniform : Vec4 float24) : Vec4 float24 :=
  fold_left (fun uniform i => vec4_set uniform (3 - i) (FromFloat32 (word_at buffer i)))
    [0; 1; 2; 3] uniform.

(** Lines 91-96: the four float24 values packed in three words. *)
Definition decode_float24 (buffer : list Z) : Vec4 float24 :=
  let w := FromRaw (Z.shiftr (word_at buffer 0) 8) in
  let z := FromRaw (Z.lor (Z.shiftl (Z.land (word_at buffer 0) 0xFF) 16)
                          (Z.land (Z.shiftr (word_at buffer 1) 16) 0xFFFF)) in
  let y := FromRaw (Z.lor (Z.shiftl (Z.land (word_at buffer 1) 0xFFFF) 8)
                          (Z.land (Z.shiftr (word_at buffer 2) 24) 0xFF)) in
  let x := FromRaw (Z.land (word_at buffer 2) 0xFFFFFF) in
  mkVec4 x y z w.

(** Lines 76-106: the flush. *)
Definition flush_uniform (u : ShaderUnit) (s : State) : State :=
  let s := with_float_regs_counter u 0 s in
  let index := uniform_setup_index u (regs s) in
  if 96 <=? index then
    log_event (LogError_InvalidFloatUniformIndex u index) s
  else
    let buffer := uniform_write_buffer u s in
    let f := uniforms_f (setup u s) in
    let old := default (mkVec4 (FromRaw 0) (FromRaw 0) (FromRaw 0) (FromRaw 0))
                 (f !! Z.to_nat index) in
    let uniform :=
      if uniform_setup_IsFloat32 u (regs s) then decode_float32 buffer old
      else decode_float24 buffer in
    let s := with_setup u (with_uniforms_f (array_set f index uniform) (setup u s)) s in
    let s := log_event (LogTrace_SetFloatUniform u index) s in
    with_regs (uniform_setup_index_Assign u (index + 1) (regs s)) s.

Definition WriteUniformFloatReg (u : ShaderUnit) (value : Z) (s : State) : State :=
  let s := stage_uniform_word u value s in
  if flush_threshold_reached u s then flush_uniform u s else s.

(** Consecutive writes of the words [ws] to one unit's [set_value]. *)
Definition write_uniform_words (u : ShaderUnit) (ws : list Z) (s : State) : State :=
  fold_left (fun s w => WriteUniformFloatReg u w s) ws s.

(** Words per vector in the unit's current mode. *)
Definition words_per_vector (u : ShaderUnit) (r : list Z) : Z :=
  if uniform_setup_IsFloat32 u r then 4 else 3.

(** ** Program and swizzle loaders *)

(** [case gs.program.set_word[0..7]]. *)
Definition gs_program_set_word (value : Z) (s : State) : State :=
  let offset := word_at (regs s) (reg_program_offset GS) in
  if 4096 <=? offset then log_event (LogError_InvalidProgramOffset GS offset) s
  else
    let s := with_setup GS (write_program_code offset value (gs s)) s in
    with_regs (array_set (regs s) (reg_program_offset GS) (wrap32 (offset + 1))) s.

(** [case gs.swizzle_patterns.set_word[0..7]]. *)
Definition gs_swizzle_set_word (value : Z) (s : State) : State :=
  let offset := word_at (regs s) (reg_swizzle_offset GS) in
  if Z.of_nat (length (swizzle_data (gs s))) <=? offset then
    log_event (LogError_InvalidSwizzleOffset GS offset) s
  else
    let s := with_setup GS (write_swizzle_data offset value (gs s)) s in
    with_regs (array_set (regs s) (reg_swizzle_offset GS) (wrap32 (offset + 1))) s.

(** [case vs.program.set_word[0..7]]. *)
Definition vs_program_set_word (value : Z) (s : State) : State :=
  let offset := word_at (regs s) (reg_program_offset VS) in
  if 512 <=? offset then log_event (LogError_InvalidProgramOffset VS offset) s
  else
    let s := with_setup VS (write_program_code offset value (vs s)) s in
    let s :=
      if gs_unit_exclusive_configuration (regs s) =? 0 then
        with_setup GS (write_program_code offset value (gs s)) s
      else s in
    with_regs (array_set (regs s) (reg_program_offset VS) (wrap32 (offset + 1))) s.

(** [case vs.swizzle_patterns.set_word[0..7]]. *)
Definition vs_swizzle_set_word (value : Z) (s : State) : State :=
  let offset := word_at (regs s) (reg_swizzle_offset VS) in
  if Z.of_nat (length (swizzle_data (vs s))) <=? offset then
    log_event (LogError_InvalidSwizzleOffset VS offset) s
  else
    let s := with_setup VS (write_swizzle_data offset value (vs s)) s in
    let s :=
      if gs_unit_exclusive_configuration (regs s) =? 0 then
        with_setup GS (write_swizzle_data offset value (gs s)) s
      else s in
    with_regs (array_set (regs s) (reg_swizzle_offset VS) (wrap32 (offset + 1))) s.

(** Runs of [set_word] writes, each arriving with the offset register at
    the given value (the guest may rewrite the offset between words). *)
Definition vs_program_upload (writes : list (Z * Z)) (s : State) : State :=
  fold_left (fun s w =>
    vs_program_set_word (snd w)
      (with_regs (array_set (regs s) (reg_program_offset VS) (fst w)) s)) writes s.

Definition vs_swizzle_upload (writes : list (Z * Z)) (s : State) : State :=
  fold_left (fun s w =>
    vs_swizzle_set_word (snd w)
      (with_regs (array_set (regs s) (reg_swizzle_offset VS) (fst w)) s)) writes s.

(** What an upload keeps true from word to word. *)
Definition program_mirrored (written : Z -> Prop) (s : State) : Prop :=
  Z.of_nat (length (regs s)) = NUM_REGS
  /\ gs_unit_exclusive_configuration (regs s) = 0
  /\ 512 <= Z.of_nat (length (program_code (vs s)))
  /\ 512 <= Z.of_nat (length (program_code (gs s)))
  /\ forall o, written o -> word_at (program_code (vs s)) o = word_at (program_code (gs s)) o.

Definition swizzle_mirrored (size : Z) (written : Z -> Prop) (s : State) : Prop :=
  Z.of_nat (length (regs s)) = NUM_REGS
  /\ gs_unit_exclusive_configuration (regs s) = 0
  /\ Z.of_nat (length (swizzle_data (vs s))) = size
  /\ Z.of_nat (length (swizzle_data (gs s))) = size
  /\ forall o, written o -> word_at (swizzle_data (vs s)) o = word_at (swizzle_data (gs s)) o.

(** ** WritePicaReg *)

(** [case command_buffer.trigger[0..1]]. *)
Definition command_buffer_trigger (id : Z) (s : State) : State :=
  let index := id - reg_trigger in
  let head := GetPhysicalPointer (command_buffer_GetPhysicalAddress (regs s) index) in
  with_cmd_list (mkCmdList head head (command_buffer_GetSize (regs s) index / 4)) s.

(** Lines 122-126: the masked store into the register array. *)
Definition masked_write (id value mask : Z) (r : list Z) : list Z :=
  let old_value := word_at r id in
  let write_mask := expand_bits_to_bytes mask in
  array_set r id (Z.lor (Z.land old_value (u32_not write_mask)) (Z.land value write_mask)).

(** Lines 122-135: the store, then the trace and debug observers. *)
Definition register_write (id value mask : Z) (s : State) : State :=
  let s := with_regs (masked_write id value mask (regs s)) s in
  let s :=
    if is_pica_tracing s then
      log_event (OnPicaRegWrite (id mod 2 ^ 16) (mask mod 2 ^ 16) (word_at (regs s) id)) s
    else s in
  if has_debug_context s then log_event (OnEvent PicaCommandLoaded id) s else s.

(** [id] is one of the [count] labels starting at [first]. *)
Definition is_case (id first count : Z) : bool := (first <=? id) && (id <? first + count).

(** Lines 137-685: the [switch (id)]. *)
Definition side_effects (id value : Z) (s : State) : State :=
  if is_case id reg_trigger 2 then command_buffer_trigger id s
  else if is_case id (reg_uniform_set_value GS) 8 then WriteUniformFloatReg GS value s
  else if is_case id (reg_program_set_word GS) 8 then gs_program_set_word value s
  else if is_case id (reg_swizzle_set_word GS) 8 then gs_swizzle_set_word value s
  else if is_case id (reg_uniform_set_value VS) 8 then WriteUniformFloatReg VS value s
  else if is_case id (reg_program_set_word VS) 8 then vs_program_set_word value s
  else if is_case id (reg_swizzle_set_word VS) 8 then vs_swizzle_set_word value s
  else other_cases id value s.

(** Lines 687-691: the rasterizer and the debug observer after the switch. *)
Definition register_processed (id : Z) (s : State) : State :=
  let s := log_event (NotifyPicaRegisterChanged id) s in
  if has_debug_context s then log_event (OnEvent PicaCommandProcessed id) s else s.

Definition WritePicaReg (id value mask : Z) (s : State) : State :=
  if NUM_REGS <=? id then log_event (LogError_InvalidRegister id value mask) s
  else register_processed id (side_effects id value (register_write id value mask s)).

(** ** ProcessCommandList *)

(** [*g_state.cmd_list.current_ptr++]. *)
Definition read_word (s : State) : Z * State :=
  let c := cmd_list s in
  (host_word (current_ptr c),
   with_cmd_list (mkCmdList (head_ptr c) (current_ptr c + 1) (length_words c)) s).

(** Lines 709-712: the writes of the extra data words, [i] counting up. *)
Fixpoint write_extra_data (remaining : nat) (i : Z) (header : Z) (s : State) : State :=
  match remaining with
  | O => s
  | S k =>
      let cmd := wrap32 (header_cmd_id header
                         + (if header_group_commands header then i + 1 else 0)) in
      let (word, s) := read_word s in
      write_extra_data k (i + 1) header (WritePicaReg cmd word (header_parameter_mask header) s)
  end.

(** Lines 700-712: one pass through the body of the [while]. *)
Definition process_command (s : State) : State :=
  let c := cmd_list s in
  let s :=
    if Z.rem (head_ptr c - current_ptr c) 2 =? 0 then s
    else with_cmd_list (mkCmdList (head_ptr c) (current_ptr c + 1) (length_words c)) s in
  let (value, s) := read_word s in
  let (header, s) := read_word s in
  let s := WritePicaReg (header_cmd_id header) value (header_parameter_mask header) s in
  write_extra_data (Z.to_nat (header_extra_data_length header)) 0 header s.

(** Line 698: the loop condition. *)
Definition list_pending (s : State) : bool :=
  current_ptr (cmd_list s) <? head_ptr (cmd_list s) + length_words (cmd_list s).

(** The [while] loop; [None] when [fuel] passes are not enough. *)
Fixpoint process_commands (fuel : nat) (s : State) : option State :=
  if list_pending s then
    match fuel with
    | O => None
    | S k => process_commands k (process_command s)
    end
  else Some s.

Definition ProcessCommandList (fuel : nat) (list size : Z) (s : State) : option State :=
  process_commands fuel (with_cmd_list (mkCmdList list list (size / 4)) s).

(** ** The draw trigger *)

(** The shader engine and the rasterizer, as far as a draw uses them.
    [run_vertex_shader unit index vertex held] stands for [LoadVertex],
    [LoadInput], [Run] and [WriteOutput] on the loop's shader unit;
    [held] is what the cache entry held before (on the geometry-shader
    path [WriteOutput] writes into the entry's own buffer). *)
Variable AttributeBuffer : Type.
Variable OutputVertex : Type.
Variable UnitState : Type.
Variable new_shader_unit : UnitState.
Variable run_vertex_shader :
  UnitState -> Z -> Z -> CachedOutput AttributeBuffer OutputVertex -> UnitState * AttributeBuffer.
Variable FromAttributeBuffer : AttributeBuffer -> OutputVertex.
Variable AccelerateDrawBatch : bool -> bool.

(** The geometry pipeline ([g_state.geometry_pipeline]; its header is not
    part of this source tree): its state and the calls a draw makes on it.
    [NeedIndexInput] is asked again in every pass of the consumption loop,
    of the pipeline as the submissions of the passes before have left
    it. *)
Variable GeometryPipeline : Type.
Variable Reconfigure : GeometryPipeline -> GeometryPipeline.
Variable Setup : GeometryPipeline -> GeometryPipeline.
Variable NeedIndexInput : GeometryPipeline -> bool.
Variable SubmitIndex : Z -> GeometryPipeline -> GeometryPipeline.
Variable SubmitVertex :
  CachedOutput AttributeBuffer OutputVertex -> GeometryPipeline -> GeometryPipeline.

Local Abbreviation Cached := (CachedVertex AttributeBuffer OutputVertex).
Local Abbreviation DrawLog := (list (DrawEvent AttributeBuffer OutputVertex)).

(** Lines 297-303: the accelerated batch replaces the whole pipeline. *)
Definition takes_fast_path (c : DrawConfig) (indexed : bool) : bool :=
  accelerate_draw c && AccelerateDrawBatch indexed.

(** Line 357. *)
Definition use_gs (c : DrawConfig) : bool :=
  match pipeline_use_gs c with UseGS_Yes => true | _ => false end.

(** The state the vertex loop threads through. *)
Record VertexPhase : Type := mkVertexPhase {
  vs_output : list Cached;
  shader_unit : UnitState;
  draw_log : DrawLog
}.

Definition empty_entry : Cached := mkCachedVertex NoOutput 0 false.

(** [vs_output[slot]]. *)
Definition cache_at (vs_output : list Cached) (slot : Z) : Cached :=
  default empty_entry (vs_output !! Z.to_nat slot).

(** Lines 325-327: a draw without index array that has more vertices than
    the cache has entries makes [vs_output] longer.  [resize] appends
    entries made by [CachedVertex() {}]: tag 0, lock clear, nothing in the
    union.  When the vector has to move to larger storage for that, the
    entries it had are made again by [CachedVertex(const CachedVertex&) {}]
    (line 315), which copies nothing, so they too come out with tag 0, lock
    clear and nothing in the union.  Whether the vector moves depends on
    the capacity the C++ library gave it, which is an input here. *)
Definition resize_cache (moved : bool) (src : IndexSource) (n_vertices : Z)
    (vs_output : list Cached) : list Cached :=
  if negb (is_indexed src) && (Z.of_nat (length vs_output) <? n_vertices) then
    (if moved then replicate (length vs_output) empty_entry else vs_output)
    ++ replicate (Z.to_nat n_vertices - length vs_output) empty_entry
  else vs_output.

(** What the entry's union holds after a run: the attribute buffer the
    shader wrote (geometry shader in use), or the output vertex made from
    it. *)
Definition stored_output (gs_used : bool) (output_attr : AttributeBuffer)
  : CachedOutput AttributeBuffer OutputVertex :=
  if gs_used then OutputAttr output_attr
  else OutputVertexOf (FromAttributeBuffer output_attr).

(** Lines 366-413 with [single_thread] true: one pass of the loop body. *)
Definition VSUnitLoop_body (src : IndexSource) (gs_used : bool) (batch_id index : Z)
    (st : VertexPhase) : VertexPhase :=
  let vertex := VertexIndex src index in
  let slot := if is_indexed src then vertex else index in
  let cached_vertex := cache_at (vs_output st) slot in
  if is_indexed src && (batch cached_vertex =? batch_id) then st
  else
    let (unit, output_attr) :=
      run_vertex_shader (shader_unit st) index vertex (cached_output cached_vertex) in
    let output := stored_output gs_used output_attr in
    let tag := if is_indexed src then batch_id else batch cached_vertex in
    mkVertexPhase
      (array_set (vs_output st) slot (mkCachedVertex output tag (lock cached_vertex)))
      unit
      (draw_log st ++ [RunShader index vertex]).

(** Lines 364-365: [index] runs from its start in steps of one. *)
Fixpoint VSUnitLoop_from (remaining : nat) (src : IndexSource) (gs_used : bool)
    (batch_id index : Z) (st : VertexPhase) : VertexPhase :=
  match remaining with
  | O => st
  | S k =>
      VSUnitLoop_from k src gs_used batch_id (index + 1)
        (VSUnitLoop_body src gs_used batch_id index st)
  end.

(** [VSUnitLoop(0, std::integral_constant<u32, 1>{})]. *)
Definition VSUnitLoop (src : IndexSource) (gs_used : bool) (batch_id n_vertices : Z)
    (vs_output : list Cached) : VertexPhase :=
  VSUnitLoop_from (Z.to_nat n_vertices) src gs_used batch_id 0
    (mkVertexPhase vs_output new_shader_unit []).

(** Lines 444-464 with [vs_threads] zero: one pass of the consumption
    loop, on the geometry pipeline as the passes before left it and the
    log of what has been handed on so far. *)
Definition submit_body (src : IndexSource) (gs_used : bool) (vs_output : list Cached)
    (index : Z) (st : GeometryPipeline * DrawLog) : GeometryPipeline * DrawLog :=
  let (geometry_pipeline, consumed) := st in
  let vertex := VertexIndex src index in
  let cached_vertex := cache_at vs_output (if is_indexed src then vertex else index) in
  if gs_used && is_indexed src && NeedIndexInput geometry_pipeline then
    (SubmitIndex vertex geometry_pipeline, consumed ++ [GeometrySubmitIndex vertex])
  else if gs_used then
    (SubmitVertex (cached_output cached_vertex) geometry_pipeline,
     consumed ++ [GeometrySubmitVertex (cached_output cached_vertex)])
  else
    (geometry_pipeline, consumed ++ [AssemblerSubmitVertex (cached_output cached_vertex)]).

(** Line 443: [index] runs from its start in steps of one. *)
Fixpoint submit_from (remaining : nat) (src : IndexSource) (gs_used : bool)
    (vs_output : list Cached) (index : Z) (st : GeometryPipeline * DrawLog)
  : GeometryPipeline * DrawLog :=
  match remaining with
  | O => st
  | S k =>
      submit_from k src gs_used vs_output (index + 1)
        (submit_body src gs_used vs_output index st)
  end.

(** Lines 325-465 when no worker is spawned: the cache is resized, the
    batch id advances, the vertex loop runs inline, the geometry pipeline
    is reconfigured and set up, and the vertices are consumed in order.
    The assertion of lines 434-436 ends the program when the pipeline asks
    for index input in a draw without index array: the result is [None].
    Otherwise the result is the new batch id, the vertex phase, the
    geometry pipeline and the consumption log.  (The set-up calls on the
    shader engine and the final [DrawTriangles] are not recorded.) *)
Definition draw_single_threaded (moved : bool) (src : IndexSource) (c : DrawConfig)
    (batch_id : Z) (cache : list Cached) (geometry_pipeline : GeometryPipeline)
  : option (Z * VertexPhase * GeometryPipeline * DrawLog) :=
  let cache := resize_cache moved src (num_vertices c) cache in
  let (batch_id, cache) := advance_batch batch_id cache in
  let st := VSUnitLoop src (use_gs c) batch_id (num_vertices c) cache in
  let geometry_pipeline := Setup (Reconfigure geometry_pipeline) in
  if NeedIndexInput geometry_pipeline && negb (is_indexed src) then None
  else
    let (geometry_pipeline, consumed) :=
      submit_from (Z.to_nat (num_vertices c)) src (use_gs c) (vs_output st) 0
        (geometry_pipeline, []) in
    Some (batch_id, st, geometry_pipeline, consumed).

(** The number of runs of the vertex shader for [vertex] in a draw log. *)
Definition is_run_of (vertex : Z) (e : DrawEvent AttributeBuffer OutputVertex) : bool :=
  match e with RunShader _ v => v =? vertex | _ => false end.

Fixpoint shader_runs (vertex : Z) (l : DrawLog) : nat :=
  match l with
  | [] => O
  | e :: l => ((if is_run_of vertex e then 1 else 0) + shader_runs vertex l)%nat
  end.

(** The register ids one command writes: the header's id for the first
    value, then one id per extra data word. *)
Definition extra_target (header i : Z) : Z :=
  wrap32 (header_cmd_id header + (if header_group_commands header then i + 1 else 0)).

Definition command_targets (header : Z) : list Z :=
  header_cmd_id header
  :: map (extra_target header)
       (seqZ 0 (Z.of_nat (Z.to_nat (header_extra_data_length header)))).

(** No write of the command goes to [command_buffer.trigger[0..1]]. *)
Definition avoids_trigger (header : Z) : Prop :=
  Forall (fun id => is_case id reg_trigger 2 = false) (command_targets header).

(** What the inline vertex loop keeps true of an indexed draw once the
    loop indices below [m] are done, [cache] being the cache the loop
    started from: the entries tagged with the batch id are those of the
    vertices met so far, each was shaded once, and holds what the shader
    produced at the loop index where the vertex first occurs, run on the
    shader unit as the passes before left it and on what the entry held at
    the start; the other entries hold what they held at the start. *)
Definition vertex_loop_inv (src : IndexSource) (gs_used : bool) (batch_id : Z)
    (cache : list Cached) (m : Z) (st : VertexPhase) : Prop :=
  length (vs_output st) = length cache
  /\ (forall v, 0 <= v ->
        batch (cache_at (vs_output st) v) = batch_id
        <-> exists i, 0 <= i < m /\ VertexIndex src i = v)
  /\ (forall v, 0 <= v ->
        shader_runs v (draw_log st)
        = if batch (cache_at (vs_output st) v) =? batch_id then 1%nat else 0%nat)
  /\ (forall v, 0 <= v -> batch (cache_at (vs_output st) v) = batch_id ->
        exists j,
          0 <= j < m /\ VertexIndex src j = v
          /\ (forall j', 0 <= j' < j -> VertexIndex src j' <> v)
          /\ cached_output (cache_at (vs_output st) v)
             = stored_output gs_used
                 (snd (run_vertex_shader
                         (shader_unit (VSUnitLoop src gs_used batch_id j cache)) j v
                         (cached_output (cache_at cache v)))))
  /\ (forall v, 0 <= v -> batch (cache_at (vs_output st) v) <> batch_id ->
        cached_output (cache_at (vs_output st) v) = cached_output (cache_at cache v)).

(** The tags of the cache never exceed the batch id. *)
Definition tags_bounded (batch_id : Z) (cache : list Cached) : Prop :=
  0 <= batch_id < 2 ^ 32 /\ Forall (fun entry => 0 <= batch entry <= batch_id) cache.

(** ** Runs of writes to one register *)

(** Consecutive writes of the words [ws] to one [set_word] register, the
    offset register left to the loader between the words. *)
Definition write_words (set_word : Z -> State -> State) (ws : list Z) (s : State) : State :=
  fold_left (fun s w => set_word w s) ws s.

(** The words [ws] stand in [after] from [offset] on, and [after] is
    [before] everywhere else. *)
Definition words_landed (before after : list Z) (offset : Z) (ws : list Z) : Prop :=
  length after = length before
  /\ (forall k, 0 <= k < Z.of_nat (length ws) -> word_at after (offset + k) = word_at ws k)
  /\ (forall j, 0 <= j -> j < offset \/ offset + Z.of_nat (length ws) <= j ->
        word_at after j = word_at before j).

(** ** The loop indices of a worker *)

(** Lines 364-365 as a worker runs them: [index] starts at [thread_id] and
    goes up by [num_threads] (an unsigned sum, which wraps) for as long as
    it is below [num_vertices].  The loop indices met, in order; [fuel]
    bounds the number of passes. *)
Fixpoint worker_indices (fuel : nat) (index num_threads num_vertices : Z) : list Z :=
  match fuel with
  | O => []
  | S k =>
      if index <? num_vertices
      then index :: worker_indices k (wrap32 (index + num_threads)) num_threads num_vertices
      else []
  end.

(** The loop indices of the job [(thread_id, num_threads)].  With a stride
    of at least one, [num_vertices] passes are enough. *)
Definition VSUnitLoop_indices (job : Z * Z) (num_vertices : Z) : list Z :=
  worker_indices (Z.to_nat num_vertices) (fst job) (snd job) num_vertices.

(** ** WriteUniformBoolReg *)

(** Lines 51-52: [for (i = 0; i < b.size(); ++i) b[i] = (value & (1 << i)) != 0]. *)
Fixpoint WriteUniformBoolReg_from (remaining : nat) (i : Z) (value : Z) (b : list bool)
  : list bool :=
  match remaining with
  | O => b
  | S k =>
      WriteUniformBoolReg_from k (i + 1) value
        (array_set b i (negb (Z.land value (Z.shiftl 1 i) =? 0)))
  end.

(** [WriteUniformBoolReg(setup, value)] on [setup.uniforms.b]. *)
Definition WriteUniformBoolReg (b : list bool) (value : Z) : list bool :=
  WriteUniformBoolReg_from (length b) 0 value b.

(** ** Default attributes and immediate-mode vertices *)

(** [pipeline.vs_default_attributes_setup.index] is a plain [u32] of the
    register array ([setup.index++]); [pipeline.max_input_attrib_index] is
    a bit-field read from it. *)
Variable reg_default_attr_index : Z.
Variable max_input_attrib_index : list Z -> Z.

(** Calls that leave the default-attribute case, in the order they are
    made: the two log lines; [LoadInput], [Run] and [WriteOutput] on a fresh
    shader unit with the immediate input vertex; and, on the geometry
    pipeline and the rasterizer, [Reconfigure], [SubmitVertex] and
    [DrawTriangles].  (The events for the debug observer are not
    recorded.) *)
Inductive ImmediateEvent : Type :=
| LogError_InvalidDefaultAttributeIndex (index : Z)
| LogTrace_SetDefaultAttribute (index : Z)
| RunImmediateVertex (input : list (Vec4 float24))
| GeometryPipelineReconfigure
| GeometryPipelineSubmitVertex
| RasterizerDrawTriangles.

(** The parts of [g_state] that the default-attribute cases write. *)
Record Immediate : Type := mkImmediate {
  default_attr_counter : Z;
  default_attr_write_buffer : list Z;
  input_default_attributes : list (Vec4 float24);  (* input_default_attributes.attr *)
  current_attribute : Z;                            (* immediate.current_attribute *)
  input_vertex : list (Vec4 float24);               (* immediate.input_vertex.attr *)
  reset_geometry_pipeline : bool;                   (* immediate.reset_geometry_pipeline *)
  immediate_log : list ImmediateEvent
}.


(** Lines 212-244: the immediate vertex is complete. *)
Definition submit_immediate_vertex (input : list (Vec4 float24)) (reset : bool)
  : list ImmediateEvent :=
  RunImmediateVertex input
  :: (if reset then [GeometryPipelineReconfigure] else [])
  ++ [GeometryPipelineSubmitVertex; RasterizerDrawTriangles].

(** [case vs_default_attributes_setup.set_value[0..2]] (lines 158-249), on
    the register array and the state above. *)
Definition default_attribute_set_value (value : Z) (st : list Z * Immediate)
  : list Z * Immediate :=
  let (r, im) := st in
  let buffer := array_set (default_attr_write_buffer im) (default_attr_counter im) value in
  let counter := default_attr_counter im + 1 in
  if 3 <=? counter then
    let index := word_at r reg_default_attr_index in
    if 16 <=? index then
      (r, mkImmediate 0 buffer (input_default_attributes im) (current_attribute im)
            (input_vertex im) (reset_geometry_pipeline im)
            (immediate_log im ++ [LogError_InvalidDefaultAttributeIndex index]))
    else
      let attribute := decode_float24 buffer in
      let lg := immediate_log im ++ [LogTrace_SetDefaultAttribute index] in
      if index <? 15 then
        (array_set r reg_default_attr_index (wrap32 (index + 1)),
         mkImmediate 0 buffer (array_set (input_default_attributes im) index attribute)
           (current_attribute im) (input_vertex im) (reset_geometry_pipeline im) lg)
      else
        let input := array_set (input_vertex im) (current_attribute im) attribute in
        if current_attribute im <? max_input_attrib_index r then
          (r, mkImmediate 0 buffer (input_default_attributes im) (current_attribute im + 1)
                input (reset_geometry_pipeline im) lg)
        else
          (r, mkImmediate 0 buffer (input_default_attributes im) 0 input false
                (lg ++ submit_immediate_vertex input (reset_geometry_pipeline im)))
  else
    (r, mkImmediate counter buffer (input_default_attributes im) (current_attribute im)
          (input_vertex im) (reset_geometry_pipeline im) (immediate_log im)).



(** ** The fog lookup table *)

(** [regs.texturing.fog_lut_offset], a bit-field of the register array:
    read and [Assign]. *)
Variable fog_lut_offset : list Z -> Z.
Variable fog_lut_offset_Assign : Z -> list Z -> list Z.

(** [case texturing.fog_lut_data[0..7]] (lines 639-650), on the register
    array and [g_state.fog.lut] (the [raw] words). *)
Definition fog_lut_data (value : Z) (st : list Z * list Z) : list Z * list Z :=
  let (r, lut) := st in
  (fog_lut_offset_Assign (wrap32 (fog_lut_offset r + 1)) r,
   array_set lut (fog_lut_offset r mod 128) value).

Definition write_fog_lut (ws : list Z) (st : list Z * list Z) : list Z * list Z :=
  fold_left (fun st w => fog_lut_data w st) ws st.

(** ** A command as a run of register writes *)

(** The register writes of the command read at [value_at]: the header's
    register takes the value word, each extra data word goes to its
    target, all under the header's mask. *)
Definition command_writes (value_at : Z) : list (Z * Z) :=
  let header := host_word (value_at + 1) in
  (header_cmd_id header, host_word value_at)
  :: map (fun k => (extra_target header k, host_word (value_at + 2 + k)))
       (seqZ 0 (Z.of_nat (Z.to_nat (header_extra_data_length header)))).

Definition register_writes (mask : Z) (writes : list (Z * Z)) (s : State) : State :=
  fold_left (fun s w => WritePicaReg (fst w) (snd w) mask s) writes s.

(** ** The vertex loop on several workers *)

(** Where a worker stands between two of its accesses to shared memory
    (lines 364-413 with [single_thread] false): at the loop head; holding
    the lock of the vertex's entry ([test_and_set] returned false) before
    the batch tag is loaded; about to load and shade the vertex; with the
    output written, about to store the batch tag; and about to clear the
    lock. *)
Inductive WorkerPhase : Type :=
| AtLoopHead
| HoldsLock
| Shades
| Publishes
| Releases.

(** A worker: its loop index, where it stands, and its own shader unit. *)
Record Worker : Type := mkWorker {
  worker_index : Z;
  worker_phase : WorkerPhase;
  worker_unit : UnitState
}.

(** The workers of a draw with the cache and the log of shader runs they
    share. *)
Record Parallel : Type := mkParallel {
  workers : list Worker;
  shared_output : list Cached;
  parallel_log : DrawLog
}.

(** One access of a worker to shared memory with the local computation
    that follows it, up to its next access.  [None] when the worker has
    left the loop. *)
Definition worker_step (src : IndexSource) (gs_used : bool) (batch_id n_vertices num_threads : Z)
    (w : Worker) (cache : list Cached) (lg : DrawLog)
  : option (Worker * list Cached * DrawLog) :=
  let index := worker_index w in
  let vertex := VertexIndex src index in
  let slot := if is_indexed src then vertex else index in
  let cached_vertex := cache_at cache slot in
  let continue := mkWorker (wrap32 (index + num_threads)) AtLoopHead (worker_unit w) in
  match worker_phase w with
  | AtLoopHead =>
      if index <? n_vertices then
        if is_indexed src then
          (* lock.test_and_set *)
          if lock cached_vertex then Some (continue, cache, lg)
          else Some (mkWorker index HoldsLock (worker_unit w),
                     array_set cache slot
                       (mkCachedVertex (cached_output cached_vertex) (batch cached_vertex) true),
                     lg)
        else Some (mkWorker index Shades (worker_unit w), cache, lg)
      else None
  | HoldsLock =>
      (* batch.load *)
      if batch cached_vertex =? batch_id
      then Some (mkWorker index Releases (worker_unit w), cache, lg)
      else Some (mkWorker index Shades (worker_unit w), cache, lg)
  | Shades =>
      let (unit, output_attr) :=
        run_vertex_shader (worker_unit w) index vertex (cached_output cached_vertex) in
      Some (mkWorker index Publishes unit,
            array_set cache slot
              (mkCachedVertex (stored_output gs_used output_attr) (batch cached_vertex)
                 (lock cached_vertex)),
            lg ++ [RunShader index vertex])
  | Publishes =>
      (* batch.store *)
      let cache :=
        array_set cache slot
          (mkCachedVertex (cached_output cached_vertex) batch_id (lock cached_vertex)) in
      if is_indexed src then Some (mkWorker index Releases (worker_unit w), cache, lg)
      else Some (continue, cache, lg)
  | Releases =>
      (* lock.clear *)
      Some (continue,
            array_set cache slot
              (mkCachedVertex (cached_output cached_vertex) (batch cached_vertex) false),
            lg)
  end.

(** Worker [k] makes its next step, if it has one. *)
Definition schedule_step (src : IndexSource) (gs_used : bool)
    (batch_id n_vertices num_threads : Z) (k : nat) (p : Parallel) : Parallel :=
  match workers p !! k with
  | Some w =>
      match worker_step src gs_used batch_id n_vertices num_threads w
              (shared_output p) (parallel_log p) with
      | Some (w', cache, lg) => mkParallel (<[k := w']> (workers p)) cache lg
      | None => p
      end
  | None => p
  end.

(** The workers run interleaved: [schedule] names, step after step, the
    worker that moves. *)
Definition run_schedule (src : IndexSource) (gs_used : bool)
    (batch_id n_vertices num_threads : Z) (schedule : list nat) (p : Parallel) : Parallel :=
  fold_left (fun p k => schedule_step src gs_used batch_id n_vertices num_threads k p)
    schedule p.

(** Lines 427-429: one worker per pushed job, each with a fresh shader
    unit. *)
Definition start_workers (threads : Z) (cache : list Cached) : Parallel :=
  mkParallel
    (map (fun job => mkWorker (fst job) AtLoopHead new_shader_unit)
       (push_jobs (Z.to_nat threads) 0 threads))
    cache [].

(** Every worker has left its loop. *)
Definition workers_done (n_vertices : Z) (p : Parallel) : Prop :=
  forall k w, workers p !! k = Some w ->
    worker_phase w = AtLoopHead /\ n_vertices <= worker_index w.

(** The worker is between taking and clearing the lock of [v]'s entry. *)
Definition holds_vertex (src : IndexSource) (w : Worker) (v : Z) : Prop :=
  worker_phase w <> AtLoopHead /\ VertexIndex src (worker_index w) = v.

(** The vertex has been shaded in this batch: its entry is tagged, or a
    worker is about to tag it. *)
Definition shaded (src : IndexSource) (batch_id : Z) (p : Parallel) (v : Z) : Prop :=
  batch (cache_at (shared_output p) v) = batch_id
  \/ exists k w, workers p !! k = Some w /\ worker_phase w = Publishes
                 /\ VertexIndex src (worker_index w) = v.

(** What every interleaving of the workers of an indexed draw keeps
    true. *)
Definition parallel_inv (src : IndexSource) (batch_id n_vertices threads : Z) (size : nat)
    (p : Parallel) : Prop :=
  length (shared_output p) = size
  /\ (forall k w, workers p !! k = Some w ->
        (exists j, 0 <= j /\ worker_index w = Z.of_nat k + j * threads)
        /\ (worker_phase w <> AtLoopHead -> worker_index w < n_vertices)
        /\ (worker_phase w = Shades \/ worker_phase w = Publishes ->
              batch (cache_at (shared_output p) (VertexIndex src (worker_index w)))
              <> batch_id)
        /\ (worker_phase w = Releases ->
              batch (cache_at (shared_output p) (VertexIndex src (worker_index w)))
              = batch_id))
  /\ (forall v, 0 <= v ->
        lock (cache_at (shared_output p) v) = true
        <-> exists k w, workers p !! k = Some w /\ holds_vertex src w v)
  /\ (forall k k' w w' v,
        workers p !! k = Some w -> workers p !! k' = Some w' ->
        holds_vertex src w v -> holds_vertex src w' v -> k = k')
  /\ (forall v, 0 <= v ->
        (shaded src batch_id p v -> shader_runs v (parallel_log p) = 1%nat)
        /\ (~ shaded src batch_id p v -> shader_runs v (parallel_log p) = 0%nat))
  /\ (forall k w i, workers p !! k = Some w ->
        0 <= i < n_vertices -> i < worker_index w ->
        (exists j, 0 <= j /\ i = Z.of_nat k + j * threads) ->
        batch (cache_at (shared_output p) (VertexIndex src i)) = batch_id
        \/ exists k' w', workers p !! k' = Some w'
                         /\ holds_vertex src w' (VertexIndex src i))
  /\ (forall v, 0 <= v -> batch (cache_at (shared_output p) v) = batch_id ->
        exists i, 0 <= i < n_vertices /\ VertexIndex src i = v).

(** Whether worker [k] has a step to make. *)
Definition worker_moves (src : IndexSource) (gs_used : bool)
    (batch_id n_vertices num_threads : Z) (k : nat) (p : Parallel) : bool :=
  match workers p !! k with
  | Some w =>
      match worker_step src gs_used batch_id n_vertices num_threads w
              (shared_output p) (parallel_log p) with
      | Some _ => true
      | None => false
      end
  | None => false
  end.

(** The steps of a schedule that are made, leaving out the turns of
    workers that have left their loops. *)
Fixpoint steps_made (src : IndexSource) (gs_used : bool)
    (batch_id n_vertices num_threads : Z) (schedule : list nat) (p : Parallel) : Z :=
  match schedule with
  | [] => 0
  | k :: schedule =>
      (if worker_moves src gs_used batch_id n_vertices num_threads k p then 1 else 0)
      + steps_made src gs_used batch_id n_vertices num_threads schedule
          (schedule_step src gs_used batch_id n_vertices num_threads k p)
  end.

(** How far a worker is through one pass of its loop body, and a bound on
    the steps it still has to make: five for each loop index left to
    it. *)
Definition phase_rank (phase : WorkerPhase) : Z :=
  match phase with
  | AtLoopHead => 0
  | HoldsLock => 1
  | Shades => 2
  | Publishes => 3
  | Releases => 4
  end.

Definition worker_fuel (n_vertices num_threads : Z) (w : Worker) : Z :=
  5 * (Z.max 0 (n_vertices + num_threads - 1 - worker_index w) / num_threads)
  - phase_rank (worker_phase w).

Definition total_fuel (n_vertices num_threads : Z) (ws : list Worker) : Z :=
  foldr (fun w acc => worker_fuel n_vertices num_threads w + acc) 0 ws.

(** The turns worker [k] is given by a schedule. *)
Fixpoint turns (k : nat) (schedule : list nat) : Z :=
  match schedule with
  | [] => 0
  | k0 :: schedule => (if Nat.eqb k0 k then 1 else 0) + turns k schedule
  end.

(** ** The commands of a list *)

(** Lines 700-702: the padding word skipped before a command when the
    cursor is at an odd word offset from the head. *)
Definition command_padding (head cursor : Z) : Z :=
  if Z.rem (head - cursor) 2 =? 0 then 0 else 1.

(** The header of the command that a pass reads with the cursor at
    [cursor]: the word after the value word. *)
Definition command_header (head cursor : Z) : Z :=
  host_word (cursor + command_padding head cursor + 1).

(** Where that pass leaves the cursor when its command does not move the
    list: past the padding word, the value, the header and the extra data
    words. *)
Definition next_command (head cursor : Z) : Z :=
  cursor + command_padding head cursor + 2
  + Z.of_nat (Z.to_nat (header_extra_data_length (command_header head cursor))).

(** The places at which the walk of a list of [len] words at [head] stands
    at the start of a pass, as long as the list stays where it is: the
    head, and the place after every command read before the end.  Words
    between these places are values, headers already read, and extra data;
    they are not read as headers. *)
Inductive command_at (head len : Z) : Z -> Prop :=
| command_at_head : command_at head len head
| command_at_next (cursor : Z) :
    command_at head len cursor ->
    cursor < head + len ->
    command_at head len (next_command head cursor).

(** No command of the list writes [command_buffer.trigger[0..1]]. *)
Definition list_avoids_trigger (head len : Z) : Prop :=
  forall cursor, command_at head len cursor -> cursor < head + len ->
    avoids_trigger (command_header head cursor).

(** Case analysis on every condition in the goal. *)
Ltac case_conditions :=
  repeat match goal with
         | |- context [if ?c then _ else _] => destruct c
         end.

(** * Properties *)

(** ** Arrays and words *)

Lemma word_at_array_set_eq (a : list Z) (i x : Z) :
  0 <= i < Z.of_nat (length a) -> word_at (array_set a i x) i = x.
Proof.
  intros Hi. unfold word_at, array_set.
  rewrite list_lookup_insert_eq by lia. reflexivity.
Qed.

Lemma word_at_array_set_ne (a : list Z) (i j x : Z) :
  0 <= i -> 0 <= j -> i <> j -> word_at (array_set a i x) j = word_at a j.
Proof.
  intros Hi Hj Hne. unfold word_at, array_set.
  rewrite list_lookup_insert_ne by lia. reflexivity.
Qed.

Lemma length_array_set {A : Type} (a : list A) (i : Z) (x : A) :
  length (array_set a i x) = length a.
Proof. unfold array_set. apply length_insert. Qed.


Lemma u32_not_spec (x i : Z) :
  0 <= i -> Z.testbit (u32_not x) i = negb (Z.testbit x i) && (i <? 32).
Proof.
  intros Hi. unfold u32_not. rewrite Z.land_spec, Z.lnot_spec by lia.
  f_equal. destruct (Z.ltb_spec i 32).
  - apply Z.ones_spec_low. lia.
  - apply Z.ones_spec_high. lia.
Qed.









(** ** The register file *)

Lemma regs_register_write (s : State) (id value mask : Z) :
  regs (register_write id value mask s) = masked_write id value mask (regs s).
Proof.
  destruct s as [r v g c1 b1 c2 b2 cl tracing dbg lg].
  unfold register_write. cbn. destruct tracing, dbg; reflexivity.
Qed.





(** ** The float-uniform loader *)

Lemma lor_shiftl_low (x y n : Z) :
  0 <= n -> 0 <= y < 2 ^ n -> Z.lor (Z.shiftl x n) y = x * 2 ^ n + y.
Proof.
  intros Hn Hy. rewrite Z.shiftl_mul_pow2 by exact Hn.
  pose proof (Z.add_lor_land (x * 2 ^ n) y) as Hadd.
  assert (Hland : Z.land (x * 2 ^ n) y = 0).
  { apply Z.bits_inj'. intros i Hi. rewrite Z.land_spec, Z.bits_0.
    destruct (Z.ltb_spec i n).
    - rewrite Z.mul_pow2_bits_low by lia. reflexivity.
    - rewrite <- (Z.mod_small y (2 ^ n)) by exact Hy.
      rewrite Z.mod_pow2_bits_high by lia. apply andb_false_r. }
  lia.
Qed.

(** Staging touches the counter and one slot of the unit's buffer. *)
Lemma stage_uniform_word_spec (u : ShaderUnit) (value : Z) (s : State) :
  let s1 := stage_uniform_word u value s in
  float_regs_counter u s1 = float_regs_counter u s + 1
  /\ uniform_write_buffer u s1
     = array_set (uniform_write_buffer u s) (float_regs_counter u s) value
  /\ regs s1 = regs s
  /\ vs s1 = vs s /\ gs s1 = gs s
  /\ log s1 = log s.
Proof. destruct s, u; cbn; repeat split; reflexivity. Qed.

(** A flush whose destination index is 96 or more: the counter is cleared
    and the error is logged, nothing else. *)
Lemma flush_uniform_rejected (u : ShaderUnit) (s : State) :
  96 <= uniform_setup_index u (regs s) ->
  flush_uniform u s
  = log_event (LogError_InvalidFloatUniformIndex u (uniform_setup_index u (regs s)))
      (with_float_regs_counter u 0 s).
Proof.
  intros Hidx. unfold flush_uniform.
  replace (regs (with_float_regs_counter u 0 s)) with (regs s)
    by (destruct s, u; reflexivity).
  destruct (Z.leb_spec 96 (uniform_setup_index u (regs s))) as [_ | Hlt]; [reflexivity | lia].
Qed.

(** A write that completes a vector for an index of 96 or more. *)
Lemma WriteUniformFloatReg_rejected (u : ShaderUnit) (value : Z) (s : State) :
  flush_threshold_reached u (stage_uniform_word u value s) = true ->
  96 <= uniform_setup_index u (regs s) ->
  let s' := WriteUniformFloatReg u value s in
  float_regs_counter u s' = 0
  /\ regs s' = regs s /\ vs s' = vs s /\ gs s' = gs s
  /\ log s' = log s ++ [LogError_InvalidFloatUniformIndex u (uniform_setup_index u (regs s))].
Proof.
  intros Hreach Hidx s'. subst s'.
  unfold WriteUniformFloatReg. rewrite Hreach.
  destruct (stage_uniform_word_spec u value s) as (_ & _ & Hr & Hv & Hg & Hl).
  rewrite flush_uniform_rejected by (rewrite Hr; exact Hidx).
  rewrite Hr.
  destruct (stage_uniform_word u value s) as [r v g c1 b1 c2 b2 cl tr dbg lg].
  cbn in Hr, Hv, Hg, Hl.
  destruct u; cbn; repeat split; congruence.
Qed.

(** C10.  When the write that completes a vector finds the destination
    index at 96 or more, the staging counter is nevertheless back at 0, so
    the staged words are dropped rather than retried (the next word goes to
    slot 0 of the buffer).  The flush itself changes only the counter and
    logs the error: the register array, hence the destination index, and
    both units' shader setups, hence every uniform slot, are as before. *)
Theorem rejected_flush_resets_counter (u : ShaderUnit) (value : Z) (s : State) :
  flush_threshold_reached u (stage_uniform_word u value s) = true ->
  96 <= uniform_setup_index u (regs s) ->
  let s1 := stage_uniform_word u value s in
  let s' := WriteUniformFloatReg u value s in
  s' = log_event (LogError_InvalidFloatUniformIndex u (uniform_setup_index u (regs s)))
         (with_float_regs_counter u 0 s1)
  /\ float_regs_counter u s' = 0
  /\ regs s' = regs s
  /\ uniform_setup_index u (regs s') = uniform_setup_index u (regs s)
  /\ vs s' = vs s /\ gs s' = gs s
  /\ uniforms_f (setup u s') = uniforms_f (setup u s)
  /\ (forall next, uniform_write_buffer u (stage_uniform_word u next s')
                   = array_set (uniform_write_buffer u s') 0 next).
Proof.
  intros Hreach Hidx s1 s'.
  assert (E : s' = log_event
                     (LogError_InvalidFloatUniformIndex u (uniform_setup_index u (regs s)))
                     (with_float_regs_counter u 0 s1)).
  { subst s' s1. unfold WriteUniformFloatReg. rewrite Hreach.
    rewrite flush_uniform_rejected.
    - destruct s, u; reflexivity.
    - destruct (stage_uniform_word_spec u value s) as (_ & _ & Hr & _).
      rewrite Hr. exact Hidx. }
  split; [exact E |].
  rewrite E. subst s1.
  destruct s, u; cbn; repeat split; reflexivity.
Qed.

Lemma word_at_range (a : list Z) (i : Z) :
  Forall (fun w => 0 <= w < 2 ^ 32) a -> 0 <= word_at a i < 2 ^ 32.
Proof.
  intros Ha. unfold word_at.
  destruct (a !! Z.to_nat i) as [w |] eqn:E; cbn.
  - rewrite Forall_forall in Ha. apply Ha. eapply list_elem_of_lookup_2. exact E.
  - lia.
Qed.

(** The 32-bit decode reverses the four words. *)
Lemma decode_float32_spec (buffer : list Z) (old : Vec4 float24) :
  decode_float32 buffer old
  = mkVec4 (FromFloat32 (word_at buffer 3)) (FromFloat32 (word_at buffer 2))
           (FromFloat32 (word_at buffer 1)) (FromFloat32 (word_at buffer 0)).
Proof. destruct old. reflexivity. Qed.

(** The packed decode, field by field, as arithmetic on the staged words. *)
Lemma decode_float24_spec (buffer : list Z) :
  Forall (fun w => 0 <= w < 2 ^ 32) buffer ->
  decode_float24 buffer
  = mkVec4 (FromRaw (word_at buffer 2 mod 2 ^ 24))
           (FromRaw ((word_at buffer 1 mod 2 ^ 16) * 2 ^ 8 + word_at buffer 2 / 2 ^ 24))
           (FromRaw ((word_at buffer 0 mod 2 ^ 8) * 2 ^ 16 + word_at buffer 1 / 2 ^ 16))
           (FromRaw (word_at buffer 0 / 2 ^ 8)).
Proof.
  intros Hb. unfold decode_float24.
  pose proof (word_at_range buffer 0 Hb) as H0.
  pose proof (word_at_range buffer 1 Hb) as H1.
  pose proof (word_at_range buffer 2 Hb) as H2.
  set (w0 := word_at buffer 0) in *.
  set (w1 := word_at buffer 1) in *.
  set (w2 := word_at buffer 2) in *.
  change 0xFF with (Z.ones 8). change 0xFFFF with (Z.ones 16).
  change 0xFFFFFF with (Z.ones 24).
  rewrite !Z.land_ones, !Z.shiftr_div_pow2 by lia.
  assert (E1 : (w1 / 2 ^ 16) mod 2 ^ 16 = w1 / 2 ^ 16).
  { apply Z.mod_small. split; [apply Z.div_pos; lia |].
    apply Z.div_lt_upper_bound; lia. }
  assert (E2 : (w2 / 2 ^ 24) mod 2 ^ 8 = w2 / 2 ^ 24).
  { apply Z.mod_small. split; [apply Z.div_pos; lia |].
    apply Z.div_lt_upper_bound; lia. }
  rewrite E1, E2.
  assert (R1 : 0 <= w1 / 2 ^ 16 < 2 ^ 16)
    by (rewrite <- E1; apply Z.mod_pos_bound; lia).
  assert (R2 : 0 <= w2 / 2 ^ 24 < 2 ^ 8)
    by (rewrite <- E2; apply Z.mod_pos_bound; lia).
  rewrite !lor_shiftl_low by (assumption || lia).
  reflexivity.
Qed.

(** A flush whose destination index is below 96. *)
Lemma flush_uniform_accepted (u : ShaderUnit) (s : State) :
  uniform_setup_index u (regs s) < 96 ->
  let index := uniform_setup_index u (regs s) in
  let f := uniforms_f (setup u s) in
  let old := default (mkVec4 (FromRaw 0) (FromRaw 0) (FromRaw 0) (FromRaw 0))
               (f !! Z.to_nat index) in
  let uniform :=
    if uniform_setup_IsFloat32 u (regs s)
    then decode_float32 (uniform_write_buffer u s) old
    else decode_float24 (uniform_write_buffer u s) in
  flush_uniform u s
  = with_regs (uniform_setup_index_Assign u (index + 1) (regs s))
      (log_event (LogTrace_SetFloatUniform u index)
         (with_setup u (with_uniforms_f (array_set f index uniform) (setup u s))
            (with_float_regs_counter u 0 s))).
Proof.
  intros Hidx index f old uniform. unfold flush_uniform.
  replace (regs (with_float_regs_counter u 0 s)) with (regs s)
    by (destruct s, u; reflexivity).
  fold index.
  destruct (Z.leb_spec 96 index) as [Hge | _]; [lia |].
  subst uniform old f. destruct s, u; reflexivity.
Qed.

(** What one write does when it completes a vector for a valid index. *)
Lemma WriteUniformFloatReg_flush (u : ShaderUnit) (value : Z) (s : State) :
  flush_threshold_reached u (stage_uniform_word u value s) = true ->
  uniform_setup_index u (regs s) < 96 ->
  let index := uniform_setup_index u (regs s) in
  let buffer := array_set (uniform_write_buffer u s) (float_regs_counter u s) value in
  let f := uniforms_f (setup u s) in
  let old := default (mkVec4 (FromRaw 0) (FromRaw 0) (FromRaw 0) (FromRaw 0))
               (f !! Z.to_nat index) in
  let uniform :=
    if uniform_setup_IsFloat32 u (regs s) then decode_float32 buffer old
    else decode_float24 buffer in
  let s' := WriteUniformFloatReg u value s in
  uniforms_f (setup u s') = array_set f index uniform
  /\ float_regs_counter u s' = 0
  /\ uniform_write_buffer u s' = buffer
  /\ regs s' = uniform_setup_index_Assign u (index + 1) (regs s)
  /\ log s' = log s ++ [LogTrace_SetFloatUniform u index].
Proof.
  intros Hreach Hidx index buffer f old uniform s'.
  subst s'. unfold WriteUniformFloatReg. rewrite Hreach.
  destruct (stage_uniform_word_spec u value s) as (Hc & Hb & Hr & Hv & Hg & Hl).
  rewrite flush_uniform_accepted by (rewrite Hr; exact Hidx).
  rewrite Hr, Hb.
  assert (Hsetup : setup u (stage_uniform_word u value s) = setup u s)
    by (destruct u; cbn [setup]; assumption).
  rewrite Hsetup.
  fold index buffer f old. fold uniform.
  destruct (stage_uniform_word u value s) as [r v g c1 b1 c2 b2 cl tr dbg lg].
  cbn in Hl, Hb. subst lg.
  destruct u; cbn in *; subst; repeat split; reflexivity.
Qed.

Lemma flush_threshold_after_stage (u : ShaderUnit) (value : Z) (s : State) :
  flush_threshold_reached u (stage_uniform_word u value s)
  = ((4 <=? float_regs_counter u s + 1) && uniform_setup_IsFloat32 u (regs s))
    || ((3 <=? float_regs_counter u s + 1) && negb (uniform_setup_IsFloat32 u (regs s))).
Proof. destruct s, u; reflexivity. Qed.

(** C2.  For either shader unit: when a write brings the staging buffer to
    its flush threshold (the fourth word in 32-bit mode, the third in
    packed mode) and the destination index is below 96, the destination
    vector is, in 32-bit mode, the four staged words read as 32-bit floats
    in reverse order (word 0 in w, word 3 in x), and in packed mode
    w = word0[31:8], z = word0[7:0] ++ word1[31:16],
    y = word1[15:0] ++ word2[31:24], x = word2[23:0], each read as a 24-bit
    float.  No other uniform slot changes. *)
Theorem flush_decodes_vector (u : ShaderUnit) (value : Z) (s : State) :
  length (uniform_write_buffer u s) = 4%nat ->
  0 <= float_regs_counter u s <= 3 ->
  Forall (fun w => 0 <= w < 2 ^ 32) (uniform_write_buffer u s) ->
  0 <= value < 2 ^ 32 ->
  Z.of_nat (length (uniforms_f (setup u s))) = 96 ->
  flush_threshold_reached u (stage_uniform_word u value s) = true ->
  0 <= uniform_setup_index u (regs s) < 96 ->
  let index := uniform_setup_index u (regs s) in
  let is_float32 := uniform_setup_IsFloat32 u (regs s) in
  let staged := array_set (uniform_write_buffer u s) (float_regs_counter u s) value in
  let word := word_at staged in
  let s' := WriteUniformFloatReg u value s in
  (if is_float32 then float_regs_counter u s = 3 else 2 <= float_regs_counter u s)
  /\ word (float_regs_counter u s) = value
  /\ uniforms_f (setup u s') !! Z.to_nat index
     = Some (if is_float32 then
               mkVec4 (FromFloat32 (word 3)) (FromFloat32 (word 2))
                      (FromFloat32 (word 1)) (FromFloat32 (word 0))
             else
               mkVec4 (FromRaw (word 2 mod 2 ^ 24))
                      (FromRaw ((word 1 mod 2 ^ 16) * 2 ^ 8 + word 2 / 2 ^ 24))
                      (FromRaw ((word 0 mod 2 ^ 8) * 2 ^ 16 + word 1 / 2 ^ 16))
                      (FromRaw (word 0 / 2 ^ 8)))
  /\ (forall j : nat, j <> Z.to_nat index ->
        uniforms_f (setup u s') !! j = uniforms_f (setup u s) !! j).
Proof.
  intros Hlen Hc Hwords Hvalue Hf Hreach Hidx index is_float32 staged word s'.
  destruct (WriteUniformFloatReg_flush u value s Hreach ltac:(lia))
    as (Hu & _ & _ & _ & _).
  fold index staged s' in Hu. fold is_float32 in Hu.
  rewrite flush_threshold_after_stage in Hreach. fold is_float32 in Hreach.
  assert (Hstaged : Forall (fun w => 0 <= w < 2 ^ 32) staged).
  { subst staged. unfold array_set. apply Forall_insert; assumption. }
  split; [| split; [| split]].
  - destruct is_float32; cbn [negb] in Hreach;
      rewrite ?andb_true_r, ?andb_false_r, ?orb_false_r, ?orb_false_l in Hreach;
      apply Z.leb_le in Hreach; lia.
  - subst word staged. apply word_at_array_set_eq. lia.
  - rewrite Hu. unfold array_set.
    rewrite list_lookup_insert_eq by lia. f_equal.
    destruct is_float32.
    + apply decode_float32_spec.
    + apply decode_float24_spec. exact Hstaged.
  - intros j Hj. rewrite Hu. unfold array_set.
    apply list_lookup_insert_ne. lia.
Qed.

(** What [regs_shader.h] promises of the [index] bit-field, on a register
    array of [NUM_REGS] words: assigning it keeps the array's size, a value
    up to 96 fits and reads back, and [format] is left alone. *)
Hypothesis index_Assign_length : forall u n r,
  length (uniform_setup_index_Assign u n r) = length r.
Hypothesis index_Assign_index : forall u n r,
  Z.of_nat (length r) = NUM_REGS -> 0 <= n <= 96 ->
  uniform_setup_index u (uniform_setup_index_Assign u n r) = n.
Hypothesis index_Assign_IsFloat32 : forall u n r,
  Z.of_nat (length r) = NUM_REGS ->
  uniform_setup_IsFloat32 u (uniform_setup_index_Assign u n r) = uniform_setup_IsFloat32 u r.

Lemma write_uniform_words_app (u : ShaderUnit) (ws1 ws2 : list Z) (s : State) :
  write_uniform_words u (ws1 ++ ws2) s
  = write_uniform_words u ws2 (write_uniform_words u ws1 s).
Proof. unfold write_uniform_words. apply fold_left_app. Qed.

(** Below the threshold the words are only staged. *)
Lemma write_uniform_words_staging (u : ShaderUnit) (ws : list Z) :
  forall s : State,
  0 <= float_regs_counter u s ->
  float_regs_counter u s + Z.of_nat (length ws) < words_per_vector u (regs s) ->
  let s' := write_uniform_words u ws s in
  float_regs_counter u s' = float_regs_counter u s + Z.of_nat (length ws)
  /\ regs s' = regs s /\ vs s' = vs s /\ gs s' = gs s /\ log s' = log s.
Proof.
  induction ws as [| w ws IH]; intros s Hc Hlt.
  - cbn. repeat split; lia.
  - cbn [length] in Hlt.
    destruct (stage_uniform_word_spec u w s) as (Hc1 & _ & Hr1 & Hv1 & Hg1 & Hl1).
    assert (Hstep : WriteUniformFloatReg u w s = stage_uniform_word u w s).
    { unfold WriteUniformFloatReg. rewrite flush_threshold_after_stage.
      unfold words_per_vector in Hlt.
      destruct (uniform_setup_IsFloat32 u (regs s)); cbn [negb];
        rewrite ?andb_true_r, ?andb_false_r, ?orb_false_r, ?orb_false_l.
      - destruct (Z.leb_spec 4 (float_regs_counter u s + 1)); [lia | reflexivity].
      - destruct (Z.leb_spec 3 (float_regs_counter u s + 1)); [lia | reflexivity]. }
    change (write_uniform_words u (w :: ws) s)
      with (write_uniform_words u ws (WriteUniformFloatReg u w s)).
    rewrite Hstep.
    specialize (IH (stage_uniform_word u w s)).
    rewrite Hc1, Hr1 in IH.
    destruct IH as (Hc' & Hr' & Hv' & Hg' & Hl'); [lia | lia |].
    cbn zeta. rewrite Hc', Hr', Hv', Hg', Hl'. cbn [length].
    repeat split; try assumption. lia.
Qed.

(** The write that completes a vector started at counter 0 flushes. *)
Lemma vector_reaches_threshold (u : ShaderUnit) (ws : list Z) (w : Z) (s : State) :
  float_regs_counter u s = 0 ->
  Z.of_nat (length (ws ++ [w])) = words_per_vector u (regs s) ->
  let s1 := write_uniform_words u ws s in
  flush_threshold_reached u (stage_uniform_word u w s1) = true
  /\ regs s1 = regs s /\ vs s1 = vs s /\ gs s1 = gs s /\ log s1 = log s.
Proof.
  intros Hc Hlen s1. rewrite length_app in Hlen. cbn [length] in Hlen.
  destruct (write_uniform_words_staging u ws s) as (Hc1 & Hr1 & Hv1 & Hg1 & Hl1);
    [lia | lia |].
  fold s1 in Hc1, Hr1, Hv1, Hg1, Hl1.
  split; [| repeat split; assumption].
  rewrite flush_threshold_after_stage, Hr1, Hc1, Hc.
  unfold words_per_vector in Hlen.
  destruct (uniform_setup_IsFloat32 u (regs s)); cbn [negb];
    rewrite ?andb_true_r, ?andb_false_r, ?orb_false_r, ?orb_false_l;
    apply Z.leb_le; lia.
Qed.

(** One whole vector written from counter 0 to a valid index. *)
Lemma vector_accepted (u : ShaderUnit) (ws : list Z) (s : State) :
  Z.of_nat (length (regs s)) = NUM_REGS ->
  float_regs_counter u s = 0 ->
  Z.of_nat (length ws) = words_per_vector u (regs s) ->
  0 <= uniform_setup_index u (regs s) < 96 ->
  let s' := write_uniform_words u ws s in
  float_regs_counter u s' = 0
  /\ length (regs s') = length (regs s)
  /\ uniform_setup_index u (regs s') = uniform_setup_index u (regs s) + 1
  /\ words_per_vector u (regs s') = words_per_vector u (regs s)
  /\ log s' = log s ++ [LogTrace_SetFloatUniform u (uniform_setup_index u (regs s))].
Proof.
  intros Hregs Hc Hlen Hidx.
  destruct ws as [| w0 ws0] using rev_ind.
  { unfold words_per_vector in Hlen. cbn in Hlen.
    destruct (uniform_setup_IsFloat32 u (regs s)); lia. }
  clear IHws0. intros s'. subst s'.
  destruct (vector_reaches_threshold u ws0 w0 s Hc Hlen) as (Hreach & Hr & Hv & Hg & Hl).
  rewrite write_uniform_words_app.
  change (write_uniform_words u [w0] (write_uniform_words u ws0 s))
    with (WriteUniformFloatReg u w0 (write_uniform_words u ws0 s)).
  destruct (WriteUniformFloatReg_flush u w0 (write_uniform_words u ws0 s) Hreach)
    as (_ & Hc' & _ & Hr' & Hl'); [rewrite Hr; lia |].
  rewrite Hr in Hr', Hl'. rewrite Hl in Hl'.
  split; [exact Hc' |]. rewrite Hr'.
  split; [apply index_Assign_length |].
  split; [apply index_Assign_index; [exact Hregs | lia] |].
  split; [| exact Hl'].
  unfold words_per_vector. rewrite index_Assign_IsFloat32 by exact Hregs. reflexivity.
Qed.

(** One whole vector written from counter 0 to an index of 96 or more. *)
Lemma vector_rejected (u : ShaderUnit) (ws : list Z) (s : State) :
  float_regs_counter u s = 0 ->
  Z.of_nat (length ws) = words_per_vector u (regs s) ->
  96 <= uniform_setup_index u (regs s) ->
  let s' := write_uniform_words u ws s in
  float_regs_counter u s' = 0
  /\ regs s' = regs s /\ vs s' = vs s /\ gs s' = gs s
  /\ log s' = log s ++ [LogError_InvalidFloatUniformIndex u (uniform_setup_index u (regs s))].
Proof.
  intros Hc Hlen Hidx.
  destruct ws as [| w0 ws0] using rev_ind.
  { unfold words_per_vector in Hlen. cbn in Hlen.
    destruct (uniform_setup_IsFloat32 u (regs s)); lia. }
  clear IHws0. intros s'. subst s'.
  destruct (vector_reaches_threshold u ws0 w0 s Hc Hlen) as (Hreach & Hr & Hv & Hg & Hl).
  rewrite write_uniform_words_app.
  change (write_uniform_words u [w0] (write_uniform_words u ws0 s))
    with (WriteUniformFloatReg u w0 (write_uniform_words u ws0 s)).
  unfold WriteUniformFloatReg. rewrite Hreach.
  destruct (stage_uniform_word_spec u w0 (write_uniform_words u ws0 s))
    as (_ & _ & Hr1 & Hv1 & Hg1 & Hl1).
  rewrite flush_uniform_rejected by (rewrite Hr1, Hr; exact Hidx).
  rewrite Hr1, Hr.
  destruct (stage_uniform_word u w0 (write_uniform_words u ws0 s))
    as [r v g c1 b1 c2 b2 cl tr dbg lg].
  cbn in Hr1, Hv1, Hg1, Hl1.
  destruct u; cbn; repeat split; congruence.
Qed.

(** [n] vectors written in a row from counter 0 while the index stays in
    range: the index moves up by one per vector. *)
Lemma vectors_accepted (u : ShaderUnit) (n : nat) :
  forall (ws : list Z) (s : State),
  Z.of_nat (length (regs s)) = NUM_REGS ->
  float_regs_counter u s = 0 ->
  Z.of_nat (length ws) = Z.of_nat n * words_per_vector u (regs s) ->
  0 <= uniform_setup_index u (regs s) ->
  uniform_setup_index u (regs s) + Z.of_nat n <= 96 ->
  let s' := write_uniform_words u ws s in
  float_regs_counter u s' = 0
  /\ uniform_setup_index u (regs s') = uniform_setup_index u (regs s) + Z.of_nat n
  /\ words_per_vector u (regs s') = words_per_vector u (regs s)
  /\ log s' = log s ++ map (LogTrace_SetFloatUniform u)
                         (seqZ (uniform_setup_index u (regs s)) (Z.of_nat n)).
Proof.
  induction n as [| n IH]; intros ws s Hregs Hc Hlen Hlo Hhi.
  - destruct ws; [| cbn in Hlen; lia].
    cbn. rewrite app_nil_r. repeat split; lia.
  - assert (Hw : 3 <= words_per_vector u (regs s) <= 4)
      by (unfold words_per_vector; destruct (uniform_setup_IsFloat32 u (regs s)); lia).
    set (t := Z.to_nat (words_per_vector u (regs s))).
    rewrite <- (take_drop t ws), write_uniform_words_app.
    destruct (vector_accepted u (take t ws) s Hregs Hc) as (Hc1 & Hn1 & Hi1 & Hw1 & Hl1).
    { rewrite length_take. subst t. lia. }
    { lia. }
    specialize (IH (drop t ws) (write_uniform_words u (take t ws) s)
                  ltac:(rewrite Hn1; exact Hregs) Hc1).
    rewrite Hw1, Hi1, Hl1 in IH.
    destruct IH as (Hc2 & Hi2 & Hw2 & Hl2).
    { rewrite length_drop. subst t. lia. }
    { lia. }
    { lia. }
    cbn zeta. rewrite Hc2, Hi2, Hw2, Hl2.
    repeat split; try lia.
    rewrite <- app_assoc. f_equal.
    rewrite (seqZ_cons (uniform_setup_index u (regs s)) (Z.of_nat (S n))) by lia.
    cbn [map app]. do 3 f_equal; lia.
Qed.

(** C6.  A flush to a destination index below 96 moves the index up by
    exactly one.  A flush attempted with the index at 96 or more is
    rejected: the error is logged, no uniform slot and no register changes,
    and the index stays where it was.  In particular, after 96 vectors
    written from index 0 the index is 96 (one flush logged per index
    0..95), and the 97th vector is rejected with the index still 96. *)
Theorem uniform_index_advances (u : ShaderUnit) (s : State) (ws last : list Z) :
  Z.of_nat (length (regs s)) = NUM_REGS ->
  float_regs_counter u s = 0 ->
  uniform_setup_index u (regs s) = 0 ->
  Z.of_nat (length ws) = 96 * words_per_vector u (regs s) ->
  Z.of_nat (length last) = words_per_vector u (regs s) ->
  let s96 := write_uniform_words u ws s in
  let s97 := write_uniform_words u last s96 in
  (forall value s0,
     Z.of_nat (length (regs s0)) = NUM_REGS ->
     flush_threshold_reached u (stage_uniform_word u value s0) = true ->
     0 <= uniform_setup_index u (regs s0) < 96 ->
     uniform_setup_index u (regs (WriteUniformFloatReg u value s0))
     = uniform_setup_index u (regs s0) + 1)
  /\ (forall value s0,
        flush_threshold_reached u (stage_uniform_word u value s0) = true ->
        96 <= uniform_setup_index u (regs s0) ->
        let s1 := WriteUniformFloatReg u value s0 in
        uniform_setup_index u (regs s1) = uniform_setup_index u (regs s0)
        /\ vs s1 = vs s0 /\ gs s1 = gs s0
        /\ log s1 = log s0 ++ [LogError_InvalidFloatUniformIndex u
                                 (uniform_setup_index u (regs s0))])
  /\ uniform_setup_index u (regs s96) = 96
  /\ log s96 = log s ++ map (LogTrace_SetFloatUniform u) (seqZ 0 96)
  /\ uniform_setup_index u (regs s97) = 96
  /\ uniforms_f (setup u s97) = uniforms_f (setup u s96)
  /\ log s97 = log s96 ++ [LogError_InvalidFloatUniformIndex u 96].
Proof.
  intros Hregs Hc Hi Hlen Hlast s96 s97.
  split; [| split].
  - intros value s0 Hregs0 Hreach Hidx.
    destruct (WriteUniformFloatReg_flush u value s0 Hreach) as (_ & _ & _ & Hr & _); [lia |].
    rewrite Hr. apply index_Assign_index; [exact Hregs0 | lia].
  - intros value s0 Hreach Hidx.
    destruct (WriteUniformFloatReg_rejected u value s0 Hreach Hidx)
      as (Hc' & Hr & Hv & Hg & Hl).
    cbn zeta. rewrite Hr. repeat split; assumption.
  - destruct (vectors_accepted u 96 ws s Hregs Hc) as (Hc96 & Hi96 & Hw96 & Hl96);
      [lia | lia | lia |].
    fold s96 in Hc96, Hi96, Hw96, Hl96. rewrite Hi in Hi96, Hl96.
    destruct (vector_rejected u last s96 Hc96) as (_ & Hr97 & Hv97 & Hg97 & Hl97);
      [lia | lia |].
    fold s97 in Hr97, Hv97, Hg97, Hl97.
    rewrite Hi96 in Hl97.
    split; [exact Hi96 |]. split; [exact Hl96 |].
    rewrite Hr97. split; [exact Hi96 |]. split; [| exact Hl97].
    destruct u; cbn [setup]; congruence.
Qed.

(** ** Program and swizzle words *)

(** The exclusive-configuration flag lives in a pipeline register, apart
    from the two vertex-unit offset registers. *)
Hypothesis exclusive_flag_apart_program : forall r v,
  gs_unit_exclusive_configuration (array_set r (reg_program_offset VS) v)
  = gs_unit_exclusive_configuration r.
Hypothesis exclusive_flag_apart_swizzle : forall r v,
  gs_unit_exclusive_configuration (array_set r (reg_swizzle_offset VS) v)
  = gs_unit_exclusive_configuration r.

Lemma vs_program_set_word_spec (value : Z) (s : State) :
  let offset := word_at (regs s) (reg_program_offset VS) in
  offset < 512 ->
  let s' := vs_program_set_word value s in
  program_code (vs s') = array_set (program_code (vs s)) offset value
  /\ gs s' = (if gs_unit_exclusive_configuration (regs s) =? 0
              then write_program_code offset value (gs s) else gs s)
  /\ swizzle_data (vs s') = swizzle_data (vs s)
  /\ regs s' = array_set (regs s) (reg_program_offset VS) (wrap32 (offset + 1))
  /\ log s' = log s.
Proof.
  intros offset Hlt s'. subst s'. unfold vs_program_set_word. fold offset.
  destruct (Z.leb_spec 512 offset) as [Hge | _]; [lia |].
  destruct s as [r v g c1 b1 c2 b2 cl tr dbg lg]. cbn in *.
  destruct (gs_unit_exclusive_configuration r =? 0); cbn; repeat split; reflexivity.
Qed.

Lemma vs_program_set_word_rejected (value : Z) (s : State) :
  let offset := word_at (regs s) (reg_program_offset VS) in
  512 <= offset ->
  vs_program_set_word value s = log_event (LogError_InvalidProgramOffset VS offset) s.
Proof.
  intros offset Hge. unfold vs_program_set_word. fold offset.
  destruct (Z.leb_spec 512 offset) as [_ | Hlt]; [reflexivity | lia].
Qed.

Lemma vs_swizzle_set_word_spec (value : Z) (s : State) :
  let offset := word_at (regs s) (reg_swizzle_offset VS) in
  offset < Z.of_nat (length (swizzle_data (vs s))) ->
  let s' := vs_swizzle_set_word value s in
  swizzle_data (vs s') = array_set (swizzle_data (vs s)) offset value
  /\ gs s' = (if gs_unit_exclusive_configuration (regs s) =? 0
              then write_swizzle_data offset value (gs s) else gs s)
  /\ program_code (vs s') = program_code (vs s)
  /\ regs s' = array_set (regs s) (reg_swizzle_offset VS) (wrap32 (offset + 1))
  /\ log s' = log s.
Proof.
  intros offset Hlt s'. subst s'. unfold vs_swizzle_set_word. fold offset.
  destruct (Z.leb_spec (Z.of_nat (length (swizzle_data (vs s)))) offset) as [Hge | _]; [lia |].
  destruct s as [r v g c1 b1 c2 b2 cl tr dbg lg]. cbn in *.
  destruct (gs_unit_exclusive_configuration r =? 0); cbn; repeat split; reflexivity.
Qed.

Lemma vs_swizzle_set_word_rejected (value : Z) (s : State) :
  let offset := word_at (regs s) (reg_swizzle_offset VS) in
  Z.of_nat (length (swizzle_data (vs s))) <= offset ->
  vs_swizzle_set_word value s = log_event (LogError_InvalidSwizzleOffset VS offset) s.
Proof.
  intros offset Hge. unfold vs_swizzle_set_word. fold offset.
  destruct (Z.leb_spec (Z.of_nat (length (swizzle_data (vs s)))) offset) as [_ | Hlt];
    [reflexivity | lia].
Qed.

Lemma word_at_array_set_both (a b : list Z) (i x o : Z) :
  0 <= i < Z.of_nat (length a) -> i < Z.of_nat (length b) ->
  (o <> i -> word_at a o = word_at b o) ->
  word_at (array_set a i x) o = word_at (array_set b i x) o.
Proof.
  intros Ha Hb Hrest. unfold word_at, array_set in *.
  destruct (decide (Z.to_nat i = Z.to_nat o)) as [E | E].
  - rewrite <- E, !list_lookup_insert_eq by lia. reflexivity.
  - rewrite !list_lookup_insert_ne by exact E. apply Hrest. intros ->. apply E. reflexivity.
Qed.

Lemma program_mirrored_step (written : Z -> Prop) (o value : Z) (s : State) :
  0 <= reg_program_offset VS < NUM_REGS ->
  0 <= o ->
  program_mirrored written s ->
  program_mirrored (fun o' => written o' \/ (o' = o /\ o < 512))
    (vs_program_set_word value
       (with_regs (array_set (regs s) (reg_program_offset VS) o) s)).
Proof.
  intros Hreg Ho (Hlen & Hflag & Hvs & Hgs & Hagree).
  set (s0 := with_regs (array_set (regs s) (reg_program_offset VS) o) s).
  assert (Hr0 : regs s0 = array_set (regs s) (reg_program_offset VS) o)
    by (destruct s; reflexivity).
  assert (Hv0 : vs s0 = vs s) by (destruct s; reflexivity).
  assert (Hg0 : gs s0 = gs s) by (destruct s; reflexivity).
  assert (Hoff : word_at (regs s0) (reg_program_offset VS) = o).
  { rewrite Hr0. apply word_at_array_set_eq. lia. }
  assert (Hflag0 : gs_unit_exclusive_configuration (regs s0) = 0).
  { rewrite Hr0, exclusive_flag_apart_program. exact Hflag. }
  destruct (Z.lt_ge_cases o 512) as [Hlt | Hge].
  - destruct (vs_program_set_word_spec value s0) as (Hp & Hg & _ & Hr & _).
    { rewrite Hoff. exact Hlt. }
    rewrite Hoff, Hflag0, Hv0, Hg0 in *. cbn in Hg.
    unfold program_mirrored. rewrite Hp, Hg, Hr, Hr0. cbn [program_code write_program_code].
    rewrite !length_array_set, !exclusive_flag_apart_program.
    repeat split; try assumption.
    intros o' Ho'. apply word_at_array_set_both; [lia | lia |].
    intros Hne. destruct Ho' as [Hw | [-> _]]; [apply Hagree; exact Hw | contradiction].
  - rewrite vs_program_set_word_rejected by (rewrite Hoff; exact Hge).
    unfold program_mirrored.
    replace (regs (log_event _ s0)) with (regs s0) by (destruct s0; reflexivity).
    replace (vs (log_event _ s0)) with (vs s) by (destruct s; reflexivity).
    replace (gs (log_event _ s0)) with (gs s) by (destruct s; reflexivity).
    rewrite Hr0, length_array_set, exclusive_flag_apart_program.
    repeat split; try assumption.
    intros o' [Hw | [-> Hlt]]; [apply Hagree; exact Hw | lia].
Qed.

Lemma vs_program_upload_mirrored (writes : list (Z * Z)) :
  forall (written : Z -> Prop) (s : State),
  0 <= reg_program_offset VS < NUM_REGS ->
  Forall (fun w => 0 <= fst w) writes ->
  program_mirrored written s ->
  program_mirrored
    (fun o => written o \/ (o < 512 /\ exists value, (o, value) ∈ writes))
    (vs_program_upload writes s).
Proof.
  induction writes as [| [o value] writes IH]; intros written s Hreg Hpos Hinv.
  - cbn. destruct Hinv as (H1 & H2 & H3 & H4 & H5).
    repeat split; try assumption.
    intros o [Hw | (_ & v & Hin)]; [apply H5; exact Hw |].
    apply elem_of_nil in Hin. contradiction.
  - apply Forall_cons in Hpos as [Ho Hpos]. cbn [fst] in Ho.
    change (vs_program_upload ((o, value) :: writes) s)
      with (vs_program_upload writes
              (vs_program_set_word value
                 (with_regs (array_set (regs s) (reg_program_offset VS) o) s))).
    pose proof (program_mirrored_step written o value s Hreg Ho Hinv) as Hstep.
    specialize (IH _ _ Hreg Hpos Hstep).
    destruct IH as (H1 & H2 & H3 & H4 & H5).
    repeat split; try assumption.
    intros o' [Hw | (Hlt & v & Hin)].
    + apply H5. left. left. exact Hw.
    + apply elem_of_cons in Hin as [Heq | Hin].
      * inversion Heq; subst. apply H5. left. right. split; [reflexivity | exact Hlt].
      * apply H5. right. split; [exact Hlt |]. exists v. exact Hin.
Qed.

Lemma swizzle_mirrored_step (size : Z) (written : Z -> Prop) (o value : Z) (s : State) :
  0 <= reg_swizzle_offset VS < NUM_REGS ->
  0 <= o ->
  swizzle_mirrored size written s ->
  swizzle_mirrored size (fun o' => written o' \/ (o' = o /\ o < size))
    (vs_swizzle_set_word value
       (with_regs (array_set (regs s) (reg_swizzle_offset VS) o) s)).
Proof.
  intros Hreg Ho (Hlen & Hflag & Hvs & Hgs & Hagree).
  set (s0 := with_regs (array_set (regs s) (reg_swizzle_offset VS) o) s).
  assert (Hr0 : regs s0 = array_set (regs s) (reg_swizzle_offset VS) o)
    by (destruct s; reflexivity).
  assert (Hv0 : vs s0 = vs s) by (destruct s; reflexivity).
  assert (Hg0 : gs s0 = gs s) by (destruct s; reflexivity).
  assert (Hoff : word_at (regs s0) (reg_swizzle_offset VS) = o).
  { rewrite Hr0. apply word_at_array_set_eq. lia. }
  assert (Hflag0 : gs_unit_exclusive_configuration (regs s0) = 0).
  { rewrite Hr0, exclusive_flag_apart_swizzle. exact Hflag. }
  destruct (Z.lt_ge_cases o size) as [Hlt | Hge].
  - destruct (vs_swizzle_set_word_spec value s0) as (Hp & Hg & _ & Hr & _).
    { rewrite Hoff, Hv0, Hvs. exact Hlt. }
    rewrite Hoff, Hflag0, Hv0, Hg0 in *. cbn in Hg.
    unfold swizzle_mirrored. rewrite Hp, Hg, Hr, Hr0. cbn [swizzle_data write_swizzle_data].
    rewrite !length_array_set, !exclusive_flag_apart_swizzle.
    repeat split; try assumption.
    intros o' Ho'. apply word_at_array_set_both; [lia | lia |].
    intros Hne. destruct Ho' as [Hw | [-> _]]; [apply Hagree; exact Hw | contradiction].
  - rewrite vs_swizzle_set_word_rejected by (rewrite Hoff, Hv0, Hvs; exact Hge).
    unfold swizzle_mirrored.
    replace (regs (log_event _ s0)) with (regs s0) by (destruct s0; reflexivity).
    replace (vs (log_event _ s0)) with (vs s) by (destruct s; reflexivity).
    replace (gs (log_event _ s0)) with (gs s) by (destruct s; reflexivity).
    rewrite Hr0, length_array_set, exclusive_flag_apart_swizzle.
    repeat split; try assumption.
    intros o' [Hw | [-> Hlt]]; [apply Hagree; exact Hw | lia].
Qed.

Lemma vs_swizzle_upload_mirrored (size : Z) (writes : list (Z * Z)) :
  forall (written : Z -> Prop) (s : State),
  0 <= reg_swizzle_offset VS < NUM_REGS ->
  Forall (fun w => 0 <= fst w) writes ->
  swizzle_mirrored size written s ->
  swizzle_mirrored size
    (fun o => written o \/ (o < size /\ exists value, (o, value) ∈ writes))
    (vs_swizzle_upload writes s).
Proof.
  induction writes as [| [o value] writes IH]; intros written s Hreg Hpos Hinv.
  - cbn. destruct Hinv as (H1 & H2 & H3 & H4 & H5).
    repeat split; try assumption.
    intros o [Hw | (_ & v & Hin)]; [apply H5; exact Hw |].
    apply elem_of_nil in Hin. contradiction.
  - apply Forall_cons in Hpos as [Ho Hpos]. cbn [fst] in Ho.
    change (vs_swizzle_upload ((o, value) :: writes) s)
      with (vs_swizzle_upload writes
              (vs_swizzle_set_word value
                 (with_regs (array_set (regs s) (reg_swizzle_offset VS) o) s))).
    pose proof (swizzle_mirrored_step size written o value s Hreg Ho Hinv) as Hstep.
    specialize (IH _ _ Hreg Hpos Hstep).
    destruct IH as (H1 & H2 & H3 & H4 & H5).
    repeat split; try assumption.
    intros o' [Hw | (Hlt & v & Hin)].
    + apply H5. left. left. exact Hw.
    + apply elem_of_cons in Hin as [Heq | Hin].
      * inversion Heq; subst. apply H5. left. right. split; [reflexivity | exact Hlt].
      * apply H5. right. split; [exact Hlt |]. exists v. exact Hin.
Qed.

(** C7.  While [gs_unit_exclusive_configuration] is clear, a vertex-shader
    program word written at an offset below 512, and a vertex-shader
    swizzle word written at an offset inside the swizzle table, is written
    with the same value at the same offset in the geometry unit; after any
    run of such writes every offset written in the vertex unit holds the
    same word in the geometry unit.  While the flag is set the geometry
    unit is left as it is and only the vertex unit is written. *)
Theorem vs_words_mirrored_to_gs (s : State) (value : Z)
    (program_writes swizzle_writes : list (Z * Z)) :
  Z.of_nat (length (regs s)) = NUM_REGS ->
  0 <= reg_program_offset VS < NUM_REGS ->
  0 <= reg_swizzle_offset VS < NUM_REGS ->
  512 <= Z.of_nat (length (program_code (vs s))) ->
  512 <= Z.of_nat (length (program_code (gs s))) ->
  length (swizzle_data (gs s)) = length (swizzle_data (vs s)) ->
  Forall (fun w => 0 <= fst w) program_writes ->
  Forall (fun w => 0 <= fst w) swizzle_writes ->
  let exclusive := negb (gs_unit_exclusive_configuration (regs s) =? 0) in
  let p := word_at (regs s) (reg_program_offset VS) in
  let z := word_at (regs s) (reg_swizzle_offset VS) in
  let sp := vs_program_set_word value s in
  let sz := vs_swizzle_set_word value s in
  (0 <= p < 512 ->
     word_at (program_code (vs sp)) p = value
     /\ (if exclusive then gs sp = gs s
         else word_at (program_code (gs sp)) p = value
              /\ forall o, 0 <= o -> o <> p ->
                   word_at (program_code (gs sp)) o = word_at (program_code (gs s)) o))
  /\ (0 <= z < Z.of_nat (length (swizzle_data (vs s))) ->
        word_at (swizzle_data (vs sz)) z = value
        /\ (if exclusive then gs sz = gs s
            else word_at (swizzle_data (gs sz)) z = value
                 /\ forall o, 0 <= o -> o <> z ->
                      word_at (swizzle_data (gs sz)) o = word_at (swizzle_data (gs s)) o))
  /\ (exclusive = false ->
        (forall o v, (o, v) ∈ program_writes -> o < 512 ->
           word_at (program_code (vs (vs_program_upload program_writes s))) o
           = word_at (program_code (gs (vs_program_upload program_writes s))) o)
        /\ (forall o v, (o, v) ∈ swizzle_writes ->
              o < Z.of_nat (length (swizzle_data (vs s))) ->
              word_at (swizzle_data (vs (vs_swizzle_upload swizzle_writes s))) o
              = word_at (swizzle_data (gs (vs_swizzle_upload swizzle_writes s))) o)).
Proof.
  intros Hlen Hrp Hrz Hvp Hgp Hsw Hpw Hzw exclusive p z sp sz.
  split; [| split].
  - intros Hp.
    destruct (vs_program_set_word_spec value s) as (Hv & Hg & _); [fold p; lia |].
    fold p sp in Hv, Hg. rewrite Hv.
    split; [apply word_at_array_set_eq; lia |].
    subst exclusive. destruct (gs_unit_exclusive_configuration (regs s) =? 0); cbn [negb].
    + rewrite Hg. cbn [program_code write_program_code].
      split; [apply word_at_array_set_eq; lia |].
      intros o Ho Hne. apply word_at_array_set_ne; lia.
    + exact Hg.
  - intros Hz.
    destruct (vs_swizzle_set_word_spec value s) as (Hv & Hg & _); [fold z; lia |].
    fold z sz in Hv, Hg. rewrite Hv.
    split; [apply word_at_array_set_eq; lia |].
    subst exclusive. destruct (gs_unit_exclusive_configuration (regs s) =? 0); cbn [negb].
    + rewrite Hg. cbn [swizzle_data write_swizzle_data].
      split; [apply word_at_array_set_eq; lia |].
      intros o Ho Hne. apply word_at_array_set_ne; lia.
    + exact Hg.
  - intros Hclear. subst exclusive.
    apply negb_false_iff, Z.eqb_eq in Hclear.
    split.
    + intros o v Hin Hlt.
      destruct (vs_program_upload_mirrored program_writes (fun _ => False) s Hrp Hpw)
        as (_ & _ & _ & _ & Hagree).
      { repeat split; try assumption. intros ? []. }
      apply Hagree. right. split; [exact Hlt |]. exists v. exact Hin.
    + intros o v Hin Hlt.
      destruct (vs_swizzle_upload_mirrored (Z.of_nat (length (swizzle_data (vs s))))
                  swizzle_writes (fun _ => False) s Hrz Hzw)
        as (_ & _ & _ & _ & Hagree).
      { repeat split; try assumption; try lia; intros ? []. }
      apply Hagree. right. split; [exact Hlt |]. exists v. exact Hin.
Qed.

(** ** The observers of a register write *)

Lemma log_register_write (s : State) (id value mask : Z) :
  log (register_write id value mask s)
  = log s
    ++ (if is_pica_tracing s
        then [OnPicaRegWrite (id mod 2 ^ 16) (mask mod 2 ^ 16)
                (word_at (masked_write id value mask (regs s)) id)]
        else [])
    ++ (if has_debug_context s then [OnEvent PicaCommandLoaded id] else []).
Proof.
  destruct s as [r v g c1 b1 c2 b2 cl tracing dbg lg].
  unfold register_write. cbn.
  destruct tracing, dbg; cbn; rewrite <- ?app_assoc, ?app_nil_r; reflexivity.
Qed.

Lemma log_register_processed (s : State) (id : Z) :
  log (register_processed id s)
  = log s ++ [NotifyPicaRegisterChanged id]
    ++ (if has_debug_context s then [OnEvent PicaCommandProcessed id] else []).
Proof.
  destruct s as [r v g c1 b1 c2 b2 cl tracing dbg lg].
  unfold register_processed. cbn.
  destruct dbg; cbn; rewrite <- ?app_assoc, ?app_nil_r; reflexivity.
Qed.

(** C5 (as the code has it).  A write whose id is not below [NUM_REGS]
    logs the error and returns at once: the state is otherwise untouched
    and neither observer is called.  A write with a valid id stores the
    masked word, then tells the trace observer, when tracing is on,
    [(id, mask, stored word)] and the debug observer, when there is one,
    [PicaCommandLoaded]; after the side effects of the register it
    notifies the rasterizer and tells the debug observer
    [PicaCommandProcessed]. *)
Theorem WritePicaReg_observers (id value mask : Z) (s : State) :
  Z.of_nat (length (regs s)) = NUM_REGS ->
  NUM_REGS <= 2 ^ 16 ->
  0 <= id ->
  0 <= mask < 16 ->
  (NUM_REGS <= id ->
     WritePicaReg id value mask s = log_event (LogError_InvalidRegister id value mask) s)
  /\ (id < NUM_REGS ->
        let s1 := register_write id value mask s in
        let s2 := side_effects id value s1 in
        let stored :=
          Z.lor (Z.land (word_at (regs s) id) (u32_not (expand_bits_to_bytes mask)))
                (Z.land value (expand_bits_to_bytes mask)) in
        word_at (regs s1) id = stored
        /\ log s1 = log s
                    ++ (if is_pica_tracing s then [OnPicaRegWrite id mask stored] else [])
                    ++ (if has_debug_context s then [OnEvent PicaCommandLoaded id] else [])
        /\ log (WritePicaReg id value mask s)
           = log s2 ++ [NotifyPicaRegisterChanged id]
             ++ (if has_debug_context s2 then [OnEvent PicaCommandProcessed id] else [])).
Proof.
  intros Hlen Hnum Hid Hmask. split.
  - intros Hbad. unfold WritePicaReg.
    destruct (Z.leb_spec NUM_REGS id) as [_ | Hlt]; [reflexivity | lia].
  - intros Hok s1 s2 stored.
    assert (Hstored : word_at (masked_write id value mask (regs s)) id = stored).
    { unfold masked_write. apply word_at_array_set_eq. lia. }
    split; [| split].
    + subst s1. rewrite regs_register_write. exact Hstored.
    + subst s1. rewrite log_register_write, Hstored.
      rewrite !Z.mod_small by lia. reflexivity.
    + unfold WritePicaReg.
      destruct (Z.leb_spec NUM_REGS id) as [Hge | _]; [lia |].
      fold s1. fold s2. apply log_register_processed.
Qed.

(** ** The draw trigger: fast path and worker count *)

(** C4 (as the code has it).  A draw takes the accelerated path exactly
    when hardware shaders are enabled, the primitive assembler holds no
    pending vertex, the geometry shader is off, the vertex count is a
    multiple of 3 if the topology is List or Shader (Strip and Fan carry no
    such condition), and the rasterizer accepts the batch for the given
    [is_indexed] flag. *)
Theorem fast_path_conditions (c : DrawConfig) (indexed : bool) :
  takes_fast_path c indexed = true <->
  hw_shader_enabled c = true
  /\ assembler_is_empty c = true
  /\ pipeline_use_gs c = UseGS_No
  /\ (assembler_topology c = TopologyList \/ assembler_topology c = TopologyShader ->
      num_vertices c mod 3 = 0)
  /\ AccelerateDrawBatch indexed = true.
Proof.
  unfold takes_fast_path, accelerate_draw.
  destruct c as [hw empty gsmode topology n]. cbn.
  split.
  - intros H. apply andb_true_iff in H as [Hacc Hrast].
    destruct gsmode; try discriminate.
    destruct topology.
    + apply andb_true_iff in Hacc as [Hacc Hmod].
      apply andb_true_iff in Hacc as [-> ->]. apply Z.eqb_eq in Hmod.
      repeat split; auto.
    + apply andb_true_iff in Hacc as [-> ->].
      repeat split; auto. intros [|]; discriminate.
    + apply andb_true_iff in Hacc as [-> ->].
      repeat split; auto. intros [|]; discriminate.
    + apply andb_true_iff in Hacc as [Hacc Hmod].
      apply andb_true_iff in Hacc as [-> ->]. apply Z.eqb_eq in Hmod.
      repeat split; auto.
  - intros (-> & -> & -> & Hmod & ->). cbn.
    destruct topology; cbn; try reflexivity;
      rewrite Hmod by auto; reflexivity.
Qed.

Lemma length_push_jobs (remaining : nat) (thread_id threads : Z) :
  length (push_jobs remaining thread_id threads) = remaining.
Proof.
  revert thread_id. induction remaining as [| k IH]; intros thread_id; cbn.
  - reflexivity.
  - rewrite IH. reflexivity.
Qed.

Lemma push_jobs_lookup (remaining : nat) (thread_id threads : Z) (k : nat) :
  (k < remaining)%nat ->
  push_jobs remaining thread_id threads !! k = Some (thread_id + Z.of_nat k, threads).
Proof.
  revert thread_id k. induction remaining as [| n IH]; intros thread_id k Hk; [lia |].
  destruct k as [| k]; cbn.
  - do 2 f_equal. lia.
  - rewrite IH by lia. do 2 f_equal. lia.
Qed.

(** C3 (as the code has it).  A draw that goes through the software
    pipeline starts [min(num_vertices / min_vertices_per_thread,
    hardware_concurrency - 1)] worker units, numbered from 0, each given
    that count as its stride.  With 30 vertices, 10 vertices per thread and
    a hardware concurrency of 5 that is min(3, 4) = 3 workers; with a
    hardware concurrency of 1 no worker is started and the vertex loop runs
    inline. *)
Theorem worker_count (n_vertices min_per_thread concurrency : Z) :
  0 <= n_vertices < 2 ^ 32 ->
  0 < min_per_thread < 2 ^ 32 ->
  1 <= concurrency < 2 ^ 32 ->
  let threads := vs_threads n_vertices min_per_thread concurrency in
  threads = Z.min (n_vertices / min_per_thread) (concurrency - 1)
  /\ spawned_workers (dispatch_vs_units threads) = threads
  /\ (forall jobs k, dispatch_vs_units threads = Spawned jobs -> 0 <= k < threads ->
        jobs !! Z.to_nat k = Some (k, threads))
  /\ spawned_workers (dispatch_vs_units (vs_threads 30 10 5)) = 3
  /\ (concurrency = 1 -> dispatch_vs_units threads = RunInline).
Proof.
  intros Hn Hm Hc threads.
  assert (Ht : threads = Z.min (n_vertices / min_per_thread) (concurrency - 1)).
  { subst threads. unfold vs_threads, wrap32, u32_modulus.
    rewrite !Z.mod_small by lia. reflexivity. }
  assert (Hpos : 0 <= threads).
  { rewrite Ht. apply Z.min_glb; [apply Z.div_pos; lia | lia]. }
  split; [exact Ht |]. split; [| split; [| split]].
  - unfold dispatch_vs_units. destruct (Z.eqb_spec threads 0) as [-> | Hne]; cbn.
    + reflexivity.
    + rewrite length_push_jobs. lia.
  - intros jobs k Hjobs Hk. unfold dispatch_vs_units in Hjobs.
    destruct (Z.eqb_spec threads 0) as [E | Hne]; [discriminate |].
    inversion Hjobs; subst jobs.
    rewrite push_jobs_lookup by lia. do 2 f_equal. lia.
  - reflexivity.
  - intros ->. rewrite Ht. replace (1 - 1) with 0 by lia.
    rewrite Z.min_r by (apply Z.div_pos; lia). reflexivity.
Qed.

(** ** The vertex cache in an inline draw *)

Lemma cache_at_array_set_eq (cache : list Cached) (slot : Z) (entry : Cached) :
  0 <= slot < Z.of_nat (length cache) -> cache_at (array_set cache slot entry) slot = entry.
Proof.
  intros Hs. unfold cache_at, array_set.
  rewrite list_lookup_insert_eq by lia. reflexivity.
Qed.

Lemma cache_at_array_set_ne (cache : list Cached) (slot v : Z) (entry : Cached) :
  0 <= slot -> 0 <= v -> v <> slot ->
  cache_at (array_set cache slot entry) v = cache_at cache v.
Proof.
  intros Hs Hv Hne. unfold cache_at, array_set.
  rewrite list_lookup_insert_ne by lia. reflexivity.
Qed.

Lemma shader_runs_app (v : Z) (l1 l2 : DrawLog) :
  shader_runs v (l1 ++ l2) = (shader_runs v l1 + shader_runs v l2)%nat.
Proof.
  induction l1 as [| e l1 IH]; cbn.
  - reflexivity.
  - rewrite IH. lia.
Qed.

(** The loop over one more index is the loop followed by one more pass. *)
Lemma VSUnitLoop_from_snoc (src : IndexSource) (gs_used : bool) (b : Z) (k : nat) :
  forall (m : Z) (st : VertexPhase),
  VSUnitLoop_from (S k) src gs_used b m st
  = VSUnitLoop_body src gs_used b (m + Z.of_nat k) (VSUnitLoop_from k src gs_used b m st).
Proof.
  induction k as [| k IH]; intros m st.
  - cbn [VSUnitLoop_from]. rewrite Z.add_0_r. reflexivity.
  - change (VSUnitLoop_from (S (S k)) src gs_used b m st)
      with (VSUnitLoop_from (S k) src gs_used b (m + 1) (VSUnitLoop_body src gs_used b m st)).
    rewrite IH. cbn [VSUnitLoop_from]. f_equal. lia.
Qed.

Lemma VSUnitLoop_next (src : IndexSource) (gs_used : bool) (b m : Z) (cache : list Cached) :
  0 <= m ->
  VSUnitLoop src gs_used b (m + 1) cache
  = VSUnitLoop_body src gs_used b m (VSUnitLoop src gs_used b m cache).
Proof.
  intros Hm. unfold VSUnitLoop.
  replace (Z.to_nat (m + 1)) with (S (Z.to_nat m)) by lia.
  rewrite VSUnitLoop_from_snoc. f_equal. lia.
Qed.

(** One more pass of the loop body keeps the invariant. *)
Lemma VSUnitLoop_body_inv (src : IndexSource) (gs_used : bool) (b : Z)
    (cache : list Cached) (m : Z) :
  is_indexed src = true ->
  0 <= m ->
  0 <= VertexIndex src m < Z.of_nat (length cache) ->
  vertex_loop_inv src gs_used b cache m (VSUnitLoop src gs_used b m cache) ->
  vertex_loop_inv src gs_used b cache (m + 1) (VSUnitLoop src gs_used b (m + 1) cache).
Proof.
  intros Hindexed Hm Hslot Hinv. rewrite VSUnitLoop_next by exact Hm.
  remember (VSUnitLoop src gs_used b m cache) as st eqn:Est.
  destruct Hinv as (Hlen & Htag & Hruns & Hout & Hheld).
  unfold VSUnitLoop_body. rewrite Hindexed. cbn [andb].
  set (vm := VertexIndex src m) in *.
  destruct (Z.eqb_spec (batch (cache_at (vs_output st) vm)) b) as [Hdone | Hnew].
  - (* the vertex was shaded earlier in this batch *)
    split; [exact Hlen |]. split; [| split; [exact Hruns | split; [| exact Hheld]]].
    + intros v Hv. rewrite (Htag v Hv). split.
      * intros (i & Hi & E). exists i. split; [lia | exact E].
      * intros (i & Hi & E). destruct (Z.eq_dec i m) as [-> | Hne].
        -- apply (Htag v Hv). fold vm in E. rewrite <- E. exact Hdone.
        -- exists i. split; [lia | exact E].
    + intros v Hv Hb. destruct (Hout v Hv Hb) as (j & Hj & Rest).
      exists j. split; [lia | exact Rest].
  - (* first occurrence: the shader runs and the entry is tagged *)
    destruct (run_vertex_shader (shader_unit st) m vm
                (cached_output (cache_at (vs_output st) vm))) as [unit' attr] eqn:Erun.
    unfold vertex_loop_inv. cbv beta iota zeta. cbn [vs_output draw_log shader_unit].
    set (entry := mkCachedVertex (stored_output gs_used attr) b
                    (lock (cache_at (vs_output st) vm))).
    assert (Hat_same : cache_at (array_set (vs_output st) vm entry) vm = entry)
      by (apply cache_at_array_set_eq; lia).
    assert (Hat_other : forall v, 0 <= v -> v <> vm ->
              cache_at (array_set (vs_output st) vm entry) v = cache_at (vs_output st) v)
      by (intros v Hv Hne; apply cache_at_array_set_ne; lia).
    split; [rewrite length_array_set; exact Hlen |]. split; [| split; [| split]].
    + intros v Hv. destruct (Z.eq_dec v vm) as [-> | Hne].
      * rewrite Hat_same. cbn [batch entry]. split; [| reflexivity].
        intros _. exists m. split; [lia | reflexivity].
      * rewrite (Hat_other v Hv Hne), (Htag v Hv). split.
        -- intros (i & Hi & E). exists i. split; [lia | exact E].
        -- intros (i & Hi & E). exists i. split; [| exact E].
           assert (i <> m) by (intros ->; apply Hne; symmetry; exact E). lia.
    + intros v Hv. rewrite shader_runs_app. cbn [shader_runs is_run_of].
      destruct (Z.eq_dec v vm) as [-> | Hne].
      * rewrite Hat_same. cbn [batch entry]. rewrite !Z.eqb_refl.
        rewrite (Hruns vm ltac:(lia)).
        destruct (Z.eqb_spec (batch (cache_at (vs_output st) vm)) b); [contradiction | reflexivity].
      * rewrite (Hat_other v Hv Hne), (Hruns v Hv).
        destruct (Z.eqb_spec vm v); [congruence |]. lia.
    + intros v Hv Hb. destruct (Z.eq_dec v vm) as [-> | Hne].
      * exists m. split; [lia |]. split; [reflexivity |]. split.
        -- intros j' Hj' E. apply Hnew. apply (Htag vm ltac:(lia)).
           exists j'. split; [lia | exact E].
        -- rewrite Hat_same. cbn [cached_output entry].
           rewrite <- Est, <- (Hheld vm ltac:(lia) Hnew), Erun. reflexivity.
      * rewrite (Hat_other v Hv Hne) in Hb |- *.
        destruct (Hout v Hv Hb) as (j & Hj & Rest).
        exists j. split; [lia | exact Rest].
    + intros v Hv Hb. destruct (Z.eq_dec v vm) as [-> | Hne].
      * rewrite Hat_same in Hb. cbn [batch entry] in Hb. destruct (Hb eq_refl).
      * rewrite (Hat_other v Hv Hne) in Hb |- *. apply Hheld; assumption.
Qed.

Lemma cache_at_tag (P : Z -> Prop) (cache : list Cached) (v : Z) :
  P 0 -> Forall (fun entry => P (batch entry)) cache -> P (batch (cache_at cache v)).
Proof.
  intros H0 Hall. unfold cache_at.
  destruct (cache !! Z.to_nat v) as [entry |] eqn:E; cbn.
  - rewrite Forall_forall in Hall. apply Hall. eapply list_elem_of_lookup_2. exact E.
  - exact H0.
Qed.

(** After the batch id advances no entry carries it. *)
Lemma advance_batch_fresh (batch_id : Z) (cache : list Cached) :
  tags_bounded batch_id cache ->
  let r := advance_batch batch_id cache in
  1 <= fst r < 2 ^ 32
  /\ length (snd r) = length cache
  /\ Forall (fun entry => 0 <= batch entry < fst r) (snd r).
Proof.
  intros [Hid Htags]. unfold advance_batch, wrap32, u32_modulus.
  destruct (Z.eq_dec batch_id (2 ^ 32 - 1)) as [-> | Hne].
  - change ((2 ^ 32 - 1 + 1) mod 2 ^ 32) with 0.
    change (0 =? 0) with true. change ((0 + 1) mod 2 ^ 32) with 1.
    cbn [fst snd]. split; [lia |]. split; [apply length_map |].
    apply Forall_map. apply Forall_true. intros entry. cbn. lia.
  - rewrite (Z.mod_small (batch_id + 1)) by lia.
    destruct (Z.eqb_spec (batch_id + 1) 0) as [E | _]; [lia |].
    cbn. split; [lia |]. split; [reflexivity |].
    eapply Forall_impl; [exact Htags |]. cbn. intros entry He. lia.
Qed.

(** Advancing the batch id leaves what the entries hold. *)
Lemma advance_batch_outputs (batch_id : Z) (cache : list Cached) (i : Z) :
  cached_output (cache_at (snd (advance_batch batch_id cache)) i)
  = cached_output (cache_at cache i)
  /\ length (snd (advance_batch batch_id cache)) = length cache.
Proof.
  unfold advance_batch. destruct (wrap32 (batch_id + 1) =? 0); cbn [snd].
  - split; [| apply length_map]. unfold cache_at. rewrite list_lookup_fmap.
    destruct (cache !! Z.to_nat i); reflexivity.
  - split; reflexivity.
Qed.

Lemma vertex_loop_inv_start (src : IndexSource) (gs_used : bool) (b : Z)
    (cache : list Cached) :
  1 <= b ->
  Forall (fun entry => 0 <= batch entry < b) cache ->
  vertex_loop_inv src gs_used b cache 0 (VSUnitLoop src gs_used b 0 cache).
Proof.
  intros Hb Hfresh.
  assert (Hlt : forall v, batch (cache_at cache v) <> b).
  { intros v.
    pose proof (cache_at_tag (fun t => 0 <= t < b) cache v ltac:(cbn; lia) Hfresh) as Ht.
    cbn in Ht. lia. }
  change (VSUnitLoop src gs_used b 0 cache) with (mkVertexPhase cache new_shader_unit []).
  unfold vertex_loop_inv. cbn [vs_output draw_log].
  split; [reflexivity |]. split; [| split; [| split]].
  - intros v Hv. split.
    + intros E. destruct (Hlt v E).
    + intros (i & Hi & _). lia.
  - intros v Hv. cbn.
    destruct (Z.eqb_spec (batch (cache_at cache v)) b) as [E | _]; [destruct (Hlt v E) | reflexivity].
  - intros v Hv E. destruct (Hlt v E).
  - intros v Hv _. reflexivity.
Qed.

(** The invariant holds after any number of passes. *)
Lemma VSUnitLoop_inv (src : IndexSource) (gs_used : bool) (b : Z) (cache : list Cached)
    (k : nat) :
  is_indexed src = true ->
  1 <= b ->
  Forall (fun entry => 0 <= batch entry < b) cache ->
  (forall i, 0 <= i < Z.of_nat k -> 0 <= VertexIndex src i < Z.of_nat (length cache)) ->
  vertex_loop_inv src gs_used b cache (Z.of_nat k) (VSUnitLoop src gs_used b (Z.of_nat k) cache).
Proof.
  intros Hindexed Hb Hfresh. induction k as [| k IH]; intros Hrange.
  - apply vertex_loop_inv_start; assumption.
  - replace (Z.of_nat (S k)) with (Z.of_nat k + 1) by lia.
    apply VSUnitLoop_body_inv; [exact Hindexed | lia | apply Hrange; lia |].
    apply IH. intros i Hi. apply Hrange. lia.
Qed.

Lemma VSUnitLoop_from_tags (src : IndexSource) (gs_used : bool) (b : Z) (remaining : nat) :
  forall (m : Z) (st : VertexPhase),
  0 <= b ->
  Forall (fun entry => 0 <= batch entry <= b) (vs_output st) ->
  Forall (fun entry => 0 <= batch entry <= b)
    (vs_output (VSUnitLoop_from remaining src gs_used b m st)).
Proof.
  induction remaining as [| k IH]; intros m st Hb Htags; [exact Htags |].
  cbn [VSUnitLoop_from]. apply IH; [exact Hb |].
  unfold VSUnitLoop_body.
  set (slot := if is_indexed src then VertexIndex src m else m).
  destruct (is_indexed src && (batch (cache_at (vs_output st) slot) =? b)); [exact Htags |].
  destruct (run_vertex_shader _ _ _ _) as [unit' attr].
  cbn [vs_output]. unfold array_set. apply Forall_insert; [exact Htags |].
  cbn [batch].
  pose proof (cache_at_tag (fun t => 0 <= t <= b) (vs_output st) slot ltac:(cbn; lia) Htags) as Hc.
  cbn in Hc. destruct (is_indexed src); lia.
Qed.

Lemma VSUnitLoop_from_length (src : IndexSource) (gs_used : bool) (b : Z) (remaining : nat) :
  forall (m : Z) (st : VertexPhase),
  length (vs_output (VSUnitLoop_from remaining src gs_used b m st)) = length (vs_output st).
Proof.
  induction remaining as [| k IH]; intros m st; [reflexivity |].
  cbn [VSUnitLoop_from]. rewrite IH. unfold VSUnitLoop_body.
  destruct (is_indexed src && _); [reflexivity |].
  destruct (run_vertex_shader _ _ _ _). cbn [vs_output]. apply length_array_set.
Qed.

(** ** The consumption loop *)

Lemma submit_from_snoc (src : IndexSource) (gs_used : bool) (cache : list Cached) (k : nat) :
  forall (m : Z) (st : GeometryPipeline * DrawLog),
  submit_from (S k) src gs_used cache m st
  = submit_body src gs_used cache (m + Z.of_nat k) (submit_from k src gs_used cache m st).
Proof.
  induction k as [| k IH]; intros m st.
  - cbn [submit_from]. rewrite Z.add_0_r. reflexivity.
  - change (submit_from (S (S k)) src gs_used cache m st)
      with (submit_from (S k) src gs_used cache (m + 1) (submit_body src gs_used cache m st)).
    rewrite IH. cbn [submit_from]. f_equal. lia.
Qed.

(** What the loop hands on, pass by pass: the pipeline is asked as the
    passes before have left it. *)
Lemma submit_from_log (src : IndexSource) (gs_used : bool) (cache : list Cached)
    (geometry_pipeline : GeometryPipeline) (k : nat) :
  snd (submit_from k src gs_used cache 0 (geometry_pipeline, []))
  = map (fun i =>
           let vertex := VertexIndex src i in
           let held := cached_output (cache_at cache (if is_indexed src then vertex else i)) in
           if gs_used && is_indexed src
              && NeedIndexInput (fst (submit_from (Z.to_nat i) src gs_used cache 0
                                        (geometry_pipeline, [])))
           then GeometrySubmitIndex vertex
           else if gs_used then GeometrySubmitVertex held
           else AssemblerSubmitVertex held)
        (seqZ 0 (Z.of_nat k)).
Proof.
  induction k as [| k IH]; [reflexivity |].
  rewrite submit_from_snoc, seqZ_S, map_app, <- IH, !Z.add_0_l. cbn [map].
  rewrite Nat2Z.id.
  destruct (submit_from k src gs_used cache 0 (geometry_pipeline, [])) as [gp lg].
  unfold submit_body. cbn [fst snd].
  destruct (gs_used && is_indexed src && NeedIndexInput gp); [reflexivity |].
  destruct gs_used; reflexivity.
Qed.

(** C8 (as the code has it).  An indexed draw that runs the vertex loop
    inline (no worker): the vertex shader runs exactly once for every
    vertex number that the index array holds, however often it holds it,
    and not at all for a number it does not hold.  The entry of such a
    vertex holds what that one run produced: the attribute buffer written
    by the shader, run at the first loop index where the vertex occurs
    (with a geometry shader), or the output vertex made from that buffer
    (without).  The consumption loop goes through the loop indices in
    order.  With a geometry shader, a pass in which the geometry pipeline
    asks for index input hands the vertex number to the pipeline and reads
    no entry; every other pass hands on what the entry of its vertex
    holds, so that such passes with the same vertex number hand on the
    same result of the same run.  The draw starts from a cache whose tags
    do not exceed the batch id, as they do at start-up (tags 0, batch id
    0xFFFFFFFF), and leaves it so for the next draw. *)
Theorem indexed_draw_shades_each_vertex_once (moved : bool) (src : IndexSource)
    (c : DrawConfig) (batch_id : Z) (cache : list Cached)
    (geometry_pipeline : GeometryPipeline) :
  is_indexed src = true ->
  tags_bounded batch_id cache ->
  0 <= num_vertices c ->
  (forall i, 0 <= i < num_vertices c ->
     0 <= VertexIndex src i < Z.of_nat (length cache)) ->
  let n := num_vertices c in
  let b := fst (advance_batch batch_id cache) in
  let loop := fun m => VSUnitLoop src (use_gs c) b m (snd (advance_batch batch_id cache)) in
  let result := fun first v =>
    snd (run_vertex_shader (shader_unit (loop first)) first v
           (cached_output (cache_at cache v))) in
  let pipeline := fun i =>
    fst (submit_from (Z.to_nat i) src (use_gs c) (vs_output (loop n)) 0
           (Setup (Reconfigure geometry_pipeline), [])) in
  let consumed :=
    snd (submit_from (Z.to_nat n) src (use_gs c) (vs_output (loop n)) 0
           (Setup (Reconfigure geometry_pipeline), [])) in
  draw_single_threaded moved src c batch_id cache geometry_pipeline
  = Some (b, loop n, pipeline n, consumed)
  /\ (forall i, 0 <= i < n -> shader_runs (VertexIndex src i) (draw_log (loop n)) = 1%nat)
  /\ (forall v, 0 <= v -> (forall i, 0 <= i < n -> VertexIndex src i <> v) ->
        shader_runs v (draw_log (loop n)) = 0%nat)
  /\ length consumed = Z.to_nat n
  /\ (forall i, 0 <= i < n ->
        exists first,
          0 <= first <= i
          /\ VertexIndex src first = VertexIndex src i
          /\ (forall j, 0 <= j < first -> VertexIndex src j <> VertexIndex src i)
          /\ cached_output (cache_at (vs_output (loop n)) (VertexIndex src i))
             = (if use_gs c then OutputAttr (result first (VertexIndex src i))
                else OutputVertexOf (FromAttributeBuffer (result first (VertexIndex src i))))
          /\ consumed !! Z.to_nat i
             = Some (if use_gs c && NeedIndexInput (pipeline i)
                     then GeometrySubmitIndex (VertexIndex src i)
                     else if use_gs c
                          then GeometrySubmitVertex
                                 (OutputAttr (result first (VertexIndex src i)))
                          else AssemblerSubmitVertex
                                 (OutputVertexOf
                                    (FromAttributeBuffer (result first (VertexIndex src i))))))
  /\ (forall i j, 0 <= i < n -> 0 <= j < n -> VertexIndex src i = VertexIndex src j ->
        use_gs c && NeedIndexInput (pipeline i) = false ->
        use_gs c && NeedIndexInput (pipeline j) = false ->
        consumed !! Z.to_nat i = consumed !! Z.to_nat j)
  /\ tags_bounded b (vs_output (loop n)).
Proof.
  intros Hindexed Hbounded Hn Hrange n b loop result pipeline consumed.
  pose proof (advance_batch_fresh batch_id cache Hbounded) as (Hb & Hlen & Hfresh).
  fold b in Hb, Hfresh.
  set (start := snd (advance_batch batch_id cache)) in *.
  assert (Hheld0 : forall v, cached_output (cache_at start v) = cached_output (cache_at cache v))
    by (intros v; apply advance_batch_outputs).
  assert (Hinv : vertex_loop_inv src (use_gs c) b start n (loop n)).
  { subst loop. cbv beta. rewrite <- (Z2Nat.id n) by exact Hn.
    apply VSUnitLoop_inv; [exact Hindexed | lia | exact Hfresh |].
    intros i Hi. rewrite Hlen. apply Hrange. lia. }
  destruct Hinv as (Hsize & Htag & Hruns & Hout & _).
  assert (Hlog : consumed
     = map (fun i =>
              if use_gs c && NeedIndexInput (pipeline i)
              then GeometrySubmitIndex (VertexIndex src i)
              else if use_gs c
                   then GeometrySubmitVertex
                          (cached_output (cache_at (vs_output (loop n)) (VertexIndex src i)))
                   else AssemblerSubmitVertex
                          (cached_output (cache_at (vs_output (loop n)) (VertexIndex src i))))
           (seqZ 0 n)).
  { subst consumed. rewrite submit_from_log, Z2Nat.id by exact Hn.
    apply map_ext. intros i. cbv zeta. rewrite Hindexed, andb_true_r. reflexivity. }
  assert (Hat : forall i, 0 <= i < n ->
            consumed !! Z.to_nat i
            = Some (if use_gs c && NeedIndexInput (pipeline i)
                    then GeometrySubmitIndex (VertexIndex src i)
                    else if use_gs c
                         then GeometrySubmitVertex
                                (cached_output (cache_at (vs_output (loop n)) (VertexIndex src i)))
                         else AssemblerSubmitVertex
                                (cached_output (cache_at (vs_output (loop n)) (VertexIndex src i))))).
  { intros i Hi. rewrite Hlog, list_lookup_fmap, lookup_seqZ_lt by lia.
    cbn [fmap option_fmap option_map]. rewrite Z.add_0_l, Z2Nat.id by lia. reflexivity. }
  assert (Htagged : forall i, 0 <= i < n ->
            batch (cache_at (vs_output (loop n)) (VertexIndex src i)) = b).
  { intros i Hi. apply Htag; [apply Hrange; exact Hi |].
    exists i. split; [exact Hi | reflexivity]. }
  split; [| split; [| split; [| split; [| split; [| split]]]]].
  - unfold draw_single_threaded, resize_cache. rewrite Hindexed. cbn [negb andb].
    rewrite andb_false_r.
    fold b. destruct (advance_batch batch_id cache) as [b' start'] eqn:Eadv.
    cbn [fst snd] in b, start. subst b start.
    subst consumed pipeline loop n. cbv beta.
    destruct (submit_from _ _ _ _ _ _) as [gp lg]. reflexivity.
  - intros i Hi.
    rewrite (Hruns _ (proj1 (Hrange i Hi))), (Htagged i Hi), Z.eqb_refl. reflexivity.
  - intros v Hv Hnone. rewrite (Hruns v Hv).
    destruct (Z.eqb_spec (batch (cache_at (vs_output (loop n)) v)) b) as [E | _];
      [| reflexivity].
    apply (Htag v Hv) in E as (i & Hi & Ei). destruct (Hnone i Hi Ei).
  - rewrite Hlog, length_map, length_seqZ. reflexivity.
  - intros i Hi.
    destruct (Hout _ (proj1 (Hrange i Hi)) (Htagged i Hi))
      as (first & Hfirst & Efirst & Hmin & Hres).
    assert (Hres' : cached_output (cache_at (vs_output (loop n)) (VertexIndex src i))
                    = (if use_gs c then OutputAttr (result first (VertexIndex src i))
                       else OutputVertexOf
                              (FromAttributeBuffer (result first (VertexIndex src i))))).
    { rewrite Hres. unfold stored_output. subst result. cbv beta.
      rewrite Hheld0. reflexivity. }
    exists first. split; [| split; [exact Efirst | split; [exact Hmin | split]]].
    + split; [lia |].
      destruct (Z.le_gt_cases first i) as [Hle | Hgt]; [exact Hle |].
      destruct (Hmin i ltac:(lia) eq_refl).
    + exact Hres'.
    + rewrite (Hat i Hi), Hres'. destruct (use_gs c); reflexivity.
  - intros i j Hi Hj E Hpi Hpj. rewrite (Hat i Hi), (Hat j Hj), Hpi, Hpj, E. reflexivity.
  - split; [lia |]. subst loop. cbv beta. unfold VSUnitLoop.
    apply VSUnitLoop_from_tags; [lia |]. cbn [vs_output].
    eapply Forall_impl; [exact Hfresh |]. cbn. intros entry He. lia.
Qed.

(** ** The command list *)

(** Only the trigger case of the switch touches the list cursor. *)
Hypothesis other_cases_cmd_list : forall id value s,
  cmd_list (other_cases id value s) = cmd_list s.

Lemma cmd_list_WriteUniformFloatReg (u : ShaderUnit) (value : Z) (s : State) :
  cmd_list (WriteUniformFloatReg u value s) = cmd_list s.
Proof.
  unfold WriteUniformFloatReg, flush_uniform.
  destruct s, u; cbn; case_conditions; reflexivity.
Qed.

Lemma cmd_list_set_word (value : Z) (s : State) :
  cmd_list (gs_program_set_word value s) = cmd_list s
  /\ cmd_list (gs_swizzle_set_word value s) = cmd_list s
  /\ cmd_list (vs_program_set_word value s) = cmd_list s
  /\ cmd_list (vs_swizzle_set_word value s) = cmd_list s.
Proof.
  unfold gs_program_set_word, gs_swizzle_set_word, vs_program_set_word, vs_swizzle_set_word.
  destruct s; cbn; repeat split; case_conditions; reflexivity.
Qed.

Lemma cmd_list_WritePicaReg (id value mask : Z) (s : State) :
  is_case id reg_trigger 2 = false ->
  cmd_list (WritePicaReg id value mask s) = cmd_list s.
Proof.
  intros Hid. unfold WritePicaReg.
  destruct (NUM_REGS <=? id); [destruct s; reflexivity |].
  assert (Hpost : forall t, cmd_list (register_processed id t) = cmd_list t).
  { intros t. unfold register_processed. destruct t; cbn. case_conditions; reflexivity. }
  assert (Hpre : cmd_list (register_write id value mask s) = cmd_list s).
  { unfold register_write. destruct s; cbn. case_conditions; reflexivity. }
  rewrite Hpost, <- Hpre. unfold side_effects. rewrite Hid.
  destruct (cmd_list_set_word value (register_write id value mask s)) as (E1 & E2 & E3 & E4).
  case_conditions;
    auto using cmd_list_WriteUniformFloatReg, other_cases_cmd_list.
Qed.

Lemma cmd_list_write_extra_data (header : Z) (remaining : nat) :
  forall (i : Z) (s : State),
  (forall k, i <= k < i + Z.of_nat remaining ->
     is_case (extra_target header k) reg_trigger 2 = false) ->
  cmd_list (write_extra_data remaining i header s)
  = mkCmdList (head_ptr (cmd_list s)) (current_ptr (cmd_list s) + Z.of_nat remaining)
      (length_words (cmd_list s)).
Proof.
  induction remaining as [| k IH]; intros i s Hsafe.
  - cbn. destruct (cmd_list s); cbn. f_equal. lia.
  - cbn [write_extra_data]. unfold read_word.
    rewrite IH by (intros j Hj; apply Hsafe; lia).
    rewrite cmd_list_WritePicaReg by (apply (Hsafe i); lia).
    destruct s as [r v g c1 b1 c2 b2 [h c l] tr dbg lg]. cbn. f_equal. lia.
Qed.

(** The padding word skipped when the cursor is at an odd offset. *)
Lemma process_command_cursor (s : State) :
  let c := cmd_list s in
  let pad := if Z.rem (head_ptr c - current_ptr c) 2 =? 0 then 0 else 1 in
  let header := host_word (current_ptr c + pad + 1) in
  avoids_trigger header ->
  cmd_list (process_command s)
  = mkCmdList (head_ptr c)
      (current_ptr c + pad + 2 + Z.of_nat (Z.to_nat (header_extra_data_length header)))
      (length_words c).
Proof.
  intros c pad header Hsafe.
  unfold avoids_trigger, command_targets in Hsafe.
  apply Forall_cons in Hsafe as [Hfirst Hextra].
  rewrite Forall_forall in Hextra.
  unfold process_command. fold c.
  assert (Epad :
    cmd_list (if Z.rem (head_ptr c - current_ptr c) 2 =? 0 then s
              else with_cmd_list
                     (mkCmdList (head_ptr c) (current_ptr c + 1) (length_words c)) s)
    = mkCmdList (head_ptr c) (current_ptr c + pad) (length_words c)).
  { subst pad c. destruct (Z.rem _ 2 =? 0).
    - destruct (cmd_list s); cbn. f_equal. lia.
    - destruct s; reflexivity. }
  set (s0 := if Z.rem (head_ptr c - current_ptr c) 2 =? 0 then s else _) in *.
  unfold read_word. rewrite Epad. cbn [head_ptr current_ptr length_words cmd_list].
  replace (cmd_list (with_cmd_list _ s0))
    with (mkCmdList (head_ptr c) (current_ptr c + pad + 1) (length_words c))
    by (destruct s0; reflexivity).
  cbn [head_ptr current_ptr length_words]. fold header.
  rewrite cmd_list_write_extra_data.
  - rewrite cmd_list_WritePicaReg by exact Hfirst.
    replace (cmd_list (with_cmd_list _ _))
      with (mkCmdList (head_ptr c) (current_ptr c + pad + 1 + 1) (length_words c)).
    + cbn. f_equal. lia.
    + match goal with |- _ = cmd_list (with_cmd_list ?x ?y) => destruct y end. reflexivity.
  - intros k Hk. apply Hextra. apply list_elem_of_fmap. exists k. split; [reflexivity |].
    rewrite elem_of_seqZ. lia.
Qed.

(** One pass moves the cursor on to the next command, at least two words
    further, and leaves the head and the length alone, when its command
    avoids the trigger registers. *)
Lemma process_command_advances (s : State) :
  let c := cmd_list s in
  avoids_trigger (command_header (head_ptr c) (current_ptr c)) ->
  let c' := cmd_list (process_command s) in
  head_ptr c' = head_ptr c
  /\ length_words c' = length_words c
  /\ current_ptr c' = next_command (head_ptr c) (current_ptr c)
  /\ current_ptr c + 2 <= current_ptr c'.
Proof.
  intros c Hsafe c'. subst c'.
  assert (Hpad : 0 <= command_padding (head_ptr c) (current_ptr c) <= 1)
    by (unfold command_padding; destruct (_ =? 0); lia).
  rewrite process_command_cursor by exact Hsafe. fold c.
  unfold next_command, command_header in *.
  fold (command_padding (head_ptr c) (current_ptr c)).
  cbn [head_ptr current_ptr length_words].
  repeat split; lia.
Qed.

(** The walk of a list none of whose commands writes a trigger register
    ends, with the cursor on a command boundary at or past the end. *)
Lemma process_commands_terminates (fuel : nat) :
  forall s : State,
  let c := cmd_list s in
  list_avoids_trigger (head_ptr c) (length_words c) ->
  command_at (head_ptr c) (length_words c) (current_ptr c) ->
  head_ptr c + length_words c - current_ptr c <= 2 * Z.of_nat fuel ->
  exists s', process_commands fuel s = Some s'
             /\ head_ptr (cmd_list s') = head_ptr c
             /\ length_words (cmd_list s') = length_words c
             /\ head_ptr c + length_words c <= current_ptr (cmd_list s')
             /\ command_at (head_ptr c) (length_words c) (current_ptr (cmd_list s')).
Proof.
  induction fuel as [| k IH]; intros s c Hsafe Hat Hfuel; subst c.
  - exists s. cbn. unfold list_pending.
    destruct (Z.ltb_spec (current_ptr (cmd_list s))
                (head_ptr (cmd_list s) + length_words (cmd_list s))); [lia |].
    repeat split; (reflexivity || lia || exact Hat).
  - cbn [process_commands]. unfold list_pending.
    destruct (Z.ltb_spec (current_ptr (cmd_list s))
                (head_ptr (cmd_list s) + length_words (cmd_list s))) as [Hlt | Hge].
    + destruct (process_command_advances s (Hsafe _ Hat Hlt)) as (Hh & Hl & Hnext & Hc).
      destruct (IH (process_command s)) as (s' & Hrun & Hh' & Hl' & Hc' & Hat').
      * rewrite Hh, Hl. exact Hsafe.
      * rewrite Hh, Hl, Hnext. apply command_at_next; assumption.
      * rewrite Hh, Hl. lia.
      * exists s'. rewrite Hh, Hl in *. repeat split; assumption.
    + exists s. repeat split; (reflexivity || lia || exact Hat).
Qed.

(** C9 (as the code has it).  As long as no command of the list writes a
    command-buffer trigger register (that write re-points head, cursor and
    length), every pass of the loop reads one value word and one header
    word, after one padding word when the cursor is at an odd offset from
    the head, and then the header's extra data words, so the cursor moves
    on by at least two words while head and length stay put; the loop
    ends, within half the declared length in passes, as soon as the cursor
    is at or past head + length, whatever else the headers hold.  Only the
    words that the walk reads as headers matter: value words and extra
    data words may hold anything. *)
Theorem ProcessCommandList_terminates (list size : Z) (s : State) (fuel : nat) :
  list_avoids_trigger list (size / 4) ->
  size / 4 <= 2 * Z.of_nat fuel ->
  (forall s0,
     head_ptr (cmd_list s0) = list ->
     length_words (cmd_list s0) = size / 4 ->
     command_at list (size / 4) (current_ptr (cmd_list s0)) ->
     current_ptr (cmd_list s0) < list + size / 4 ->
     head_ptr (cmd_list (process_command s0)) = list
     /\ length_words (cmd_list (process_command s0)) = size / 4
     /\ current_ptr (cmd_list (process_command s0))
        = next_command list (current_ptr (cmd_list s0))
     /\ current_ptr (cmd_list s0) + 2 <= current_ptr (cmd_list (process_command s0)))
  /\ exists s',
       ProcessCommandList fuel list size s = Some s'
       /\ head_ptr (cmd_list s') = list
       /\ length_words (cmd_list s') = size / 4
       /\ list + size / 4 <= current_ptr (cmd_list s')
       /\ command_at list (size / 4) (current_ptr (cmd_list s')).
Proof.
  intros Hsafe Hfuel. split.
  - intros s0 Hh Hl Hat Hc.
    destruct (process_command_advances s0) as (Hh' & Hl' & Hnext & Hc').
    + rewrite Hh. apply Hsafe; assumption.
    + rewrite Hh', Hl', Hnext, Hh, Hl. repeat split; try reflexivity.
      rewrite <- Hh, <- Hnext. exact Hc'.
  - unfold ProcessCommandList.
    set (s0 := with_cmd_list (mkCmdList list list (size / 4)) s).
    assert (E : cmd_list s0 = mkCmdList list list (size / 4)) by (destruct s; reflexivity).
    destruct (process_commands_terminates fuel s0) as (s' & Hrun & Hh & Hl & Hc & Hat);
      rewrite ?E; cbn [head_ptr current_ptr length_words];
      try lia; try exact Hsafe; try apply command_at_head.
    exists s'. rewrite E in Hh, Hl, Hc, Hat. cbn in Hh, Hl, Hc, Hat.
    repeat split; assumption.
Qed.

(** ** The mask and the float-uniform loader *)

Lemma staged_by_WriteUniformFloatReg (u : ShaderUnit) (value : Z) (s : State) :
  uniform_write_buffer u (WriteUniformFloatReg u value s)
  = array_set (uniform_write_buffer u s) (float_regs_counter u s) value.
Proof.
  unfold WriteUniformFloatReg, flush_threshold_reached, flush_uniform, stage_uniform_word.
  destruct s, u; cbn; case_conditions; reflexivity.
Qed.

Lemma staging_register_write (u : ShaderUnit) (id value mask : Z) (s : State) :
  uniform_write_buffer u (register_write id value mask s) = uniform_write_buffer u s
  /\ float_regs_counter u (register_write id value mask s) = float_regs_counter u s.
Proof.
  unfold register_write. destruct s, u; cbn; case_conditions; split; reflexivity.
Qed.

Lemma staging_register_processed (u : ShaderUnit) (id : Z) (s : State) :
  uniform_write_buffer u (register_processed id s) = uniform_write_buffer u s.
Proof.
  unfold register_processed. destruct s, u; cbn; case_conditions; reflexivity.
Qed.

(** X1.  The byte mask of a register write does not reach the
    float-uniform loader.  A write to one of the eight [set_value]
    registers of a unit stores the masked word in the register array, but
    what is staged in the unit's write buffer, at the position of the
    unit's counter, is the value word as the command gave it, whatever the
    mask (the TODO at line 121). *)
Theorem float_uniform_word_ignores_mask (u : ShaderUnit) (id value mask : Z) (s : State) :
  id < NUM_REGS ->
  is_case id reg_trigger 2 = false ->
  is_case id (reg_uniform_set_value u) 8 = true ->
  (u = VS ->
   is_case id (reg_uniform_set_value GS) 8 = false
   /\ is_case id (reg_program_set_word GS) 8 = false
   /\ is_case id (reg_swizzle_set_word GS) 8 = false) ->
  uniform_write_buffer u (WritePicaReg id value mask s)
  = array_set (uniform_write_buffer u s) (float_regs_counter u s) value
  /\ regs (register_write id value mask s) = masked_write id value mask (regs s).
Proof.
  intros Hid Htrigger Hcase Hearlier.
  split; [| apply regs_register_write].
  unfold WritePicaReg.
  destruct (Z.leb_spec NUM_REGS id) as [Hbad | _]; [lia |].
  rewrite staging_register_processed.
  destruct (staging_register_write u id value mask s) as [Ebuf Ecnt].
  rewrite <- Ebuf, <- Ecnt.
  unfold side_effects. rewrite Htrigger.
  destruct u.
  - destruct (Hearlier eq_refl) as (E1 & E2 & E3). rewrite E1, E2, E3, Hcase.
    apply staged_by_WriteUniformFloatReg.
  - rewrite Hcase. apply staged_by_WriteUniformFloatReg.
Qed.

(** ** Commands and the list cursor *)

Lemma write_extra_data_invalid (header : Z) (remaining : nat) :
  forall (i : Z) (s : State),
  (forall k, i <= k < i + Z.of_nat remaining -> NUM_REGS <= extra_target header k) ->
  write_extra_data remaining i header s
  = mkState (regs s) (vs s) (gs s) (vs_float_regs_counter s) (vs_uniform_write_buffer s)
      (gs_float_regs_counter s) (gs_uniform_write_buffer s)
      (mkCmdList (head_ptr (cmd_list s)) (current_ptr (cmd_list s) + Z.of_nat remaining)
         (length_words (cmd_list s)))
      (is_pica_tracing s) (has_debug_context s)
      (log s ++ map (fun k => LogError_InvalidRegister (extra_target header k)
                                (host_word (current_ptr (cmd_list s) + (k - i)))
                                (header_parameter_mask header))
                    (seqZ i (Z.of_nat remaining))).
Proof.
  induction remaining as [| n IH]; intros i s Hbad.
  - destruct s as [r v g c1 b1 c2 b2 [h c l] tr dbg lg]. cbn.
    rewrite app_nil_r, Z.add_0_r. reflexivity.
  - cbn [write_extra_data]. unfold read_word.
    fold (extra_target header i). unfold WritePicaReg.
    destruct (Z.leb_spec NUM_REGS (extra_target header i)) as [_ | Hok];
      [| specialize (Hbad i ltac:(lia)); lia].
    rewrite IH by (intros k Hk; apply Hbad; lia).
    destruct s as [r v g c1 b1 c2 b2 [h c l] tr dbg lg]. cbn.
    rewrite (seqZ_cons i (Z.of_nat (S n))) by lia. cbn [map].
    rewrite <- app_assoc. cbn [app].
    replace (Z.pred (Z.of_nat (S n))) with (Z.of_nat n) by lia.
    replace (c + (i - i)) with c by lia.
    f_equal; [f_equal; lia |]. do 2 f_equal.
    apply map_ext. intros k. do 2 f_equal. lia.
Qed.

(** X2.  A command whose register ids all lie outside the register file
    (the header's id, and the id of each extra data word) changes nothing
    of the GPU state: every one of its writes is logged as an error, in
    order and with the word it carried, and the cursor moves past the whole
    command (padding word, value, header and all extra data words), so the
    walk goes on with the next command. *)
Theorem invalid_command_is_skipped (s : State) :
  let c := cmd_list s in
  let pad := if Z.rem (head_ptr c - current_ptr c) 2 =? 0 then 0 else 1 in
  let value_at := current_ptr c + pad in
  let header := host_word (value_at + 1) in
  let n := Z.of_nat (Z.to_nat (header_extra_data_length header)) in
  Forall (fun id => NUM_REGS <= id) (command_targets header) ->
  process_command s
  = mkState (regs s) (vs s) (gs s) (vs_float_regs_counter s) (vs_uniform_write_buffer s)
      (gs_float_regs_counter s) (gs_uniform_write_buffer s)
      (mkCmdList (head_ptr c) (value_at + 2 + n) (length_words c))
      (is_pica_tracing s) (has_debug_context s)
      (log s
       ++ LogError_InvalidRegister (header_cmd_id header) (host_word value_at)
            (header_parameter_mask header)
       :: map (fun k => LogError_InvalidRegister (extra_target header k)
                          (host_word (value_at + 2 + k)) (header_parameter_mask header))
              (seqZ 0 n)).
Proof.
  intros c pad value_at header n Hbad.
  unfold command_targets in Hbad. apply Forall_cons in Hbad as [Hfirst Hextra].
  rewrite Forall_forall in Hextra.
  assert (Hk : forall k, 0 <= k < 0 + n -> NUM_REGS <= extra_target header k).
  { intros k Hk. apply Hextra. apply list_elem_of_fmap. exists k.
    split; [reflexivity |]. rewrite elem_of_seqZ. subst n. lia. }
  subst n value_at header pad c.
  destruct s as [r v g c1 b1 c2 b2 [h c l] tr dbg lg].
  unfold process_command, read_word in *.
  cbn [cmd_list head_ptr current_ptr length_words with_cmd_list regs vs gs
       vs_float_regs_counter vs_uniform_write_buffer gs_float_regs_counter
       gs_uniform_write_buffer is_pica_tracing has_debug_context log] in *.
  destruct (Z.rem (h - c) 2 =? 0);
    cbn [cmd_list head_ptr current_ptr length_words with_cmd_list regs vs gs
         vs_float_regs_counter vs_uniform_write_buffer gs_float_regs_counter
         gs_uniform_write_buffer is_pica_tracing has_debug_context log] in *;
    rewrite ?Z.add_0_r in *;
    (rewrite write_extra_data_invalid by exact Hk);
    unfold WritePicaReg;
    (match goal with
     | |- context [NUM_REGS <=? ?id] =>
         destruct (Z.leb_spec NUM_REGS id) as [_ | Hok]; [| lia]
     end);
    cbn; rewrite <- app_assoc; cbn [app];
    (f_equal; [f_equal; lia |]); do 2 f_equal;
    apply map_ext; intros k; do 2 f_equal; lia.
Qed.

Lemma rem_2_parity (x : Z) :
  Z.even (x + (if Z.rem (- x) 2 =? 0 then 0 else 1)) = true.
Proof.
  pose proof (Z.quot_rem' (- x) 2) as Hqr.
  pose proof (Z.rem_bound_abs (- x) 2 ltac:(lia)) as Hb.
  destruct (Z.eqb_spec (Z.rem (- x) 2) 0) as [E | E].
  - replace (x + 0) with (2 * (- (Z.quot (- x) 2))) by lia.
    rewrite Z.even_mul. reflexivity.
  - assert (Z.rem (- x) 2 = 1 \/ Z.rem (- x) 2 = -1) as [E1 | E1] by lia.
    + replace (x + 1) with (2 * (- (Z.quot (- x) 2))) by lia.
      rewrite Z.even_mul. reflexivity.
    + replace (x + 1) with (2 * (1 - Z.quot (- x) 2)) by lia.
      rewrite Z.even_mul. reflexivity.
Qed.

(** X3.  Every pass of the loop reads its command from an 8-byte aligned
    place: the value word is read at an even word offset from the head of
    the list and the header at the next word, whatever the cursor was
    (after an odd number of extra data words it is one short), and the
    write of the value and the writes of the extra data words are made with
    the cursor already past the header. *)
Theorem command_is_read_aligned (s : State) :
  let c := cmd_list s in
  let pad := if Z.rem (head_ptr c - current_ptr c) 2 =? 0 then 0 else 1 in
  let value_at := current_ptr c + pad in
  let header := host_word (value_at + 1) in
  Z.even (value_at - head_ptr c) = true
  /\ process_command s
     = write_extra_data (Z.to_nat (header_extra_data_length header)) 0 header
         (WritePicaReg (header_cmd_id header) (host_word value_at)
            (header_parameter_mask header)
            (with_cmd_list (mkCmdList (head_ptr c) (value_at + 2) (length_words c)) s)).
Proof.
  intros c pad value_at header. split.
  - subst value_at pad.
    pose proof (rem_2_parity (current_ptr c - head_ptr c)) as H.
    replace (- (current_ptr c - head_ptr c)) with (head_ptr c - current_ptr c) in H by lia.
    rewrite <- H. f_equal. lia.
  - subst header value_at pad c.
    destruct s as [r v g c1 b1 c2 b2 [h c l] tr dbg lg].
    unfold process_command, read_word.
    cbn [cmd_list head_ptr current_ptr length_words with_cmd_list].
    destruct (Z.rem (h - c) 2 =? 0); unfold with_cmd_list;
      cbn [cmd_list head_ptr current_ptr length_words regs vs gs
           vs_float_regs_counter vs_uniform_write_buffer gs_float_regs_counter
           gs_uniform_write_buffer is_pica_tracing has_debug_context log];
      rewrite ?Z.add_0_r.
    + replace (c + 1 + 1) with (c + 2) by lia. reflexivity.
    + replace (c + 1 + 1 + 1) with (c + 1 + 2) by lia. reflexivity.
Qed.

Lemma cmd_list_WritePicaReg_trigger (id value mask : Z) (s : State) :
  id < NUM_REGS ->
  is_case id reg_trigger 2 = true ->
  cmd_list (WritePicaReg id value mask s)
  = cmd_list (command_buffer_trigger id (with_regs (masked_write id value mask (regs s)) s)).
Proof.
  intros Hid Hcase. unfold WritePicaReg.
  destruct (Z.leb_spec NUM_REGS id) as [Hbad | _]; [lia |].
  unfold side_effects. rewrite Hcase.
  unfold register_processed, register_write, command_buffer_trigger.
  destruct s; cbn; case_conditions; reflexivity.
Qed.

(** X4.  A jump composes with the walk.  When the first command of a list
    writes a trigger register (and carries no extra data), the walk goes on
    in the buffer that the command buffer registers name after the masked
    store, with that buffer's length, and no further word of the first list
    is read; if no command of the second buffer writes a trigger register
    the walk ends there, with the cursor at or past the end of the second
    buffer. *)
Theorem trigger_continues_in_the_named_buffer (list size : Z) (s : State) (fuel : nat) :
  let header := host_word (list + 1) in
  let id := header_cmd_id header in
  let r := masked_write id (host_word list) (header_parameter_mask header) (regs s) in
  let target := GetPhysicalPointer (command_buffer_GetPhysicalAddress r (id - reg_trigger)) in
  let len := command_buffer_GetSize r (id - reg_trigger) / 4 in
  0 < size / 4 ->
  id < NUM_REGS ->
  is_case id reg_trigger 2 = true ->
  Z.to_nat (header_extra_data_length header) = 0%nat ->
  list_avoids_trigger target len ->
  len <= 2 * Z.of_nat fuel ->
  cmd_list (process_command (with_cmd_list (mkCmdList list list (size / 4)) s))
  = mkCmdList target target len
  /\ exists s',
       ProcessCommandList (S fuel) list size s = Some s'
       /\ head_ptr (cmd_list s') = target
       /\ length_words (cmd_list s') = len
       /\ target + len <= current_ptr (cmd_list s')
       /\ command_at target len (current_ptr (cmd_list s')).
Proof.
  intros header id r target len Hsize Hid Hcase Hextra Hsafe Hfuel.
  set (s0 := with_cmd_list (mkCmdList list list (size / 4)) s).
  assert (Ejump : cmd_list (process_command s0) = mkCmdList target target len).
  { subst s0. destruct s as [r0 v g c1 b1 c2 b2 cl tr dbg lg].
    unfold process_command, read_word.
    cbn [cmd_list head_ptr current_ptr length_words with_cmd_list].
    rewrite Z.sub_diag. change (Z.rem 0 2 =? 0) with true.
    cbn [cmd_list head_ptr current_ptr length_words with_cmd_list].
    fold header. rewrite Hextra. cbn [write_extra_data]. fold id.
    rewrite cmd_list_WritePicaReg_trigger by assumption.
    reflexivity. }
  split; [exact Ejump |].
  unfold ProcessCommandList. fold s0. cbn [process_commands].
  assert (Hpending : list_pending s0 = true).
  { subst s0. destruct s. unfold list_pending. cbn. apply Z.ltb_lt. lia. }
  rewrite Hpending.
  destruct (process_commands_terminates fuel (process_command s0))
    as (s' & Hrun & Hh & Hl & Hc & Hat);
    rewrite ?Ejump; cbn [head_ptr current_ptr length_words];
    try lia; try exact Hsafe; try apply command_at_head.
  exists s'. rewrite Ejump in Hh, Hl, Hc, Hat. cbn in Hh, Hl, Hc, Hat.
  repeat split; assumption.
Qed.

(** ** Draws that are not indexed *)

(** What the resize of lines 325-327 leaves in the cache. *)
Lemma resize_cache_spec (moved : bool) (src : IndexSource) (n : Z) (cache : list Cached) :
  let resized := resize_cache moved src n cache in
  Z.of_nat (length resized)
  = (if is_indexed src then Z.of_nat (length cache) else Z.max (Z.of_nat (length cache)) n)
  /\ (forall i, Z.of_nat (length cache) <= i -> cache_at resized i = empty_entry)
  /\ (forall i, 0 <= i < Z.of_nat (length cache) ->
        cache_at resized i
        = if negb (is_indexed src) && (Z.of_nat (length cache) <? n) && moved
          then empty_entry else cache_at cache i)
  /\ (forall b, 0 <= b ->
        Forall (fun entry => 0 <= batch entry <= b) cache ->
        Forall (fun entry => 0 <= batch entry <= b) resized).
Proof.
  intros resized. subst resized. unfold resize_cache.
  destruct (is_indexed src); cbn [negb andb].
  - split; [reflexivity |]. split; [| split; [reflexivity | auto]].
    intros i Hi. unfold cache_at. rewrite lookup_ge_None_2 by lia. reflexivity.
  - destruct (Z.ltb_spec (Z.of_nat (length cache)) n) as [Hgrow | Hfits].
    + set (kept := if moved then replicate (length cache) empty_entry else cache).
      assert (Hkept : length kept = length cache)
        by (subst kept; destruct moved; [apply length_replicate | reflexivity]).
      split; [| split; [| split]].
      * rewrite length_app, Hkept, length_replicate. lia.
      * intros i Hi. unfold cache_at.
        destruct (Z.ltb_spec i n) as [Hin | Hout].
        -- rewrite lookup_app_r by lia. rewrite lookup_replicate_2 by lia. reflexivity.
        -- rewrite lookup_ge_None_2; [reflexivity |].
           rewrite length_app, Hkept, length_replicate. lia.
      * intros i Hi. unfold cache_at. rewrite lookup_app_l by lia.
        subst kept. destruct moved; [| reflexivity].
        rewrite lookup_replicate_2 by lia. reflexivity.
      * intros b Hb Htags. apply Forall_app_2.
        -- subst kept. destruct moved; [| exact Htags].
           apply Forall_replicate. cbn. lia.
        -- apply Forall_replicate. cbn. lia.
    + split; [lia |]. split; [| split; [reflexivity | auto]].
      intros i Hi. unfold cache_at. rewrite lookup_ge_None_2 by lia. reflexivity.
Qed.

(** The inline loop of a draw without index array, pass by pass. *)
Lemma VSUnitLoop_plain (src : IndexSource) (gs_used : bool) (b : Z) (cache : list Cached)
    (k : nat) :
  is_indexed src = false ->
  Z.of_nat k <= Z.of_nat (length cache) ->
  let st := VSUnitLoop src gs_used b (Z.of_nat k) cache in
  length (vs_output st) = length cache
  /\ draw_log st
     = map (fun i => RunShader i (wrap32 (i + vertex_offset src))) (seqZ 0 (Z.of_nat k))
  /\ map batch (vs_output st) = map batch cache
  /\ (forall i, 0 <= i < Z.of_nat k ->
        cached_output (cache_at (vs_output st) i)
        = stored_output gs_used
            (snd (run_vertex_shader (shader_unit (VSUnitLoop src gs_used b i cache)) i
                    (wrap32 (i + vertex_offset src)) (cached_output (cache_at cache i)))))
  /\ (forall i, Z.of_nat k <= i -> cache_at (vs_output st) i = cache_at cache i).
Proof.
  intros Hplain. induction k as [| k IH]; intros Hfits st; subst st.
  - change (VSUnitLoop src gs_used b (Z.of_nat 0) cache)
      with (mkVertexPhase cache new_shader_unit []).
    cbn [vs_output draw_log]. repeat split; try reflexivity. intros i Hi. lia.
  - destruct (IH ltac:(lia)) as (Hlen & Hlog & Htags & Hnew & Hold).
    replace (Z.of_nat (S k)) with (Z.of_nat k + 1) by lia.
    rewrite VSUnitLoop_next by lia.
    remember (VSUnitLoop src gs_used b (Z.of_nat k) cache) as st eqn:Est.
    unfold VSUnitLoop_body, VertexIndex. rewrite Hplain. cbn [andb].
    destruct (run_vertex_shader (shader_unit st) (Z.of_nat k)
                (wrap32 (Z.of_nat k + vertex_offset src))
                (cached_output (cache_at (vs_output st) (Z.of_nat k))))
      as [unit' attr] eqn:Erun.
    cbn [vs_output draw_log].
    split; [rewrite length_array_set; exact Hlen |]. split; [| split; [| split]].
    + rewrite Hlog. replace (Z.of_nat k + 1) with (Z.of_nat (S k)) by lia.
      rewrite seqZ_S, map_app, Z.add_0_l. reflexivity.
    + rewrite <- Htags. unfold array_set.
      rewrite list_fmap_insert. cbn [batch]. apply list_insert_id.
      rewrite list_lookup_fmap. unfold cache_at.
      destruct (vs_output st !! Z.to_nat (Z.of_nat k)) as [entry |] eqn:E; [reflexivity |].
      apply lookup_ge_None in E. lia.
    + intros i Hi. destruct (Z.eq_dec i (Z.of_nat k)) as [-> | Hne].
      * rewrite cache_at_array_set_eq by lia. cbn [cached_output].
        rewrite <- Est, <- (Hold (Z.of_nat k) ltac:(lia)), Erun. reflexivity.
      * rewrite cache_at_array_set_ne by lia. apply Hnew. lia.
    + intros i Hi. rewrite cache_at_array_set_ne by lia. apply Hold. lia.
Qed.

(** X5.  A draw that is not indexed and runs the vertex loop inline does
    no caching.  The cache is first made as long as the draw has vertices
    (new entries are empty, and so are the old ones when the vector moved).
    The vertex shader then runs once for every loop index, in order, on
    vertex [index + vertex_offset] (wrapping at 32 bits), on the shader unit
    as the passes before left it; what it produced goes to the entry of the
    loop index: the attribute buffer (geometry shader in use) or the output
    vertex made from it.  The tag of no entry is written by the loop (only
    an indexed draw tags entries, lines 411-413), and the consumption loop
    hands on those results in the order of the loop indices.  When the
    geometry pipeline asks for index input the assertion of line 435 ends
    the program instead. *)
Theorem plain_draw_shades_every_index (moved : bool) (src : IndexSource) (c : DrawConfig)
    (batch_id : Z) (cache : list Cached) (geometry_pipeline : GeometryPipeline) :
  is_indexed src = false ->
  0 <= num_vertices c ->
  let n := num_vertices c in
  let resized := resize_cache moved src n cache in
  let b := fst (advance_batch batch_id resized) in
  let loop := fun m => VSUnitLoop src (use_gs c) b m (snd (advance_batch batch_id resized)) in
  let result := fun i =>
    snd (run_vertex_shader (shader_unit (loop i)) i (wrap32 (i + vertex_offset src))
           (cached_output (cache_at resized i))) in
  let output := fun i =>
    if use_gs c then OutputAttr (result i)
    else OutputVertexOf (FromAttributeBuffer (result i)) in
  let pipeline := Setup (Reconfigure geometry_pipeline) in
  let final := submit_from (Z.to_nat n) src (use_gs c) (vs_output (loop n)) 0 (pipeline, []) in
  draw_single_threaded moved src c batch_id cache geometry_pipeline
  = (if NeedIndexInput pipeline then None else Some (b, loop n, fst final, snd final))
  /\ Z.of_nat (length (vs_output (loop n))) = Z.max (Z.of_nat (length cache)) n
  /\ (forall i, Z.of_nat (length cache) <= i -> cache_at resized i = empty_entry)
  /\ (forall i, 0 <= i < Z.of_nat (length cache) ->
        cache_at resized i
        = if (Z.of_nat (length cache) <? n) && moved then empty_entry else cache_at cache i)
  /\ draw_log (loop n) = map (fun i => RunShader i (wrap32 (i + vertex_offset src))) (seqZ 0 n)
  /\ map batch (vs_output (loop n)) = map batch (snd (advance_batch batch_id resized))
  /\ (forall i, 0 <= i < n -> cached_output (cache_at (vs_output (loop n)) i) = output i)
  /\ (forall i, n <= i ->
        cached_output (cache_at (vs_output (loop n)) i) = cached_output (cache_at resized i))
  /\ snd final
     = map (fun i => if use_gs c then GeometrySubmitVertex (output i)
                     else AssemblerSubmitVertex (output i))
         (seqZ 0 n).
Proof.
  intros Hplain Hn n resized b loop result output pipeline final.
  destruct (resize_cache_spec moved src n cache) as (Hsize & Hempty & Hkept & _).
  fold resized in Hsize, Hempty, Hkept. rewrite Hplain in Hsize, Hkept. cbn [negb andb] in Hkept.
  set (start := snd (advance_batch batch_id resized)) in *.
  assert (Hadv : forall i, cached_output (cache_at start i) = cached_output (cache_at resized i))
    by (intros i; apply advance_batch_outputs).
  assert (Hlen : length start = length resized)
    by exact (proj2 (advance_batch_outputs batch_id resized 0)).
  destruct (VSUnitLoop_plain src (use_gs c) b start (Z.to_nat n) Hplain ltac:(lia))
    as (Hlen' & Hlog & Htags & Hnew & Hold).
  rewrite Z2Nat.id in Hlen', Hlog, Htags, Hnew, Hold by exact Hn.
  fold (loop n) in Hlen', Hlog, Htags, Hnew, Hold.
  assert (Hout : forall i, 0 <= i < n -> cached_output (cache_at (vs_output (loop n)) i) = output i).
  { intros i Hi. rewrite (Hnew i Hi). subst output result loop. cbv beta.
    unfold stored_output. rewrite Hadv. reflexivity. }
  split; [| split; [| split; [| split; [| split; [| split; [| split; [| split]]]]]]].
  - unfold draw_single_threaded. fold n resized. fold pipeline.
    rewrite Hplain. cbn [negb]. rewrite andb_true_r.
    fold b. destruct (advance_batch batch_id resized) as [b' start'] eqn:Eadv.
    cbn [fst snd] in b, start. subst b start.
    destruct (NeedIndexInput pipeline); [reflexivity |].
    subst final loop. cbv beta.
    destruct (submit_from _ _ _ _ _ _) as [gp lg]. reflexivity.
  - rewrite Hlen', Hlen. exact Hsize.
  - exact Hempty.
  - exact Hkept.
  - exact Hlog.
  - exact Htags.
  - exact Hout.
  - intros i Hi. rewrite Hold by lia. apply Hadv.
  - subst final. rewrite submit_from_log, Z2Nat.id by exact Hn.
    apply map_ext_in. intros i Hi. apply list_elem_of_In in Hi.
    apply elem_of_seqZ in Hi. cbv zeta.
    rewrite Hplain, andb_false_r. cbn [andb].
    rewrite (Hout i ltac:(lia)). reflexivity.
Qed.

(** X6.  Every inline draw, indexed or not, hands the cache on as it needs
    it: started with tags that do not exceed the batch id, it ends with
    tags that do not exceed the new batch id, the new batch id is the old
    one plus one except that 0xFFFFFFFF is followed by 1, and it is never
    0, the tag of an entry that was never shaded.  An indexed draw leaves
    the cache as long as it was; a draw without index array leaves it as
    long as the larger of its old length and the number of vertices.  This
    is the state in which the draw ends, unless the geometry pipeline asks
    for index input in a draw without index array: then the assertion of
    line 435 ends the program. *)
Theorem draw_keeps_tags_bounded (moved : bool) (src : IndexSource) (c : DrawConfig)
    (batch_id : Z) (cache : list Cached) (geometry_pipeline : GeometryPipeline) :
  tags_bounded batch_id cache ->
  let resized := resize_cache moved src (num_vertices c) cache in
  let b := fst (advance_batch batch_id resized) in
  let st := VSUnitLoop src (use_gs c) b (num_vertices c)
              (snd (advance_batch batch_id resized)) in
  let pipeline := Setup (Reconfigure geometry_pipeline) in
  let final := submit_from (Z.to_nat (num_vertices c)) src (use_gs c) (vs_output st) 0
                 (pipeline, []) in
  draw_single_threaded moved src c batch_id cache geometry_pipeline
  = (if NeedIndexInput pipeline && negb (is_indexed src) then None
     else Some (b, st, fst final, snd final))
  /\ tags_bounded b (vs_output st)
  /\ b = (if batch_id =? 2 ^ 32 - 1 then 1 else batch_id + 1)
  /\ b <> 0
  /\ Z.of_nat (length (vs_output st))
     = (if is_indexed src then Z.of_nat (length cache)
        else Z.max (Z.of_nat (length cache)) (num_vertices c)).
Proof.
  intros Hbounded resized b st pipeline final.
  destruct (resize_cache_spec moved src (num_vertices c) cache) as (Hsize & _ & _ & Htags0).
  fold resized in Hsize, Htags0.
  assert (Hbounded' : tags_bounded batch_id resized).
  { destruct Hbounded as [Hid Htags]. split; [exact Hid |]. apply Htags0; [lia | exact Htags]. }
  pose proof (advance_batch_fresh batch_id resized Hbounded') as (Hb & Hlen & Hfresh).
  fold b in Hb, Hfresh.
  assert (Eb : b = if batch_id =? 2 ^ 32 - 1 then 1 else batch_id + 1).
  { subst b. destruct Hbounded as [Hid _]. unfold advance_batch, wrap32, u32_modulus.
    destruct (Z.eqb_spec batch_id (2 ^ 32 - 1)) as [-> | Hne].
    - reflexivity.
    - rewrite (Z.mod_small (batch_id + 1)) by lia.
      destruct (Z.eqb_spec (batch_id + 1) 0); [lia | reflexivity]. }
  split; [| split; [| split; [exact Eb | split; [lia |]]]].
  - unfold draw_single_threaded. fold resized. fold pipeline.
    fold b. destruct (advance_batch batch_id resized) as [b' start'] eqn:Eadv.
    cbn [fst snd] in b, st. subst b.
    destruct (NeedIndexInput pipeline && negb (is_indexed src)); [reflexivity |].
    subst final st.
    destruct (submit_from _ _ _ _ _ _) as [gp lg]. reflexivity.
  - split; [lia |]. subst st. unfold VSUnitLoop.
    apply VSUnitLoop_from_tags; [lia |]. cbn [vs_output].
    eapply Forall_impl; [exact Hfresh |]. cbn. intros entry He. lia.
  - subst st. unfold VSUnitLoop. rewrite VSUnitLoop_from_length. cbn [vs_output].
    rewrite Hlen. exact Hsize.
Qed.

(** ** Runs of program and swizzle words *)

Lemma word_at_cons (w : Z) (l : list Z) (k : Z) :
  0 < k -> word_at (w :: l) k = word_at l (k - 1).
Proof.
  intros Hk. unfold word_at.
  replace (Z.to_nat k) with (S (Z.to_nat (k - 1))) by lia. reflexivity.
Qed.

(** What a run of writes does to any loader that stores the word at the
    offset register's value and adds one to it while the offset is below
    a limit, and only logs an error from the limit on. *)
Lemma write_words_run (step : Z -> State -> State) (code : State -> list Z)
    (limit : State -> Z) (reg : Z) (e : Z -> Event) :
  (forall value s, word_at (regs s) reg < limit s ->
     code (step value s) = array_set (code s) (word_at (regs s) reg) value
     /\ regs (step value s) = array_set (regs s) reg (wrap32 (word_at (regs s) reg + 1))
     /\ log (step value s) = log s
     /\ limit (step value s) = limit s) ->
  (forall value s, limit s <= word_at (regs s) reg ->
     step value s = log_event (e (word_at (regs s) reg)) s) ->
  (forall ev s, code (log_event ev s) = code s /\ limit (log_event ev s) = limit s) ->
  forall (ws : list Z) (s : State),
  0 <= reg < Z.of_nat (length (regs s)) ->
  0 <= word_at (regs s) reg <= limit s ->
  limit s <= Z.of_nat (length (code s)) ->
  limit s < 2 ^ 32 ->
  let o := word_at (regs s) reg in
  let stored := Z.min (Z.of_nat (length ws)) (limit s - o) in
  let s' := write_words step ws s in
  words_landed (code s) (code s') o (take (Z.to_nat stored) ws)
  /\ word_at (regs s') reg = o + stored
  /\ length (regs s') = length (regs s)
  /\ log s' = log s ++ replicate (Z.to_nat (Z.of_nat (length ws) - stored)) (e (limit s)).
Proof.
  intros Haccept Hreject Hlogged ws.
  induction ws as [| w ws IH]; intros s Hreg Ho Hsize Hlimit o stored s'.
  - subst s' stored o. cbn [write_words fold_left length].
    rewrite Z.min_l by lia. cbn. rewrite app_nil_r.
    split; [| split; [lia | split; reflexivity]].
    rewrite take_nil.
    split; [reflexivity |]. split; [cbn [length]; intros k Hk; lia | reflexivity].
  - subst s'. cbn [write_words fold_left]. fold (write_words step ws (step w s)).
    destruct (Z.lt_ge_cases o (limit s)) as [Hlt | Hge].
    + (* the word is stored *)
      destruct (Haccept w s Hlt) as (Ecode & Eregs & Elog & Elimit). fold o in Ecode, Eregs.
      assert (Ewrap : wrap32 (o + 1) = o + 1)
        by (unfold wrap32, u32_modulus; apply Z.mod_small; lia).
      rewrite Ewrap in Eregs.
      assert (Eo1 : word_at (regs (step w s)) reg = o + 1)
        by (rewrite Eregs; apply word_at_array_set_eq; lia).
      specialize (IH (step w s)).
      rewrite Eo1, Elimit, Ecode, Elog in IH.
      destruct (IH ltac:(rewrite Eregs, length_array_set; lia) ltac:(lia)
                  ltac:(rewrite length_array_set; lia) ltac:(lia))
        as ((Hlen & Hin & Hout) & Hoff & Hregs & Hlog).
      rewrite length_array_set in Hlen.
      set (stored1 := Z.min (Z.of_nat (length ws)) (limit s - (o + 1))) in *.
      assert (Estored : stored = 1 + stored1) by (subst stored stored1; cbn [length]; lia).
      assert (Hs1 : 0 <= stored1) by (subst stored1; lia).
      assert (Etake : take (Z.to_nat stored) (w :: ws) = w :: take (Z.to_nat stored1) ws).
      { rewrite Estored. replace (Z.to_nat (1 + stored1)) with (S (Z.to_nat stored1)) by lia.
        reflexivity. }
      rewrite Etake. split; [| split; [lia | split]].
      * split; [exact Hlen |]. split.
        -- intros k Hk. cbn [length] in Hk. destruct (Z.eq_dec k 0) as [-> | Hne].
           ++ rewrite Z.add_0_r, Hout by lia.
              rewrite word_at_array_set_eq by lia. reflexivity.
           ++ rewrite word_at_cons by lia. rewrite <- Hin by lia. f_equal. lia.
        -- intros j Hj Hj'. cbn [length] in Hj'.
           rewrite Hout by lia. apply word_at_array_set_ne; lia.
      * rewrite Hregs, Eregs. apply length_array_set.
      * rewrite Hlog. do 3 f_equal. cbn [length]. lia.
    + (* the offset is at the limit *)
      assert (Eo : o = limit s) by (subst o; lia).
      pose proof (Hreject w s Hge) as Estep. fold o in Estep.
      destruct (Hlogged (e o) s) as [Ecode Elimit].
      specialize (IH (step w s)). rewrite Estep in IH.
      rewrite Ecode, Elimit in IH.
      replace (regs (log_event (e o) s)) with (regs s) in IH by (destruct s; reflexivity).
      replace (log (log_event (e o) s)) with (log s ++ [e o]) in IH by (destruct s; reflexivity).
      fold o in IH.
      destruct (IH Hreg Ho Hsize Hlimit) as (Hlanded & Hoff & Hregs & Hlog).
      rewrite <- Estep in Hlanded, Hoff, Hregs, Hlog.
      assert (Estored : stored = 0) by (subst stored; cbn [length]; lia).
      rewrite Z.min_r in Hlanded, Hoff, Hlog by lia.
      rewrite Estored. replace (limit s - o) with 0 in * by lia.
      split; [exact Hlanded |]. split; [exact Hoff |]. split; [exact Hregs |].
      rewrite Hlog, <- app_assoc. f_equal. cbn [length].
      replace (Z.to_nat (Z.of_nat (S (length ws)) - 0))
        with (S (Z.to_nat (Z.of_nat (length ws) - 0))) by lia.
      rewrite Eo. reflexivity.
Qed.

Lemma write_words_keeps (P : State -> Prop) (step : Z -> State -> State) (ws : list Z) :
  (forall value s, P s -> P (step value s)) ->
  forall s, P s -> P (write_words step ws s).
Proof.
  intros Hstep. induction ws as [| w ws IH]; intros s Hs; [exact Hs |].
  cbn [write_words fold_left]. apply IH, Hstep, Hs.
Qed.

(** X7.  A run of words written to the vertex unit's program register,
    the offset register left alone in between, lands at consecutive
    offsets starting at the offset register's value, and the register ends
    behind the last stored word.  The program holds 512 words: a run that
    reaches offset 512 stores the words that fit, and every further word
    is dropped with an error that names offset 512, the offset register
    staying at 512 (the offset never wraps). *)
Theorem vs_program_run_is_consecutive (ws : list Z) (s : State) :
  0 <= reg_program_offset VS < Z.of_nat (length (regs s)) ->
  512 <= Z.of_nat (length (program_code (vs s))) ->
  0 <= word_at (regs s) (reg_program_offset VS) <= 512 ->
  let o := word_at (regs s) (reg_program_offset VS) in
  let stored := Z.min (Z.of_nat (length ws)) (512 - o) in
  let s' := write_words vs_program_set_word ws s in
  words_landed (program_code (vs s)) (program_code (vs s')) o (take (Z.to_nat stored) ws)
  /\ word_at (regs s') (reg_program_offset VS) = o + stored
  /\ log s' = log s ++ replicate (Z.to_nat (Z.of_nat (length ws) - stored))
                         (LogError_InvalidProgramOffset VS 512).
Proof.
  intros Hreg Hsize Ho o stored s'.
  destruct (write_words_run vs_program_set_word (fun t => program_code (vs t))
              (fun _ => 512) (reg_program_offset VS) (LogError_InvalidProgramOffset VS))
    with (ws := ws) (s := s) as (Hlanded & Hoff & _ & Hlog); try assumption; try lia.
  - intros value t Hlt.
    destruct (vs_program_set_word_spec value t Hlt) as (E1 & _ & _ & E2 & E3).
    repeat split; (assumption || reflexivity).
  - intros value t Hge. apply vs_program_set_word_rejected. exact Hge.
  - intros ev t. destruct t; split; reflexivity.
  - split; [exact Hlanded | split; [exact Hoff | exact Hlog]].
Qed.

Lemma gs_program_set_word_spec (value : Z) (s : State) :
  let offset := word_at (regs s) (reg_program_offset GS) in
  offset < 4096 ->
  let s' := gs_program_set_word value s in
  program_code (gs s') = array_set (program_code (gs s)) offset value
  /\ regs s' = array_set (regs s) (reg_program_offset GS) (wrap32 (offset + 1))
  /\ log s' = log s.
Proof.
  intros offset Hlt s'. subst s'. unfold gs_program_set_word. fold offset.
  destruct (Z.leb_spec 4096 offset); [lia |]. destruct s; repeat split; reflexivity.
Qed.

Lemma gs_swizzle_set_word_spec (value : Z) (s : State) :
  let offset := word_at (regs s) (reg_swizzle_offset GS) in
  offset < Z.of_nat (length (swizzle_data (gs s))) ->
  let s' := gs_swizzle_set_word value s in
  swizzle_data (gs s') = array_set (swizzle_data (gs s)) offset value
  /\ regs s' = array_set (regs s) (reg_swizzle_offset GS) (wrap32 (offset + 1))
  /\ log s' = log s.
Proof.
  intros offset Hlt s'. subst s'. unfold gs_swizzle_set_word. fold offset.
  destruct (Z.leb_spec (Z.of_nat (length (swizzle_data (gs s)))) offset); [lia |].
  destruct s; repeat split; reflexivity.
Qed.

Lemma gs_set_word_keeps_vs (value : Z) (s : State) :
  vs (gs_program_set_word value s) = vs s
  /\ vs (gs_swizzle_set_word value s) = vs s.
Proof.
  unfold gs_program_set_word, gs_swizzle_set_word.
  destruct s; cbn; split; case_conditions; reflexivity.
Qed.

(** X8.  The geometry unit's loaders.  A run of program words lands at
    consecutive offsets up to the 4096th word, a run of swizzle words up to
    the size of the swizzle table; words beyond are dropped with an error
    naming the limit, the offset register staying at the limit; and
    nothing of it reaches the vertex unit (words are mirrored from the
    vertex unit to the geometry unit, never the other way). *)
Theorem gs_runs_are_consecutive (ws : list Z) (s : State) :
  0 <= reg_program_offset GS < Z.of_nat (length (regs s)) ->
  0 <= reg_swizzle_offset GS < Z.of_nat (length (regs s)) ->
  4096 <= Z.of_nat (length (program_code (gs s))) ->
  Z.of_nat (length (swizzle_data (gs s))) < 2 ^ 32 ->
  0 <= word_at (regs s) (reg_program_offset GS) <= 4096 ->
  0 <= word_at (regs s) (reg_swizzle_offset GS) <= Z.of_nat (length (swizzle_data (gs s))) ->
  let p := word_at (regs s) (reg_program_offset GS) in
  let z := word_at (regs s) (reg_swizzle_offset GS) in
  let size := Z.of_nat (length (swizzle_data (gs s))) in
  let stored_p := Z.min (Z.of_nat (length ws)) (4096 - p) in
  let stored_z := Z.min (Z.of_nat (length ws)) (size - z) in
  let sp := write_words gs_program_set_word ws s in
  let sz := write_words gs_swizzle_set_word ws s in
  (words_landed (program_code (gs s)) (program_code (gs sp)) p (take (Z.to_nat stored_p) ws)
   /\ word_at (regs sp) (reg_program_offset GS) = p + stored_p
   /\ log sp = log s ++ replicate (Z.to_nat (Z.of_nat (length ws) - stored_p))
                          (LogError_InvalidProgramOffset GS 4096)
   /\ vs sp = vs s)
  /\ (words_landed (swizzle_data (gs s)) (swizzle_data (gs sz)) z (take (Z.to_nat stored_z) ws)
      /\ word_at (regs sz) (reg_swizzle_offset GS) = z + stored_z
      /\ log sz = log s ++ replicate (Z.to_nat (Z.of_nat (length ws) - stored_z))
                             (LogError_InvalidSwizzleOffset GS size)
      /\ vs sz = vs s).
Proof.
  intros Hregp Hregz Hsize Hzsize Hp Hz p z size stored_p stored_z sp sz. split.
  - destruct (write_words_run gs_program_set_word (fun t => program_code (gs t))
                (fun _ => 4096) (reg_program_offset GS) (LogError_InvalidProgramOffset GS))
      with (ws := ws) (s := s) as (Hlanded & Hoff & _ & Hlog); try assumption; try lia.
    + intros value t Hlt.
      destruct (gs_program_set_word_spec value t Hlt) as (E1 & E2 & E3).
      repeat split; (assumption || reflexivity).
    + intros value t Hge. unfold gs_program_set_word.
      destruct (Z.leb_spec 4096 (word_at (regs t) (reg_program_offset GS))); [reflexivity | lia].
    + intros ev t. destruct t; split; reflexivity.
    + split; [exact Hlanded | split; [exact Hoff | split; [exact Hlog |]]].
      apply (write_words_keeps (fun t => vs t = vs s)); [| reflexivity].
      intros value t Ht. rewrite <- Ht. apply gs_set_word_keeps_vs.
  - destruct (write_words_run gs_swizzle_set_word (fun t => swizzle_data (gs t))
                (fun t => Z.of_nat (length (swizzle_data (gs t))))
                (reg_swizzle_offset GS) (LogError_InvalidSwizzleOffset GS))
      with (ws := ws) (s := s) as (Hlanded & Hoff & _ & Hlog); try assumption; try lia.
    + intros value t Hlt.
      destruct (gs_swizzle_set_word_spec value t Hlt) as (E1 & E2 & E3).
      repeat split; try assumption. rewrite E1, length_array_set. reflexivity.
    + intros value t Hge. unfold gs_swizzle_set_word.
      destruct (Z.leb_spec (Z.of_nat (length (swizzle_data (gs t))))
                  (word_at (regs t) (reg_swizzle_offset GS))); [reflexivity | lia].
    + intros ev t. destruct t; split; reflexivity.
    + split; [exact Hlanded | split; [exact Hoff | split; [exact Hlog |]]].
      apply (write_words_keeps (fun t => vs t = vs s)); [| reflexivity].
      intros value t Ht. rewrite <- Ht. apply gs_set_word_keeps_vs.
Qed.

(** ** The loop indices of the workers *)

Lemma worker_indices_spec (num_threads num_vertices : Z) (fuel : nat) :
  0 < num_threads ->
  num_vertices + num_threads <= 2 ^ 32 ->
  forall index i,
  0 <= index ->
  i ∈ worker_indices fuel index num_threads num_vertices
  <-> exists k, 0 <= k < Z.of_nat fuel /\ i = index + k * num_threads /\ i < num_vertices.
Proof.
  intros Hthreads Hfit. induction fuel as [| f IH]; intros index i Hindex.
  - cbn [worker_indices]. split.
    + intros H. apply elem_of_nil in H. destruct H.
    + intros (k & Hk & _). lia.
  - cbn [worker_indices].
    destruct (Z.ltb_spec index num_vertices) as [Hlt | Hge].
    + assert (Ewrap : wrap32 (index + num_threads) = index + num_threads)
        by (unfold wrap32, u32_modulus; apply Z.mod_small; lia).
      rewrite Ewrap, elem_of_cons, IH by lia. split.
      * intros [-> | (k & Hk & -> & Hi)].
        -- exists 0. split; [lia |]. split; [lia | exact Hlt].
        -- exists (k + 1). split; [lia |]. split; [lia | exact Hi].
      * intros (k & Hk & -> & Hi). destruct (Z.eq_dec k 0) as [-> | Hne].
        -- left. lia.
        -- right. exists (k - 1). split; [lia |]. split; [lia | exact Hi].
    + split.
      * intros H. apply elem_of_nil in H. destruct H.
      * intros (k & Hk & -> & Hi). nia.
Qed.

Lemma worker_indices_NoDup (num_threads num_vertices : Z) (fuel : nat) :
  0 < num_threads ->
  num_vertices + num_threads <= 2 ^ 32 ->
  forall index, 0 <= index -> NoDup (worker_indices fuel index num_threads num_vertices).
Proof.
  intros Hthreads Hfit. induction fuel as [| f IH]; intros index Hindex.
  - apply NoDup_nil_2.
  - cbn [worker_indices].
    destruct (Z.ltb_spec index num_vertices) as [Hlt | Hge]; [| apply NoDup_nil_2].
    assert (Ewrap : wrap32 (index + num_threads) = index + num_threads)
      by (unfold wrap32, u32_modulus; apply Z.mod_small; lia).
    rewrite Ewrap. apply NoDup_cons_2; [| apply IH; lia].
    rewrite worker_indices_spec by lia. intros (k & Hk & E & _). nia.
Qed.

(** X9.  The workers share the loop indices out without overlap.  With
    [threads] workers started, worker [t] runs the loop body for exactly
    the indices below [num_vertices] that are congruent to [t] modulo
    [threads], each once and in increasing order of the stride; so every
    loop index is met by exactly one worker.  (The sum [index +
    num_threads] is unsigned: the statement needs [num_vertices + threads]
    to stay within 32 bits.) *)
Theorem workers_share_the_loop_indices (threads num_vertices : Z) (jobs : list (Z * Z)) :
  0 < threads ->
  0 <= num_vertices ->
  num_vertices + threads <= 2 ^ 32 ->
  dispatch_vs_units threads = Spawned jobs ->
  (forall job i, job ∈ jobs ->
     i ∈ VSUnitLoop_indices job num_vertices
     <-> 0 <= i < num_vertices /\ i mod threads = fst job)
  /\ (forall job, job ∈ jobs -> NoDup (VSUnitLoop_indices job num_vertices))
  /\ (forall i, 0 <= i < num_vertices ->
        jobs !! Z.to_nat (i mod threads) = Some (i mod threads, threads)
        /\ forall job, job ∈ jobs -> i ∈ VSUnitLoop_indices job num_vertices ->
             job = (i mod threads, threads)).
Proof.
  intros Hthreads Hn Hfit Hjobs.
  unfold dispatch_vs_units in Hjobs.
  destruct (Z.eqb_spec threads 0) as [E | _]; [lia |].
  inversion Hjobs as [Ejobs]. clear Hjobs.
  assert (Hjob : forall job, job ∈ push_jobs (Z.to_nat threads) 0 threads ->
                   0 <= fst job < threads /\ snd job = threads).
  { intros job Hin. apply list_elem_of_lookup_1 in Hin as [k Hk].
    assert (Hlt : (k < Z.to_nat threads)%nat).
    { apply lookup_lt_Some in Hk. rewrite length_push_jobs in Hk. exact Hk. }
    rewrite push_jobs_lookup in Hk by exact Hlt. inversion Hk. cbn. lia. }
  assert (Hmem : forall job i, job ∈ push_jobs (Z.to_nat threads) 0 threads ->
            i ∈ VSUnitLoop_indices job num_vertices
            <-> 0 <= i < num_vertices /\ i mod threads = fst job).
  { intros [t w] i Hin. destruct (Hjob _ Hin) as [Ht Hw]. cbn [fst snd] in Ht, Hw. subst w.
    unfold VSUnitLoop_indices. cbn [fst snd].
    rewrite worker_indices_spec by lia. split.
    - intros (k & Hk & -> & Hi). split; [nia |].
      rewrite Z.mod_add by lia. apply Z.mod_small. lia.
    - intros [Hi Emod]. exists (i / threads).
      pose proof (Z.div_mod i threads ltac:(lia)) as Hdm.
      assert (Hq : 0 <= i / threads) by (apply Z.div_pos; lia).
      split; [nia |]. split; [lia | lia]. }
  split; [exact Hmem |]. split.
  - intros [t w] Hin. destruct (Hjob _ Hin) as [Ht Hw]. cbn [fst snd] in Ht, Hw.
    apply worker_indices_NoDup; cbn [fst snd]; lia.
  - intros i Hi.
    pose proof (Z.mod_pos_bound i threads Hthreads) as Hmod. split.
    + rewrite push_jobs_lookup by lia. do 2 f_equal. lia.
    + intros [t w] Hin Hmet. destruct (Hjob _ Hin) as [Ht Hw]. cbn [fst snd] in Ht, Hw.
      apply (Hmem _ _ Hin) in Hmet as [_ Emod]. cbn [fst] in Emod. congruence.
Qed.

(** ** Boolean uniforms *)

Lemma bit_test (value i : Z) :
  0 <= i -> negb (Z.land value (Z.shiftl 1 i) =? 0) = Z.testbit value i.
Proof.
  intros Hi. rewrite Z.shiftl_1_l.
  destruct (Z.testbit value i) eqn:E.
  - destruct (Z.eqb_spec (Z.land value (2 ^ i)) 0) as [H0 | _]; [| reflexivity].
    assert (H : Z.testbit (Z.land value (2 ^ i)) i = true)
      by (rewrite Z.land_spec, E, Z.pow2_bits_true by lia; reflexivity).
    rewrite H0, Z.bits_0 in H. discriminate.
  - destruct (Z.eqb_spec (Z.land value (2 ^ i)) 0) as [_ | Hne]; [reflexivity |].
    exfalso. apply Hne. apply Z.bits_inj'. intros j Hj.
    rewrite Z.land_spec, Z.bits_0, Z.pow2_bits_eqb by lia.
    destruct (Z.eqb_spec i j) as [-> | _]; [rewrite E; reflexivity | apply andb_false_r].
Qed.

Lemma WriteUniformBoolReg_from_lookup (value : Z) (remaining : nat) :
  forall (i : Z) (b : list bool) (j : nat),
  0 <= i ->
  i + Z.of_nat remaining <= Z.of_nat (length b) ->
  length (WriteUniformBoolReg_from remaining i value b) = length b
  /\ WriteUniformBoolReg_from remaining i value b !! j
     = if (i <=? Z.of_nat j) && (Z.of_nat j <? i + Z.of_nat remaining)
       then Some (Z.testbit value (Z.of_nat j))
       else b !! j.
Proof.
  induction remaining as [| k IH]; intros i b j Hi Hfit.
  - cbn [WriteUniformBoolReg_from]. split; [reflexivity |].
    destruct (Z.leb_spec i (Z.of_nat j)), (Z.ltb_spec (Z.of_nat j) (i + Z.of_nat 0));
      cbn; (reflexivity || lia).
  - cbn [WriteUniformBoolReg_from]. rewrite bit_test by exact Hi.
    destruct (IH (i + 1) (array_set b i (Z.testbit value i)) j ltac:(lia)
                ltac:(rewrite length_array_set; lia)) as [Hlen Hlook].
    rewrite length_array_set in Hlen. split; [exact Hlen |].
    rewrite Hlook. unfold array_set.
    destruct (Z.leb_spec (i + 1) (Z.of_nat j)), (Z.leb_spec i (Z.of_nat j)),
             (Z.ltb_spec (Z.of_nat j) (i + 1 + Z.of_nat k)),
             (Z.ltb_spec (Z.of_nat j) (i + Z.of_nat (S k)));
      cbn [andb]; try lia; try reflexivity;
      first [ apply list_lookup_insert_ne; lia
            | assert (E : Z.to_nat i = j) by lia; rewrite <- E;
              rewrite list_lookup_insert_eq by lia; do 2 f_equal; lia ].
Qed.

(** X10.  [WriteUniformBoolReg] sets boolean uniform [i] to bit [i] of
    the value word, for every uniform of the unit and whatever the
    uniforms held before; bits of the value beyond the last uniform are
    ignored.  (For at most 31 uniforms, where [1 << i] is defined; the
    unit has 16.) *)
Theorem bool_uniforms_are_the_bits (b : list bool) (value : Z) :
  (length b <= 31)%nat ->
  WriteUniformBoolReg b value
  = map (fun i => Z.testbit value i) (seqZ 0 (Z.of_nat (length b))).
Proof.
  intros _. apply list_eq. intros j. unfold WriteUniformBoolReg.
  destruct (WriteUniformBoolReg_from_lookup value (length b) 0 b j ltac:(lia) ltac:(lia))
    as [_ Hlook].
  rewrite Hlook, list_lookup_fmap.
  destruct (Z.leb_spec 0 (Z.of_nat j)) as [_ | Hneg]; [| lia]. cbn [andb].
  destruct (Z.ltb_spec (Z.of_nat j) (0 + Z.of_nat (length b))) as [Hlt | Hge].
  - rewrite lookup_seqZ_lt by lia. reflexivity.
  - rewrite lookup_seqZ_ge by lia. cbn. apply lookup_ge_None_2. lia.
Qed.

(** ** Default attributes and immediate-mode vertices *)









(** ** The fog lookup table *)

(** Arithmetic of the offset, 16 bits wide, seen modulo the 128 entries. *)
Lemma ring_next (o k : Z) :
  ((o + 1) mod 65536 + k) mod 128 = (o + (k + 1)) mod 128.
Proof.
  clear. Z.div_mod_to_equations. lia.
Qed.

Lemma ring_apart (o k : Z) :
  0 <= k < 127 -> ((o + 1) mod 65536 + k) mod 128 <> o mod 128.
Proof.
  intros Hk. clear - Hk. Z.div_mod_to_equations. lia.
Qed.

Lemma ring_offset (o n : Z) :
  ((o + 1) mod 65536 + n) mod 65536 = (o + (n + 1)) mod 65536.
Proof.
  clear. Z.div_mod_to_equations. lia.
Qed.

Lemma ring_back (o j : Z) :
  0 <= j < 128 -> (o + (j - o) mod 128) mod 128 = j.
Proof.
  intros Hj. clear - Hj. Z.div_mod_to_equations. lia.
Qed.

Lemma write_fog_lut_run (ws : list Z) :
  (forall n r, length (fog_lut_offset_Assign n r) = length r) ->
  (forall n r, Z.of_nat (length r) = NUM_REGS ->
     fog_lut_offset (fog_lut_offset_Assign n r) = n mod 2 ^ 16) ->
  forall (r lut : list Z),
  Z.of_nat (length r) = NUM_REGS ->
  0 <= fog_lut_offset r < 2 ^ 16 ->
  Z.of_nat (length lut) = 128 ->
  Z.of_nat (length ws) <= 128 ->
  let o := fog_lut_offset r in
  let res := write_fog_lut ws (r, lut) in
  Z.of_nat (length (fst res)) = NUM_REGS
  /\ Z.of_nat (length (snd res)) = 128
  /\ fog_lut_offset (fst res) = (o + Z.of_nat (length ws)) mod 2 ^ 16
  /\ (forall k, 0 <= k < Z.of_nat (length ws) ->
        word_at (snd res) ((o + k) mod 128) = word_at ws k)
  /\ (forall j, 0 <= j ->
        (forall k, 0 <= k < Z.of_nat (length ws) -> (o + k) mod 128 <> j) ->
        word_at (snd res) j = word_at lut j).
Proof.
  intros Hlength Hread. change (2 ^ 16) with 65536 in Hread |- *.
  induction ws as [| w ws IH]; intros r lut Hr Ho Hlut Hws o res.
  - subst res o. cbn [write_fog_lut fold_left fst snd length].
    split; [exact Hr |]. split; [exact Hlut |].
    split; [rewrite Z.add_0_r, Z.mod_small by lia; reflexivity |].
    split; [intros k Hk; lia | reflexivity].
  - subst res. cbn [write_fog_lut fold_left fog_lut_data].
    fold o. cbn [length] in Hws |- *.
    assert (Ewrap : wrap32 (o + 1) = o + 1)
      by (unfold wrap32, u32_modulus; apply Z.mod_small; lia).
    rewrite Ewrap.
    set (r1 := fog_lut_offset_Assign (o + 1) r).
    set (lut1 := array_set lut (o mod 128) w).
    change (fold_left _ ws (r1, lut1)) with (write_fog_lut ws (r1, lut1)).
    assert (Hr1 : Z.of_nat (length r1) = NUM_REGS) by (subst r1; rewrite Hlength; exact Hr).
    assert (Eo1 : fog_lut_offset r1 = (o + 1) mod 65536) by (subst r1; apply Hread; exact Hr).
    destruct (IH r1 lut1 Hr1) as (Hlen & Hsize & Hoff & Hin & Hout).
    { rewrite Eo1. apply Z.mod_pos_bound. lia. }
    { subst lut1. rewrite length_array_set. exact Hlut. }
    { lia. }
    rewrite Eo1 in Hoff, Hin, Hout.
    split; [exact Hlen |]. split; [exact Hsize |].
    split; [rewrite Hoff, ring_offset; f_equal; lia |]. split.
    + intros k Hk. destruct (Z.eq_dec k 0) as [-> | Hne].
      * rewrite Z.add_0_r. rewrite Hout.
        -- subst lut1. apply word_at_array_set_eq.
           pose proof (Z.mod_pos_bound o 128 ltac:(lia)). lia.
        -- apply Z.mod_pos_bound. lia.
        -- intros k' Hk'. apply ring_apart. lia.
      * rewrite word_at_cons by lia. rewrite <- (Hin (k - 1)) by lia.
        f_equal. rewrite ring_next. f_equal. lia.
    + intros j Hj Hfree. rewrite Hout.
      * subst lut1.
        apply word_at_array_set_ne; [apply Z.mod_pos_bound; lia | lia |].
        specialize (Hfree 0 ltac:(lia)). rewrite Z.add_0_r in Hfree. exact Hfree.
      * exact Hj.
      * intros k Hk. specialize (Hfree (k + 1) ltac:(lia)).
        rewrite ring_next. exact Hfree.
Qed.

(** X13.  The fog table is written round and round.  Each write to
    [fog_lut_data] stores the word at entry [fog_lut_offset mod 128] and
    adds one to the offset, so no write falls outside the 128 entries
    whatever the offset register holds; a run of up to 128 words lands at
    consecutive entries, going on at entry 0 after entry 127, and leaves
    the other entries alone; and 128 words started at any offset replace
    the whole table. *)
Theorem fog_lut_is_written_in_a_ring (ws : list Z) (r lut : list Z) :
  (forall n r, length (fog_lut_offset_Assign n r) = length r) ->
  (forall n r, Z.of_nat (length r) = NUM_REGS ->
     fog_lut_offset (fog_lut_offset_Assign n r) = n mod 2 ^ 16) ->
  Z.of_nat (length r) = NUM_REGS ->
  0 <= fog_lut_offset r < 2 ^ 16 ->
  Z.of_nat (length lut) = 128 ->
  Z.of_nat (length ws) <= 128 ->
  let o := fog_lut_offset r in
  let res := write_fog_lut ws (r, lut) in
  length (snd res) = length lut
  /\ fog_lut_offset (fst res) = (o + Z.of_nat (length ws)) mod 2 ^ 16
  /\ (forall k, 0 <= k < Z.of_nat (length ws) ->
        word_at (snd res) ((o + k) mod 128) = word_at ws k)
  /\ (forall j, 0 <= j ->
        (forall k, 0 <= k < Z.of_nat (length ws) -> (o + k) mod 128 <> j) ->
        word_at (snd res) j = word_at lut j)
  /\ (Z.of_nat (length ws) = 128 ->
      forall j, 0 <= j < 128 -> word_at (snd res) j = word_at ws ((j - o) mod 128)).
Proof.
  intros Hlength Hread Hr Ho Hlut Hws o res.
  destruct (write_fog_lut_run ws Hlength Hread r lut Hr Ho Hlut Hws)
    as (_ & Hsize & Hoff & Hin & Hout).
  fold o in Hoff, Hin, Hout. fold res in Hsize, Hoff, Hin, Hout.
  split; [lia |]. split; [exact Hoff |]. split; [exact Hin |]. split; [exact Hout |].
  intros Hfull j Hj.
  rewrite <- (Hin ((j - o) mod 128))
    by (pose proof (Z.mod_pos_bound (j - o) 128 ltac:(lia)); lia).
  f_equal. symmetry. apply ring_back. exact Hj.
Qed.

(** ** A command as a run of register writes *)

Section CursorIndependence.

(** The cases of the switch that are not modelled do not look at the list
    cursor. *)
Hypothesis other_cases_apart : forall id value c s,
  other_cases id value (with_cmd_list c s) = with_cmd_list c (other_cases id value s).

Lemma WritePicaReg_apart (id value mask : Z) (c : CmdList) (s : State) :
  is_case id reg_trigger 2 = false ->
  WritePicaReg id value mask (with_cmd_list c s)
  = with_cmd_list c (WritePicaReg id value mask s).
Proof.
  intros Hid. unfold WritePicaReg.
  destruct (NUM_REGS <=? id); [destruct s; reflexivity |].
  assert (Hpre : register_write id value mask (with_cmd_list c s)
                 = with_cmd_list c (register_write id value mask s)).
  { unfold register_write. destruct s as [r v g c1 b1 c2 b2 cl tr dbg lg].
    destruct tr, dbg; reflexivity. }
  assert (Hpost : forall t, register_processed id (with_cmd_list c t)
                            = with_cmd_list c (register_processed id t)).
  { intros t. unfold register_processed. destruct t as [r v g c1 b1 c2 b2 cl tr dbg lg].
    destruct dbg; reflexivity. }
  rewrite Hpre, <- Hpost. f_equal.
  generalize (register_write id value mask s). intros t.
  unfold side_effects. rewrite Hid.
  case_conditions; try apply other_cases_apart.
  - unfold WriteUniformFloatReg, flush_threshold_reached, flush_uniform, stage_uniform_word.
    destruct t; cbn; case_conditions; reflexivity.
  - unfold gs_program_set_word. destruct t; cbn; case_conditions; reflexivity.
  - unfold gs_swizzle_set_word. destruct t; cbn; case_conditions; reflexivity.
  - unfold WriteUniformFloatReg, flush_threshold_reached, flush_uniform, stage_uniform_word.
    destruct t; cbn; case_conditions; reflexivity.
  - unfold vs_program_set_word. destruct t; cbn; case_conditions; reflexivity.
  - unfold vs_swizzle_set_word. destruct t; cbn; case_conditions; reflexivity.
Qed.

Lemma with_cmd_list_twice (c c' : CmdList) (s : State) :
  with_cmd_list c (with_cmd_list c' s) = with_cmd_list c s.
Proof.
  destruct s; reflexivity.
Qed.

Lemma with_cmd_list_same (s : State) :
  with_cmd_list (cmd_list s) s = s.
Proof.
  destruct s; reflexivity.
Qed.

Lemma register_writes_apart (mask : Z) (writes : list (Z * Z)) :
  forall (c : CmdList) (s : State),
  Forall (fun w => is_case (fst w) reg_trigger 2 = false) writes ->
  register_writes mask writes (with_cmd_list c s)
  = with_cmd_list c (register_writes mask writes s).
Proof.
  induction writes as [| w writes IH]; intros c s Hsafe; [reflexivity |].
  apply Forall_cons in Hsafe as [Hw Hsafe].
  cbn [register_writes fold_left].
  rewrite WritePicaReg_apart by exact Hw. apply IH. exact Hsafe.
Qed.

Lemma write_extra_data_as_writes (header : Z) (remaining : nat) :
  forall (i : Z) (s : State),
  (forall k, i <= k < i + Z.of_nat remaining ->
     is_case (extra_target header k) reg_trigger 2 = false) ->
  write_extra_data remaining i header s
  = with_cmd_list
      (mkCmdList (head_ptr (cmd_list s)) (current_ptr (cmd_list s) + Z.of_nat remaining)
         (length_words (cmd_list s)))
      (register_writes (header_parameter_mask header)
         (map (fun k => (extra_target header k, host_word (current_ptr (cmd_list s) + (k - i))))
            (seqZ i (Z.of_nat remaining))) s).
Proof.
  induction remaining as [| n IH]; intros i s Hsafe.
  - cbn [write_extra_data]. cbn. rewrite Z.add_0_r.
    destruct s as [r v g c1 b1 c2 b2 [h c l] tr dbg lg]. reflexivity.
  - cbn [write_extra_data]. unfold read_word. fold (extra_target header i).
    rewrite WritePicaReg_apart by (apply Hsafe; lia).
    rewrite IH by (intros k Hk; apply Hsafe; lia).
    replace (cmd_list (with_cmd_list _ _))
      with (mkCmdList (head_ptr (cmd_list s)) (current_ptr (cmd_list s) + 1)
              (length_words (cmd_list s)))
      by (match goal with |- _ = cmd_list (with_cmd_list ?x ?y) => destruct y end;
          reflexivity).
    cbn [head_ptr current_ptr length_words].
    rewrite register_writes_apart.
    + rewrite with_cmd_list_twice.
      rewrite (seqZ_cons i (Z.of_nat (S n))) by lia. cbn [map register_writes fold_left fst snd].
      replace (current_ptr (cmd_list s) + (i - i)) with (current_ptr (cmd_list s)) by lia.
      replace (Z.pred (Z.of_nat (S n))) with (Z.of_nat n) by lia.
      f_equal; [f_equal; lia |]. unfold register_writes. f_equal.
      apply map_ext. intros k. do 2 f_equal. lia.
    + apply Forall_map. apply Forall_forall. intros k Hk. cbn [fst].
      apply elem_of_seqZ in Hk. apply Hsafe. lia.
Qed.

(** X14.  One pass of the loop is the run of the command's register
    writes.  For a command that writes no trigger register, the state
    after the pass is the state after [WritePicaReg] on the header's
    register with the value word and then on the target of each extra data
    word with that word, in order and all under the header's mask, with the
    cursor moved past the command; the writes themselves do not depend on
    where the cursor is. *)
Theorem command_is_its_register_writes (s : State) :
  let c := cmd_list s in
  let pad := if Z.rem (head_ptr c - current_ptr c) 2 =? 0 then 0 else 1 in
  let value_at := current_ptr c + pad in
  let header := host_word (value_at + 1) in
  avoids_trigger header ->
  process_command s
  = with_cmd_list
      (mkCmdList (head_ptr c)
         (value_at + 2 + Z.of_nat (Z.to_nat (header_extra_data_length header)))
         (length_words c))
      (register_writes (header_parameter_mask header) (command_writes value_at) s).
Proof.
  intros c pad value_at header Hsafe.
  unfold avoids_trigger, command_targets in Hsafe.
  apply Forall_cons in Hsafe as [Hfirst Hextra].
  rewrite Forall_forall in Hextra.
  assert (Hk : forall k,
            0 <= k < 0 + Z.of_nat (Z.to_nat (header_extra_data_length header)) ->
            is_case (extra_target header k) reg_trigger 2 = false).
  { intros k Hk. apply Hextra. apply list_elem_of_fmap. exists k.
    split; [reflexivity |]. rewrite elem_of_seqZ. lia. }
  assert (Eread : process_command s
     = write_extra_data (Z.to_nat (header_extra_data_length header)) 0 header
         (WritePicaReg (header_cmd_id header) (host_word value_at)
            (header_parameter_mask header)
            (with_cmd_list (mkCmdList (head_ptr c) (value_at + 2) (length_words c)) s))).
  { subst header value_at pad c.
    destruct s as [r v g c1 b1 c2 b2 [h c l] tr dbg lg].
    unfold process_command, read_word.
    cbn [cmd_list head_ptr current_ptr length_words with_cmd_list].
    destruct (Z.rem (h - c) 2 =? 0); unfold with_cmd_list;
      cbn [cmd_list head_ptr current_ptr length_words regs vs gs
           vs_float_regs_counter vs_uniform_write_buffer gs_float_regs_counter
           gs_uniform_write_buffer is_pica_tracing has_debug_context log];
      rewrite ?Z.add_0_r.
    - replace (c + 1 + 1) with (c + 2) by lia. reflexivity.
    - replace (c + 1 + 1 + 1) with (c + 1 + 2) by lia. reflexivity. }
  rewrite Eread. rewrite WritePicaReg_apart by exact Hfirst.
  rewrite write_extra_data_as_writes by exact Hk.
  replace (cmd_list (with_cmd_list _ _))
    with (mkCmdList (head_ptr c) (value_at + 2) (length_words c))
    by (match goal with |- _ = cmd_list (with_cmd_list ?x ?y) => destruct y end;
        reflexivity).
  cbn [head_ptr current_ptr length_words].
  rewrite register_writes_apart.
  - rewrite with_cmd_list_twice. unfold command_writes. fold header.
    cbn [register_writes fold_left fst snd]. unfold register_writes.
    do 2 f_equal. apply map_ext. intros k. do 2 f_equal. lia.
  - apply Forall_map. apply Forall_forall. intros k Hin. cbn [fst].
    apply elem_of_seqZ in Hin. apply Hk. lia.
Qed.

End CursorIndependence.

(** ** The staging buffers *)

Lemma flush_uniform_staging (u : ShaderUnit) (s : State) :
  float_regs_counter u (flush_uniform u s) = 0
  /\ uniform_write_buffer u (flush_uniform u s) = uniform_write_buffer u s.
Proof.
  unfold flush_uniform. destruct s, u; cbn; case_conditions; split; reflexivity.
Qed.

(** X15.  The staging counters never leave their buffers.  A float
    uniform word is staged at a position from 0 to 3 and leaves the unit's
    counter between 0 and 3, in whatever state the registers are: the mode
    bit may change between two words, a counter of 3 still flushes on the
    next word in either mode.  A default-attribute word is staged at a
    position from 0 to 2 and leaves the counter between 0 and 2.  The
    buffers keep their sizes of four and of three words. *)
Theorem staging_counters_stay_in_bounds (u : ShaderUnit) (value : Z) (s : State)
    (r : list Z) (im : Immediate) :
  0 <= float_regs_counter u s <= 3 ->
  length (uniform_write_buffer u s) = 4%nat ->
  0 <= default_attr_counter im <= 2 ->
  length (default_attr_write_buffer im) = 3%nat ->
  let s' := WriteUniformFloatReg u value s in
  let im' := snd (default_attribute_set_value value (r, im)) in
  0 <= float_regs_counter u s' <= 3
  /\ length (uniform_write_buffer u s') = 4%nat
  /\ word_at (uniform_write_buffer u s') (float_regs_counter u s) = value
  /\ 0 <= default_attr_counter im' <= 2
  /\ length (default_attr_write_buffer im') = 3%nat
  /\ word_at (default_attr_write_buffer im') (default_attr_counter im) = value.
Proof.
  intros Hcounter Hbuffer Hattr Hattr_buffer s' im'.
  assert (Hstaged : uniform_write_buffer u s'
                    = array_set (uniform_write_buffer u s) (float_regs_counter u s) value)
    by apply staged_by_WriteUniformFloatReg.
  split; [| split; [| split; [| split; [| split]]]].
  - subst s'. unfold WriteUniformFloatReg.
    destruct (flush_threshold_reached u (stage_uniform_word u value s)) eqn:E.
    + rewrite (proj1 (flush_uniform_staging u _)). lia.
    + rewrite flush_threshold_after_stage in E.
      destruct (stage_uniform_word_spec u value s) as (Ec & _). rewrite Ec.
      destruct (uniform_setup_IsFloat32 u (regs s)),
               (Z.leb_spec 4 (float_regs_counter u s + 1)),
               (Z.leb_spec 3 (float_regs_counter u s + 1));
        cbn in E; try discriminate; lia.
  - rewrite Hstaged, length_array_set. exact Hbuffer.
  - rewrite Hstaged. apply word_at_array_set_eq. lia.
  - subst im'. unfold default_attribute_set_value.
    destruct (Z.leb_spec 3 (default_attr_counter im + 1)); [| cbn; lia].
    case_conditions; cbn; lia.
  - subst im'. unfold default_attribute_set_value.
    case_conditions; cbn; rewrite length_array_set; exact Hattr_buffer.
  - subst im'. unfold default_attribute_set_value.
    case_conditions; cbn; apply word_at_array_set_eq; lia.
Qed.

(** ** The worker count at the edges *)

(** X16.  Two edges of the worker count, both from the unsigned
    arithmetic of lines 420-422.  When [hardware_concurrency()] reports 0
    (the value is not known), [hardware_concurrency() - 1] wraps to
    0xFFFFFFFF and the count is [num_vertices / min_vertices_per_thread]
    alone.  When the [min_vertices_per_thread] setting, an [int], is
    negative, it is converted to a number of at least 2^31, the quotient is
    0 and the vertex loop runs inline. *)
Theorem worker_count_at_the_edges (n_vertices min_per_thread concurrency : Z) :
  0 <= n_vertices < 2 ^ 31 ->
  0 < min_per_thread <= 2 ^ 31 ->
  0 <= concurrency < 2 ^ 32 ->
  vs_threads n_vertices min_per_thread 0 = n_vertices / min_per_thread
  /\ vs_threads n_vertices (- min_per_thread) concurrency = 0
  /\ dispatch_vs_units (vs_threads n_vertices (- min_per_thread) concurrency) = RunInline.
Proof.
  intros Hn Hm Hc.
  assert (Hneg : vs_threads n_vertices (- min_per_thread) concurrency = 0).
  { unfold vs_threads, wrap32, u32_modulus.
    assert (E : (- min_per_thread) mod 2 ^ 32 = 2 ^ 32 - min_per_thread).
    { symmetry. apply (Z.mod_unique_pos _ _ (-1)); lia. }
    rewrite E. rewrite Z.div_small by lia.
    apply Z.min_l. apply Z.mod_pos_bound. lia. }
  split; [| split; [exact Hneg | rewrite Hneg; reflexivity]].
  unfold vs_threads, wrap32, u32_modulus.
  rewrite (Z.mod_small min_per_thread) by lia.
  change ((0 - 1) mod 2 ^ 32) with (2 ^ 32 - 1).
  apply Z.min_l.
  assert (n_vertices / min_per_thread <= n_vertices)
    by (apply Z.div_le_upper_bound; nia).
  lia.
Qed.


(** ** The vertex loop on several workers *)

Section ParallelDraw.

Variable src : IndexSource.
Variable gs_used : bool.
Variable batch_id : Z.
Variable n_vertices : Z.
Variable threads : Z.
Variable size : nat.

Hypothesis draw_is_indexed : is_indexed src = true.
Hypothesis threads_positive : 0 < threads.
Hypothesis indices_fit : n_vertices + threads <= 2 ^ 32.
Hypothesis vertices_in_cache : forall i,
  0 <= i < n_vertices -> 0 <= VertexIndex src i < Z.of_nat size.

(** What one step of a worker does to the worker, to the lock and the tag
    of its vertex's entry, and to the log; the other entries are not
    touched. *)
Lemma worker_step_cases (w w' : Worker) (cache cache' : list Cached) (lg lg' : DrawLog) :
  length cache = size ->
  0 <= worker_index w ->
  (worker_phase w <> AtLoopHead -> worker_index w < n_vertices) ->
  worker_step src gs_used batch_id n_vertices threads w cache lg = Some (w', cache', lg') ->
  let index := worker_index w in
  let v := VertexIndex src index in
  let e := cache_at cache v in
  let e' := cache_at cache' v in
  index < n_vertices
  /\ length cache' = size
  /\ (forall v', 0 <= v' -> v' <> v -> cache_at cache' v' = cache_at cache v')
  /\ lock e' = match worker_phase w with
               | AtLoopHead => true
               | Releases => false
               | _ => lock e
               end
  /\ batch e' = match worker_phase w with
                | Publishes => batch_id
                | _ => batch e
                end
  /\ lg' = match worker_phase w with
           | Shades => lg ++ [RunShader index v]
           | _ => lg
           end
  /\ (worker_index w', worker_phase w')
     = match worker_phase w with
       | AtLoopHead => if lock e then (index + threads, AtLoopHead) else (index, HoldsLock)
       | HoldsLock => if batch e =? batch_id then (index, Releases) else (index, Shades)
       | Shades => (index, Publishes)
       | Publishes => (index, Releases)
       | Releases => (index + threads, AtLoopHead)
       end.
Proof.
  intros Hsize Hindex Hbound Hstep index v e e'.
  assert (Hlt : index < n_vertices).
  { destruct (worker_phase w) eqn:Ephase; try (apply Hbound; discriminate).
    unfold worker_step in Hstep. rewrite Ephase in Hstep. fold index in Hstep.
    destruct (Z.ltb_spec index n_vertices); [assumption | discriminate]. }
  assert (Hv : 0 <= v < Z.of_nat (length cache))
    by (rewrite Hsize; apply vertices_in_cache; subst index; lia).
  assert (Ewrap : wrap32 (index + threads) = index + threads)
    by (unfold wrap32, u32_modulus; apply Z.mod_small; subst index; lia).
  assert (Hset : forall entry : Cached,
            length (array_set cache v entry) = size
            /\ (forall v', 0 <= v' -> v' <> v ->
                  cache_at (array_set cache v entry) v' = cache_at cache v')
            /\ cache_at (array_set cache v entry) v = entry).
  { intros entry. split; [rewrite length_array_set; exact Hsize |]. split.
    - intros v' Hv' Hne. apply cache_at_array_set_ne; lia.
    - apply cache_at_array_set_eq. exact Hv. }
  split; [exact Hlt |].
  unfold worker_step in Hstep. rewrite draw_is_indexed in Hstep.
  fold index in Hstep. fold v in Hstep. fold e in Hstep. rewrite Ewrap in Hstep.
  subst e'.
  destruct (worker_phase w) eqn:Ephase.
  - destruct (Z.ltb_spec index n_vertices); [| lia].
    destruct (lock e) eqn:Elock; inversion Hstep; subst w' cache' lg'.
    + repeat split; try reflexivity; try assumption.
    + destruct (Hset (mkCachedVertex (cached_output e) (batch e) true)) as (H1 & H2 & H3).
      rewrite H3. repeat split; try reflexivity; try assumption.
  - destruct (batch e =? batch_id); inversion Hstep; subst w' cache' lg';
      repeat split; try reflexivity; try assumption.
  - destruct (run_vertex_shader (worker_unit w) index v (cached_output e)) as [unit' attr].
    inversion Hstep; subst w' cache' lg'.
    destruct (Hset (mkCachedVertex (stored_output gs_used attr) (batch e) (lock e)))
      as (H1 & H2 & H3).
    rewrite H3. repeat split; try reflexivity; try assumption.
  - inversion Hstep; subst w' cache' lg'.
    destruct (Hset (mkCachedVertex (cached_output e) batch_id (lock e))) as (H1 & H2 & H3).
    rewrite H3. repeat split; try reflexivity; try assumption.
  - inversion Hstep; subst w' cache' lg'.
    destruct (Hset (mkCachedVertex (cached_output e) (batch e) false)) as (H1 & H2 & H3).
    rewrite H3. repeat split; try reflexivity; try assumption.
Qed.

(** One step of any worker keeps the invariant. *)
Lemma schedule_step_inv (k : nat) (p : Parallel) :
  parallel_inv src batch_id n_vertices threads size p ->
  parallel_inv src batch_id n_vertices threads size
    (schedule_step src gs_used batch_id n_vertices threads k p).
Proof.
  intros Hinv. unfold schedule_step.
  destruct (workers p !! k) as [w |] eqn:Ek; [| exact Hinv].
  destruct (worker_step src gs_used batch_id n_vertices threads w
              (shared_output p) (parallel_log p))
    as [[[w' cache'] lg'] |] eqn:Estep; [| exact Hinv].
  destruct p as [ws cache lg]. cbn [workers shared_output parallel_log] in *.
  destruct Hinv as (Hsize & Hw & Hlock & Huniq & Hruns & Hpassed & Htagged).
  cbn [workers shared_output parallel_log] in *.
  destruct (Hw k w Ek) as ((j & Hj & Eindex) & Hbound & Hfresh & Hrel).
  destruct (worker_step_cases w w' cache cache' lg lg' Hsize ltac:(nia) Hbound Estep)
    as (Hlt & Hsize' & Hother & Elock & Ebatch & Elog & Enext).
  clear Estep.
  set (index := worker_index w) in *.
  set (v := VertexIndex src index) in *.
  assert (Hindex : 0 <= index) by nia.
  assert (Hv : 0 <= v < Z.of_nat size) by (apply vertices_in_cache; lia).
  assert (Hk : (k < length ws)%nat) by (eapply lookup_lt_Some; exact Ek).
  assert (Hnew : <[k := w']> ws !! k = Some w') by (apply list_lookup_insert_eq; exact Hk).
  assert (Hold : forall k0, k0 <> k -> <[k := w']> ws !! k0 = ws !! k0)
    by (intros k0 Hne; apply list_lookup_insert_ne; congruence).
  (* the worker that moved: where it is now *)
  assert (Hstay : worker_phase w' <> AtLoopHead ->
                  worker_index w' = index /\ worker_phase w' <> HoldsLock \/
                  worker_index w' = index /\ worker_phase w = AtLoopHead
                  /\ lock (cache_at cache v) = false).
  { intros Hph.
    destruct (worker_phase w) eqn:Ephase;
      [destruct (lock (cache_at cache v)) eqn:El
      | destruct (batch (cache_at cache v) =? batch_id) | | |];
      inversion Enext as [[Ei Ep]]; rewrite ?Ep in *; try congruence;
      try (left; split; [reflexivity | discriminate]).
    right. repeat split; reflexivity. }
  assert (Hstay_index : worker_phase w' <> AtLoopHead -> worker_index w' = index)
    by (intros Hph; destruct (Hstay Hph) as [[E _] | [E _]]; exact E).
  (* a holder of [v] before the step other than [k] excludes that [k] held it *)
  assert (Hsole : forall k0 w0, k0 <> k -> ws !! k0 = Some w0 -> holds_vertex src w0 v ->
                  worker_phase w = AtLoopHead).
  { intros k0 w0 Hne Hk0 Hh0.
    destruct (worker_phase w) eqn:Ephase; try reflexivity;
      exfalso; apply Hne; apply (Huniq k0 k w0 w v Hk0 Ek Hh0);
      (split; [rewrite Ephase; discriminate | reflexivity]). }
  (* tags only change to the batch id, and only at [v] when [k] publishes *)
  assert (Hbatch : forall v0, 0 <= v0 ->
            batch (cache_at cache' v0) = batch (cache_at cache v0)
            \/ (v0 = v /\ worker_phase w = Publishes
                /\ batch (cache_at cache' v0) = batch_id)).
  { intros v0 Hv0. destruct (Z.eq_dec v0 v) as [-> | Hnv].
    - destruct (worker_phase w) eqn:Ephase; try (left; exact Ebatch).
      right. repeat split. exact Ebatch.
    - left. rewrite Hother by assumption. reflexivity. }
  (* the holders of an entry other than [v] are the same before and after *)
  assert (Hholders : forall v0, v0 <> v ->
            (exists k0 w0, <[k := w']> ws !! k0 = Some w0 /\ holds_vertex src w0 v0)
            <-> (exists k0 w0, ws !! k0 = Some w0 /\ holds_vertex src w0 v0)).
  { intros v0 Hnv. split; intros (k0 & w0 & Hk0 & Hh0).
    - destruct (Nat.eq_dec k0 k) as [-> | Hne].
      + rewrite Hnew in Hk0. inversion Hk0. subst w0. destruct Hh0 as [Hph E].
        rewrite (Hstay_index Hph) in E. fold v in E. congruence.
      + rewrite Hold in Hk0 by exact Hne. exists k0, w0. split; assumption.
    - exists k0, w0. split; [| exact Hh0]. rewrite Hold; [exact Hk0 |].
      intros ->. rewrite Ek in Hk0. inversion Hk0. subst w0.
      destruct Hh0 as [_ E]. fold index in E. fold v in E. congruence. }
  unfold parallel_inv. cbn [workers shared_output parallel_log].
  split; [exact Hsize' |]. split; [| split; [| split; [| split; [| split]]]].
  - (* every worker *)
    intros k0 w0 Hk0. destruct (Nat.eq_dec k0 k) as [-> | Hne].
    + rewrite Hnew in Hk0. inversion Hk0. subst w0. clear Hk0.
      destruct (worker_phase w) eqn:Ephase.
      * destruct (lock (cache_at cache v)) eqn:El; inversion Enext as [[Ei Ep]];
          rewrite Ei, Ep.
        -- split; [exists (j + 1); split; lia |]. split; [congruence |].
           split; [intros [H | H]; discriminate H | intros H; discriminate H].
        -- split; [exists j; split; lia |]. split; [intros _; exact Hlt |].
           split; [intros [H | H]; discriminate H | intros H; discriminate H].
      * destruct (Z.eqb_spec (batch (cache_at cache v)) batch_id) as [Eb | Eb];
          inversion Enext as [[Ei Ep]]; rewrite Ei, Ep; fold v;
          (split; [exists j; split; lia |]); (split; [intros _; exact Hlt |]).
        -- split; [intros [H | H]; discriminate H |]. intros _. rewrite Ebatch. exact Eb.
        -- split; [| intros H; discriminate H]. intros _. rewrite Ebatch. exact Eb.
      * inversion Enext as [[Ei Ep]]. rewrite Ei, Ep. fold v.
        split; [exists j; split; lia |]. split; [intros _; exact Hlt |].
        split; [| intros H; discriminate H].
        intros _. rewrite Ebatch. apply Hfresh. left. reflexivity.
      * inversion Enext as [[Ei Ep]]. rewrite Ei, Ep. fold v.
        split; [exists j; split; lia |]. split; [intros _; exact Hlt |].
        split; [intros [H | H]; discriminate H |]. intros _. exact Ebatch.
      * inversion Enext as [[Ei Ep]]. rewrite Ei, Ep.
        split; [exists (j + 1); split; lia |]. split; [congruence |].
        split; [intros [H | H]; discriminate H | intros H; discriminate H].
    + rewrite Hold in Hk0 by exact Hne.
      destruct (Hw k0 w0 Hk0) as ((j0 & Hj0 & Eindex0) & Hb0 & Hf0 & Hr0).
      split; [exists j0; split; assumption |]. split; [exact Hb0 |].
      assert (Hsame : worker_phase w0 <> AtLoopHead ->
                batch (cache_at cache' (VertexIndex src (worker_index w0)))
                = batch (cache_at cache (VertexIndex src (worker_index w0)))).
      { intros Hph.
        assert (Hv0 : 0 <= VertexIndex src (worker_index w0))
          by (apply vertices_in_cache; specialize (Hb0 Hph); nia).
        destruct (Hbatch _ Hv0) as [E | (Ev & Ephase & _)]; [exact E |].
        exfalso. pose proof (Hsole k0 w0 Hne Hk0 (conj Hph Ev)) as Hhead. congruence. }
      split.
      * intros Hph. rewrite Hsame; [apply Hf0; exact Hph |].
        destruct Hph as [H | H]; rewrite H; discriminate.
      * intros Hph. rewrite Hsame; [apply Hr0; exact Hph |]. rewrite Hph. discriminate.
  - (* locks and holders *)
    intros v0 Hv0. destruct (Z.eq_dec v0 v) as [-> | Hnv].
    + rewrite Elock.
      destruct (worker_phase w) eqn:Ephase.
      * split; [intros _ | reflexivity].
        destruct (lock (cache_at cache v)) eqn:El; inversion Enext as [[Ei Ep]].
        -- apply (Hlock v ltac:(lia)) in El as (k1 & w1 & Hk1 & Hh1).
           exists k1, w1. split; [| exact Hh1]. rewrite Hold; [exact Hk1 |].
           intros ->. rewrite Ek in Hk1. inversion Hk1. subst w1.
           destruct Hh1 as [Hph _]. apply Hph. exact Ephase.
        -- exists k, w'. split; [exact Hnew |].
           split; [rewrite Ep; discriminate | rewrite Ei; reflexivity].
      * rewrite (Hlock v ltac:(lia)). split; intros _.
        -- exists k, w'. split; [exact Hnew |].
           destruct (batch (cache_at cache v) =? batch_id); inversion Enext as [[Ei Ep]];
             (split; [rewrite Ep; discriminate | rewrite Ei; reflexivity]).
        -- exists k, w. split; [exact Ek |].
           split; [rewrite Ephase; discriminate | reflexivity].
      * rewrite (Hlock v ltac:(lia)). inversion Enext as [[Ei Ep]]. split; intros _.
        -- exists k, w'. split; [exact Hnew |].
           split; [rewrite Ep; discriminate | rewrite Ei; reflexivity].
        -- exists k, w. split; [exact Ek |].
           split; [rewrite Ephase; discriminate | reflexivity].
      * rewrite (Hlock v ltac:(lia)). inversion Enext as [[Ei Ep]]. split; intros _.
        -- exists k, w'. split; [exact Hnew |].
           split; [rewrite Ep; discriminate | rewrite Ei; reflexivity].
        -- exists k, w. split; [exact Ek |].
           split; [rewrite Ephase; discriminate | reflexivity].
      * inversion Enext as [[Ei Ep]]. split; [discriminate |].
        intros (k1 & w1 & Hk1 & Hh1). exfalso.
        destruct (Nat.eq_dec k1 k) as [-> | Hne].
        -- rewrite Hnew in Hk1. inversion Hk1. subst w1.
           destruct Hh1 as [Hph _]. apply Hph. exact Ep.
        -- rewrite Hold in Hk1 by exact Hne.
           pose proof (Hsole k1 w1 Hne Hk1 Hh1) as Hhead. congruence.
    + rewrite Hother by assumption. rewrite (Hlock v0 Hv0).
      symmetry. apply Hholders. exact Hnv.
  - (* one holder per entry *)
    intros k1 k2 w1 w2 v0 Hk1 Hk2 Hh1 Hh2.
    assert (Hown : forall k0 w0, k0 <> k -> ws !! k0 = Some w0 -> holds_vertex src w0 v0 ->
                   holds_vertex src w' v0 -> False).
    { intros k0 w0 Hne Hk0 Hh0 [Hph E].
      rewrite (Hstay_index Hph) in E. fold v in E. subst v0.
      pose proof (Hsole k0 w0 Hne Hk0 Hh0) as Hhead.
      destruct (Hstay Hph) as [[_ Hnot] | (_ & _ & El)].
      - rewrite Hhead in Enext.
        destruct (lock (cache_at cache v)); inversion Enext as [[Ei Ep]]; congruence.
      - assert (Htaken : lock (cache_at cache v) = true)
          by (apply (Hlock v ltac:(lia)); exists k0, w0; split; assumption).
        congruence. }
    destruct (Nat.eq_dec k1 k) as [-> | Hne1], (Nat.eq_dec k2 k) as [-> | Hne2];
      try reflexivity.
    + rewrite Hnew in Hk1. inversion Hk1. subst w1.
      rewrite Hold in Hk2 by exact Hne2. destruct (Hown k2 w2 Hne2 Hk2 Hh2 Hh1).
    + rewrite Hnew in Hk2. inversion Hk2. subst w2.
      rewrite Hold in Hk1 by exact Hne1. destruct (Hown k1 w1 Hne1 Hk1 Hh1 Hh2).
    + rewrite Hold in Hk1 by exact Hne1. rewrite Hold in Hk2 by exact Hne2.
      exact (Huniq k1 k2 w1 w2 v0 Hk1 Hk2 Hh1 Hh2).
  - (* shader runs *)
    intros v0 Hv0.
    assert (Hpub : forall k0 w0, k0 <> k ->
              ws !! k0 = Some w0 -> worker_phase w0 = Publishes ->
              VertexIndex src (worker_index w0) = v0 -> v0 = v ->
              worker_phase w = AtLoopHead).
    { intros k0 w0 Hne Hk0 Hph E Ev. rewrite Ev in E.
      apply (Hsole k0 w0 Hne Hk0). split; [rewrite Hph; discriminate | exact E]. }
    assert (Hquiet : worker_phase w <> Shades -> worker_phase w <> Publishes ->
              lg' = lg
              /\ (shaded src batch_id (mkParallel (<[k := w']> ws) cache' lg') v0
                  <-> shaded src batch_id (mkParallel ws cache lg) v0)).
    { intros Hns Hnp.
      assert (Ephase' : worker_phase w' <> Publishes /\ lg' = lg).
      { destruct (worker_phase w) eqn:Ephase;
          [destruct (lock (cache_at cache v))
          | destruct (batch (cache_at cache v) =? batch_id) | | |];
          inversion Enext as [[Ei Ep]]; rewrite Ep;
          (split; [discriminate || congruence | exact Elog || congruence]). }
      destruct Ephase' as [Ephase' Elg]. split; [exact Elg |].
      assert (Etag : batch (cache_at cache' v0) = batch (cache_at cache v0))
        by (destruct (Hbatch v0 Hv0) as [E | (_ & E & _)]; [exact E | congruence]).
      unfold shaded. cbn [workers shared_output parallel_log]. rewrite Etag.
      split; intros [Hb | (k0 & w0 & Hk0 & Hph & E)]; try (left; exact Hb); right.
      - destruct (Nat.eq_dec k0 k) as [Ek0 | Hne].
        + rewrite Ek0, Hnew in Hk0. inversion Hk0. subst w0. congruence.
        + rewrite Hold in Hk0 by exact Hne. exists k0, w0. repeat split; assumption.
      - destruct (Nat.eq_dec k0 k) as [Ek0 | Hne].
        + rewrite Ek0, Ek in Hk0. inversion Hk0. subst w0. congruence.
        + exists k0, w0. split; [| split; assumption]. rewrite Hold; [exact Hk0 | exact Hne]. }
    destruct (worker_phase w) eqn:Ephase.
    1, 2, 5:
      destruct (Hquiet ltac:(discriminate) ltac:(discriminate)) as [Elg Hiff];
      rewrite Elg; destruct (Hruns v0 Hv0) as [H1 H0];
      (split; [intros Hs; apply H1, Hiff, Hs
              | intros Hs; apply H0; intros Hs'; apply Hs, Hiff, Hs']).
    + (* the shader has run for [v] *)
      inversion Enext as [[Ei Ep]]. subst lg'.
      rewrite shader_runs_app. cbn [shader_runs is_run_of].
      destruct (Z.eq_dec v0 v) as [-> | Hnv].
      * rewrite Z.eqb_refl.
        assert (Hnot : ~ shaded src batch_id (mkParallel ws cache lg) v).
        { unfold shaded. cbn [workers shared_output parallel_log].
          intros [Hb | (k0 & w0 & Hk0 & Hph & E)].
          - apply (Hfresh (or_introl eq_refl)). exact Hb.
          - destruct (Nat.eq_dec k0 k) as [-> | Hne].
            + rewrite Ek in Hk0. inversion Hk0. subst w0. congruence.
            + pose proof (Hpub k0 w0 Hne Hk0 Hph E eq_refl). congruence. }
        destruct (Hruns v ltac:(lia)) as [_ H0]. rewrite (H0 Hnot).
        split; [reflexivity |]. intros Hs. exfalso. apply Hs. right.
        exists k, w'. cbn [workers shared_output parallel_log].
        split; [exact Hnew |]. split; [exact Ep |].
        rewrite Ei. reflexivity.
      * destruct (Z.eqb_spec v v0) as [E | _]; [congruence |].
        assert (Hiff : shaded src batch_id (mkParallel (<[k := w']> ws) cache' lg) v0
                       <-> shaded src batch_id (mkParallel ws cache lg) v0).
        { unfold shaded. cbn [workers shared_output parallel_log].
          rewrite Hother by assumption.
          split; (intros [Hb | (k0 & w0 & Hk0 & Hph & E)]; [left; exact Hb | right]).
          - destruct (Nat.eq_dec k0 k) as [-> | Hne].
            + rewrite Hnew in Hk0. inversion Hk0. subst w0. rewrite Ei in E.
              fold v in E. congruence.
            + rewrite Hold in Hk0 by exact Hne. exists k0, w0. repeat split; assumption.
          - exists k0, w0. split; [| split; assumption]. rewrite Hold; [exact Hk0 |].
            intros ->. rewrite Ek in Hk0. inversion Hk0. subst w0. congruence. }
        destruct (Hruns v0 Hv0) as [H1 H0].
        split; [intros Hs; rewrite (H1 (proj1 Hiff Hs)); reflexivity |].
        intros Hs. rewrite H0; [reflexivity |]. intros Hs'. apply Hs, Hiff, Hs'.
    + (* the tag of [v] is stored *)
      inversion Enext as [[Ei Ep]]. subst lg'.
      destruct (Z.eq_dec v0 v) as [-> | Hnv].
      * destruct (Hruns v ltac:(lia)) as [H1 _].
        assert (Hwas : shaded src batch_id (mkParallel ws cache lg) v).
        { right. exists k, w. cbn [workers shared_output parallel_log].
          repeat split; assumption. }
        split; [intros _; exact (H1 Hwas) |].
        intros Hs. exfalso. apply Hs. left. cbn [shared_output]. exact Ebatch.
      * assert (Hiff : shaded src batch_id (mkParallel (<[k := w']> ws) cache' lg) v0
                       <-> shaded src batch_id (mkParallel ws cache lg) v0).
        { unfold shaded. cbn [workers shared_output parallel_log].
          rewrite Hother by assumption.
          split; (intros [Hb | (k0 & w0 & Hk0 & Hph & E)]; [left; exact Hb | right]).
          - destruct (Nat.eq_dec k0 k) as [-> | Hne].
            + rewrite Hnew in Hk0. inversion Hk0. subst w0. congruence.
            + rewrite Hold in Hk0 by exact Hne. exists k0, w0. repeat split; assumption.
          - exists k0, w0. split; [| split; assumption]. rewrite Hold; [exact Hk0 |].
            intros ->. rewrite Ek in Hk0. inversion Hk0. subst w0.
            fold index in E. fold v in E. congruence. }
        destruct (Hruns v0 Hv0) as [H1 H0].
        split; [intros Hs; exact (H1 (proj1 Hiff Hs)) |].
        intros Hs. apply H0. intros Hs'. apply Hs, Hiff, Hs'.
  - (* the loop indices a worker has passed *)
    assert (Hkeep : forall i, 0 <= i < n_vertices ->
              (batch (cache_at cache (VertexIndex src i)) = batch_id
               \/ exists k1 w1, ws !! k1 = Some w1 /\ holds_vertex src w1 (VertexIndex src i)) ->
              batch (cache_at cache' (VertexIndex src i)) = batch_id
              \/ exists k1 w1, <[k := w']> ws !! k1 = Some w1
                               /\ holds_vertex src w1 (VertexIndex src i)).
    { intros i Hi [Hb | (k1 & w1 & Hk1 & Hh1)].
      - left. destruct (Hbatch (VertexIndex src i) ltac:(apply vertices_in_cache; exact Hi))
          as [E | (_ & _ & E)]; congruence.
      - destruct (Nat.eq_dec k1 k) as [-> | Hne].
        + rewrite Ek in Hk1. inversion Hk1. subst w1. destruct Hh1 as [Hph Ev].
          fold index in Ev. fold v in Ev. rewrite <- Ev.
          destruct (worker_phase w) eqn:Ephase; try congruence.
          * right. exists k, w'. split; [exact Hnew |].
            destruct (batch (cache_at cache v) =? batch_id); inversion Enext as [[Ei Ep]];
              (split; [rewrite Ep; discriminate | rewrite Ei; reflexivity]).
          * right. exists k, w'. split; [exact Hnew |]. inversion Enext as [[Ei Ep]].
            split; [rewrite Ep; discriminate | rewrite Ei; reflexivity].
          * right. exists k, w'. split; [exact Hnew |]. inversion Enext as [[Ei Ep]].
            split; [rewrite Ep; discriminate | rewrite Ei; reflexivity].
          * left. rewrite Ebatch. apply Hrel. reflexivity.
        + right. exists k1, w1. split; [| exact Hh1]. rewrite Hold; [exact Hk1 | exact Hne]. }
    intros k0 w0 i Hk0 Hi Hpast Hmine.
    destruct (Nat.eq_dec k0 k) as [-> | Hne].
    + rewrite Hnew in Hk0. inversion Hk0. subst w0. clear Hk0.
      destruct (Z.lt_ge_cases i index) as [Hbefore | Hnow].
      * apply Hkeep; [exact Hi |]. apply (Hpassed k w i Ek Hi Hbefore Hmine).
      * (* the worker has just left loop index [i] *)
        destruct Hmine as (j1 & Hj1 & Ei1).
        assert (Hcase : worker_index w' = index + threads -> i = index).
        { intros Ew. rewrite Ew in Hpast.
          assert (j <= j1) by (apply (Z.mul_le_mono_pos_r _ _ threads); lia).
          assert (j1 < j + 1) by (apply (Z.mul_lt_mono_pos_r threads); lia).
          assert (j1 = j) by lia. subst j1. lia. }
        destruct (worker_phase w) eqn:Ephase;
          [destruct (lock (cache_at cache v)) eqn:El
          | destruct (batch (cache_at cache v) =? batch_id) | | |];
          inversion Enext as [[Ei Ep]]; try (rewrite Ei in Hpast; lia);
          rewrite (Hcase Ei); fold v.
        -- apply (Hlock v ltac:(lia)) in El as (k1 & w1 & Hk1 & Hh1).
           right. exists k1, w1. split; [| exact Hh1]. rewrite Hold; [exact Hk1 |].
           intros ->. rewrite Ek in Hk1. inversion Hk1. subst w1.
           destruct Hh1 as [Hph _]. apply Hph. exact Ephase.
        -- left. rewrite Ebatch. apply Hrel. reflexivity.
    + rewrite Hold in Hk0 by exact Hne.
      apply Hkeep; [exact Hi |]. apply (Hpassed k0 w0 i Hk0 Hi Hpast Hmine).
  - (* tagged entries are entries of vertices of the draw *)
    intros v0 Hv0 Hb. destruct (Hbatch v0 Hv0) as [E | (-> & _ & _)].
    + apply (Htagged v0 Hv0). congruence.
    + exists index. split; [lia | reflexivity].
Qed.

Lemma run_schedule_inv (schedule : list nat) :
  forall p : Parallel,
  parallel_inv src batch_id n_vertices threads size p ->
  parallel_inv src batch_id n_vertices threads size
    (run_schedule src gs_used batch_id n_vertices threads schedule p).
Proof.
  induction schedule as [| k schedule IH]; intros p Hinv; [exact Hinv |].
  cbn [run_schedule fold_left]. apply IH. apply schedule_step_inv. exact Hinv.
Qed.

Lemma start_workers_lookup (cache : list Cached) (k : nat) (w : Worker) :
  workers (start_workers threads cache) !! k = Some w ->
  worker_index w = Z.of_nat k /\ worker_phase w = AtLoopHead.
Proof.
  unfold start_workers. cbn [workers]. rewrite list_lookup_fmap.
  destruct (push_jobs (Z.to_nat threads) 0 threads !! k) as [job |] eqn:E; [| discriminate].
  assert (Hk : (k < Z.to_nat threads)%nat)
    by (apply lookup_lt_Some in E; rewrite length_push_jobs in E; exact E).
  rewrite push_jobs_lookup in E by exact Hk. inversion E. subst job.
  cbn. intros Hw. inversion Hw. cbn. split; [lia | reflexivity].
Qed.

Lemma start_workers_inv (cache : list Cached) :
  length cache = size ->
  1 <= batch_id ->
  Forall (fun entry => lock entry = false /\ 0 <= batch entry < batch_id) cache ->
  parallel_inv src batch_id n_vertices threads size (start_workers threads cache).
Proof.
  intros Hsize Hid Hfresh.
  assert (Hentry : forall v, lock (cache_at cache v) = false
                             /\ batch (cache_at cache v) <> batch_id).
  { intros v. unfold cache_at. destruct (cache !! Z.to_nat v) as [entry |] eqn:E; cbn.
    - rewrite Forall_forall in Hfresh.
      destruct (Hfresh entry ltac:(eapply list_elem_of_lookup_2; exact E)) as [Hl Hb].
      split; [exact Hl | lia].
    - split; [reflexivity | lia]. }
  assert (Hidle : forall k w v, workers (start_workers threads cache) !! k = Some w ->
                    ~ holds_vertex src w v).
  { intros k w v Hk [Hph _]. apply start_workers_lookup in Hk as [_ E]. congruence. }
  unfold parallel_inv, shaded.
  change (shared_output (start_workers threads cache)) with cache.
  change (parallel_log (start_workers threads cache))
    with (@nil (DrawEvent AttributeBuffer OutputVertex)).
  split; [exact Hsize |]. split; [| split; [| split; [| split; [| split]]]].
  - intros k w Hk. apply start_workers_lookup in Hk as [Ei Ep]. rewrite Ei, Ep.
    split; [exists 0; split; lia |]. split; [congruence |].
    split; [intros [H | H]; discriminate H | intros H; discriminate H].
  - intros v Hv. split.
    + intros Hl. destruct (Hentry v) as [E _]. congruence.
    + intros (k & w & Hk & Hh). destruct (Hidle k w v Hk Hh).
  - intros k k' w w' v Hk _ Hh _. destruct (Hidle k w v Hk Hh).
  - intros v Hv. split; [| reflexivity].
    intros [Hb | (k & w & Hk & Hph & _)].
    + destruct (Hentry v) as [_ E]. destruct (E Hb).
    + apply start_workers_lookup in Hk as [_ E]. congruence.
  - intros k w i Hk Hi Hpast (j & Hj & Ei).
    apply start_workers_lookup in Hk as [E _]. nia.
  - intros v Hv Hb. destruct (Hentry v) as [_ E]. destruct (E Hb).
Qed.

(** Whether a worker is about to tag the entry of [v] can be told. *)
Lemma publisher_or_not (ws : list Worker) (v : Z) :
  (exists k w, ws !! k = Some w /\ worker_phase w = Publishes
               /\ VertexIndex src (worker_index w) = v)
  \/ ~ (exists k w, ws !! k = Some w /\ worker_phase w = Publishes
                    /\ VertexIndex src (worker_index w) = v).
Proof.
  induction ws as [| w ws IH].
  - right. intros (k & w & Hk & _). destruct k; discriminate.
  - destruct IH as [(k & w0 & Hk & Hw0) | Hnone].
    + left. exists (S k), w0. split; [exact Hk | exact Hw0].
    + destruct (Z.eq_dec (VertexIndex src (worker_index w)) v) as [Ev | Hnv].
      * destruct (worker_phase w) eqn:Ephase;
          try (right; intros (k & w0 & Hk & Hph & E); destruct k as [| k];
               [cbn in Hk; inversion Hk; subst w0; congruence
               | apply Hnone; exists k, w0; repeat split; assumption]).
        left. exists O, w. repeat split; assumption.
      * right. intros (k & w0 & Hk & Hph & E). destruct k as [| k].
        -- cbn in Hk. inversion Hk. subst w0. congruence.
        -- apply Hnone. exists k, w0. repeat split; assumption.
Qed.

Lemma run_schedule_workers (schedule : list nat) :
  forall p : Parallel,
  length (workers (run_schedule src gs_used batch_id n_vertices threads schedule p))
  = length (workers p).
Proof.
  induction schedule as [| k schedule IH]; intros p; [reflexivity |].
  cbn [run_schedule fold_left].
  fold (run_schedule src gs_used batch_id n_vertices threads schedule
          (schedule_step src gs_used batch_id n_vertices threads k p)).
  rewrite IH. unfold schedule_step.
  destruct (workers p !! k); [| reflexivity].
  destruct (worker_step _ _ _ _ _ _ _ _) as [[[w' c'] l'] |]; [| reflexivity].
  cbn [workers]. apply length_insert.
Qed.

Lemma start_workers_length (cache : list Cached) :
  length (workers (start_workers threads cache)) = Z.to_nat threads.
Proof.
  unfold start_workers. cbn. rewrite length_map, length_push_jobs. reflexivity.
Qed.

(** When the workers are done the whole index array has been seen to. *)
Lemma all_shaded_when_done (p : Parallel) :
  parallel_inv src batch_id n_vertices threads size p ->
  length (workers p) = Z.to_nat threads ->
  workers_done n_vertices p ->
  (forall i, 0 <= i < n_vertices ->
     batch (cache_at (shared_output p) (VertexIndex src i)) = batch_id
     /\ shader_runs (VertexIndex src i) (parallel_log p) = 1%nat)
  /\ (forall v, 0 <= v -> lock (cache_at (shared_output p) v) = false).
Proof.
  intros (_ & Hw & Hlock & _ & Hruns & Hpassed & Htagged) Hlen Hdone.
  assert (Hidle : forall v, ~ exists k w, workers p !! k = Some w /\ holds_vertex src w v).
  { intros v (k & w & Hk & Hph & _). destruct (Hdone k w Hk) as [E _]. congruence. }
  split.
  - intros i Hi.
    assert (Hv : 0 <= VertexIndex src i) by (apply vertices_in_cache; exact Hi).
    assert (Hb : batch (cache_at (shared_output p) (VertexIndex src i)) = batch_id).
    { (* the worker whose stride meets [i] has passed it *)
      pose proof (Z.mod_pos_bound i threads threads_positive) as Hmod.
      pose proof (Z.div_mod i threads ltac:(lia)) as Hdm.
      assert (Hq : 0 <= i / threads) by (apply Z.div_pos; lia).
      destruct (lookup_lt_is_Some_2 (workers p) (Z.to_nat (i mod threads))
                  ltac:(lia)) as [w Hk].
      destruct (Hdone _ w Hk) as [_ Hover].
      destruct (Hpassed _ w i Hk Hi ltac:(lia)) as [Hb | Hheld].
      - exists (i / threads). split; [exact Hq | lia].
      - exact Hb.
      - destruct (Hidle _ Hheld). }
    split; [exact Hb |]. destruct (Hruns _ Hv) as [H1 _]. apply H1. left. exact Hb.
  - intros v Hv. destruct (lock (cache_at (shared_output p) v)) eqn:El; [| reflexivity].
    apply (Hlock v Hv) in El. destruct (Hidle v El).
Qed.

(** X18.  The workers of an indexed draw, however their steps interleave
    (every access to a lock or a batch tag is one step, and the schedule
    is arbitrary): no vertex is shaded twice; a vertex the index array does
    not hold is not shaded; an entry that carries the batch id, which is
    what the consumption loop waits for, belongs to a vertex that has been
    shaded, exactly once; and once all workers have left their loops every
    vertex of the index array has been shaded exactly once, its entry is
    tagged with the batch id, and every lock is clear again.  A worker
    that finds an entry locked skips the vertex: the worker holding the
    lock sees to it. *)
Theorem workers_shade_each_vertex_once (schedule : list nat) (cache : list Cached) :
  length cache = size ->
  1 <= batch_id ->
  Forall (fun entry => lock entry = false /\ 0 <= batch entry < batch_id) cache ->
  let p := run_schedule src gs_used batch_id n_vertices threads schedule
             (start_workers threads cache) in
  (forall v, 0 <= v -> (shader_runs v (parallel_log p) <= 1)%nat)
  /\ (forall v, 0 <= v -> (forall i, 0 <= i < n_vertices -> VertexIndex src i <> v) ->
        shader_runs v (parallel_log p) = 0%nat)
  /\ (forall v, 0 <= v -> batch (cache_at (shared_output p) v) = batch_id ->
        shader_runs v (parallel_log p) = 1%nat)
  /\ (workers_done n_vertices p ->
      (forall i, 0 <= i < n_vertices ->
         batch (cache_at (shared_output p) (VertexIndex src i)) = batch_id
         /\ shader_runs (VertexIndex src i) (parallel_log p) = 1%nat)
      /\ (forall v, 0 <= v -> lock (cache_at (shared_output p) v) = false)).
Proof.
  intros Hsize Hid Hfresh p.
  pose proof (run_schedule_inv schedule _ (start_workers_inv cache Hsize Hid Hfresh)) as Hinv.
  fold p in Hinv.
  pose proof Hinv as (_ & Hw & Hlock & _ & Hruns & Hpassed & Htagged).
  split; [| split; [| split]].
  - intros v Hv. destruct (Hruns v Hv) as [H1 H0].
    destruct (Z.eq_dec (batch (cache_at (shared_output p) v)) batch_id) as [Hb | Hb].
    + rewrite H1; [lia | left; exact Hb].
    + destruct (publisher_or_not (workers p) v) as [Hpub | Hnone].
      * rewrite H1; [lia | right; exact Hpub].
      * rewrite H0; [lia |]. intros [Hb' | Hpub]; [exact (Hb Hb') | exact (Hnone Hpub)].
  - intros v Hv Hnone. destruct (Hruns v Hv) as [_ H0]. apply H0.
    intros [Hb | (k & w & Hk & Hph & E)].
    + destruct (Htagged v Hv Hb) as (i & Hi & Ei). exact (Hnone i Hi Ei).
    + destruct (Hw k w Hk) as ((j & Hj & Ej) & Hbound & _).
      apply (Hnone (worker_index w)); [| exact E].
      split; [nia | apply Hbound; rewrite Hph; discriminate].
  - intros v Hv Hb. destruct (Hruns v Hv) as [H1 _]. apply H1. left. exact Hb.
  - apply all_shaded_when_done; [exact Hinv |].
    subst p. rewrite run_schedule_workers. apply start_workers_length.
Qed.

(** Only the shading step writes the output of an entry. *)
Lemma worker_step_output (w w' : Worker) (cache cache' : list Cached) (lg lg' : DrawLog)
    (v0 : Z) :
  0 <= v0 ->
  0 <= VertexIndex src (worker_index w) < Z.of_nat (length cache) ->
  worker_step src gs_used batch_id n_vertices threads w cache lg = Some (w', cache', lg') ->
  worker_phase w = Shades /\ VertexIndex src (worker_index w) = v0
  \/ cached_output (cache_at cache' v0) = cached_output (cache_at cache v0).
Proof.
  intros Hv0 Hv Hstep. unfold worker_step in Hstep. rewrite draw_is_indexed in Hstep.
  set (v := VertexIndex src (worker_index w)) in *.
  assert (Hset : forall entry : Cached,
            cached_output entry = cached_output (cache_at cache v) ->
            cached_output (cache_at (array_set cache v entry) v0)
            = cached_output (cache_at cache v0)).
  { intros entry E. destruct (Z.eq_dec v0 v) as [-> | Hne].
    - rewrite cache_at_array_set_eq by exact Hv. exact E.
    - rewrite cache_at_array_set_ne by lia. reflexivity. }
  destruct (worker_phase w) eqn:Ephase.
  - destruct (worker_index w <? n_vertices); [| discriminate].
    destruct (lock (cache_at cache v)); inversion Hstep; subst cache'; right;
      [reflexivity | apply Hset; reflexivity].
  - destruct (batch (cache_at cache v) =? batch_id); inversion Hstep; subst cache';
      right; reflexivity.
  - destruct (run_vertex_shader _ _ _ _) as [unit' attr]. inversion Hstep. subst cache'.
    destruct (Z.eq_dec v0 v) as [-> | Hne]; [left; split; reflexivity | right].
    rewrite cache_at_array_set_ne by lia. reflexivity.
  - inversion Hstep. subst cache'. right. apply Hset. reflexivity.
  - inversion Hstep. subst cache'. right. apply Hset. reflexivity.
Qed.

Lemma run_schedule_app (s1 s2 : list nat) (p : Parallel) :
  run_schedule src gs_used batch_id n_vertices threads (s1 ++ s2) p
  = run_schedule src gs_used batch_id n_vertices threads s2
      (run_schedule src gs_used batch_id n_vertices threads s1 p).
Proof.
  unfold run_schedule. apply fold_left_app.
Qed.

(** A tagged entry is left alone by every further step. *)
Lemma tagged_entry_is_stable (schedule : list nat) (v : Z) :
  forall p : Parallel,
  parallel_inv src batch_id n_vertices threads size p ->
  0 <= v ->
  batch (cache_at (shared_output p) v) = batch_id ->
  let p' := run_schedule src gs_used batch_id n_vertices threads schedule p in
  batch (cache_at (shared_output p') v) = batch_id
  /\ cached_output (cache_at (shared_output p') v) = cached_output (cache_at (shared_output p) v).
Proof.
  induction schedule as [| k schedule IH]; intros p Hinv Hv Hb p'; [split; [exact Hb | reflexivity] |].
  subst p'. cbn [run_schedule fold_left].
  fold (run_schedule src gs_used batch_id n_vertices threads schedule
          (schedule_step src gs_used batch_id n_vertices threads k p)).
  pose proof (schedule_step_inv k p Hinv) as Hinv'.
  assert (Hstep : batch (cache_at (shared_output
                           (schedule_step src gs_used batch_id n_vertices threads k p)) v)
                  = batch_id
                  /\ cached_output (cache_at (shared_output
                           (schedule_step src gs_used batch_id n_vertices threads k p)) v)
                     = cached_output (cache_at (shared_output p) v)).
  { unfold schedule_step.
    destruct (workers p !! k) as [w |] eqn:Ek; [| split; [exact Hb | reflexivity]].
    destruct (worker_step src gs_used batch_id n_vertices threads w
                (shared_output p) (parallel_log p))
      as [[[w' cache'] lg'] |] eqn:Estep; [| split; [exact Hb | reflexivity]].
    cbn [shared_output].
    destruct Hinv as (Hsize & Hw & _).
    destruct (Hw k w Ek) as ((j & Hj & Eindex) & Hbound & Hfresh & _).
    destruct (worker_step_cases w w' _ cache' _ lg' Hsize ltac:(nia) Hbound Estep)
      as (Hlt & _ & Hother & _ & Ebatch & _).
    assert (Hin : 0 <= VertexIndex src (worker_index w) < Z.of_nat (length (shared_output p)))
      by (rewrite Hsize; apply vertices_in_cache; nia).
    split.
    - destruct (Z.eq_dec v (VertexIndex src (worker_index w))) as [-> | Hne].
      + rewrite Ebatch. destruct (worker_phase w); try exact Hb. reflexivity.
      + rewrite Hother by assumption. exact Hb.
    - destruct (worker_step_output w w' _ cache' _ lg' v Hv Hin Estep) as [[Eph Ev] | E];
        [| exact E].
      exfalso. apply (Hfresh (or_introl Eph)). rewrite Ev. exact Hb. }
  destruct Hstep as [Hb' Ho'].
  destruct (IH _ Hinv' Hv Hb') as [Hb'' Ho'']. split; [exact Hb'' |].
  rewrite Ho''. exact Ho'.
Qed.

(** X19.  What the consumption loop reads is final.  The loop waits for
    the entry of a vertex to carry the batch id and then reads its output
    while workers may still be running.  From the moment an entry carries
    the batch id no step of any worker writes its output or its tag again,
    whatever the interleaving: the output read after the wait is the output
    the entry has when all workers are done. *)
Theorem tagged_output_is_final (before after : list nat) (cache : list Cached) (v : Z) :
  length cache = size ->
  1 <= batch_id ->
  Forall (fun entry => lock entry = false /\ 0 <= batch entry < batch_id) cache ->
  0 <= v ->
  let seen := run_schedule src gs_used batch_id n_vertices threads before
                (start_workers threads cache) in
  let later := run_schedule src gs_used batch_id n_vertices threads (before ++ after)
                 (start_workers threads cache) in
  batch (cache_at (shared_output seen) v) = batch_id ->
  batch (cache_at (shared_output later) v) = batch_id
  /\ cached_output (cache_at (shared_output later) v)
     = cached_output (cache_at (shared_output seen) v).
Proof.
  intros Hsize Hid Hfresh Hv seen later Hb. subst later. rewrite run_schedule_app.
  fold seen. apply tagged_entry_is_stable; [| exact Hv | exact Hb].
  apply run_schedule_inv. apply start_workers_inv; assumption.
Qed.

(** ** The workers come to an end *)

Lemma total_fuel_insert (ws : list Worker) (k : nat) (w w' : Worker) :
  ws !! k = Some w ->
  total_fuel n_vertices threads (<[k := w']> ws)
  = total_fuel n_vertices threads ws - worker_fuel n_vertices threads w
    + worker_fuel n_vertices threads w'.
Proof.
  unfold total_fuel. revert k.
  induction ws as [| w0 ws IH]; intros k Hk; [destruct k; discriminate |].
  destruct k as [| k]; simpl in Hk |- *.
  - inversion Hk. subst w0. lia.
  - rewrite (IH k Hk). lia.
Qed.

Lemma worker_fuel_bounds (w : Worker) :
  0 <= worker_index w ->
  (worker_phase w <> AtLoopHead -> worker_index w < n_vertices) ->
  0 <= worker_fuel n_vertices threads w
  /\ (worker_index w < n_vertices ->
      Z.max 0 (n_vertices + threads - 1 - (worker_index w + threads)) / threads
      = Z.max 0 (n_vertices + threads - 1 - worker_index w) / threads - 1
      /\ 1 <= Z.max 0 (n_vertices + threads - 1 - worker_index w) / threads).
Proof.
  intros Hindex Hbound. unfold worker_fuel.
  pose proof (Z.div_pos (Z.max 0 (n_vertices + threads - 1 - worker_index w)) threads
                ltac:(lia) threads_positive) as Hq.
  assert (Hactive : worker_index w < n_vertices ->
            Z.max 0 (n_vertices + threads - 1 - (worker_index w + threads)) / threads
            = Z.max 0 (n_vertices + threads - 1 - worker_index w) / threads - 1
            /\ 1 <= Z.max 0 (n_vertices + threads - 1 - worker_index w) / threads).
  { intros Hlt. rewrite !Z.max_r by lia.
    replace (n_vertices + threads - 1 - worker_index w)
      with (n_vertices + threads - 1 - (worker_index w + threads) + 1 * threads) by lia.
    rewrite Z.div_add by lia.
    pose proof (Z.div_pos (n_vertices + threads - 1 - (worker_index w + threads)) threads
                  ltac:(lia) threads_positive).
    lia. }
  split; [| exact Hactive].
  destruct (worker_phase w) eqn:Ephase; cbn [phase_rank]; try lia;
    destruct (Hactive ltac:(apply Hbound; discriminate)) as [_ H1]; lia.
Qed.

(** A step of a worker uses up some of its fuel. *)
Lemma worker_step_fuel (w w' : Worker) (cache cache' : list Cached) (lg lg' : DrawLog) :
  length cache = size ->
  0 <= worker_index w ->
  (worker_phase w <> AtLoopHead -> worker_index w < n_vertices) ->
  worker_step src gs_used batch_id n_vertices threads w cache lg = Some (w', cache', lg') ->
  worker_fuel n_vertices threads w' + 1 <= worker_fuel n_vertices threads w.
Proof.
  intros Hsize Hindex Hbound Estep.
  destruct (worker_step_cases w w' cache cache' lg lg' Hsize Hindex Hbound Estep)
    as (Hlt & _ & _ & _ & _ & _ & Enext).
  destruct (worker_fuel_bounds w Hindex Hbound) as [_ Hactive].
  destruct (Hactive Hlt) as [Emoved Hleft].
  unfold worker_fuel.
  destruct (worker_phase w) eqn:Ephase;
    [destruct (lock (cache_at cache (VertexIndex src (worker_index w))))
    | destruct (batch (cache_at cache (VertexIndex src (worker_index w))) =? batch_id) | | |];
    inversion Enext as [[Ei Ep]]; rewrite Ei, Ep, ?Emoved; cbn [phase_rank]; lia.
Qed.

(** Every step that is made uses up fuel. *)
Lemma schedule_step_fuel (k : nat) (p : Parallel) :
  parallel_inv src batch_id n_vertices threads size p ->
  worker_moves src gs_used batch_id n_vertices threads k p = true ->
  total_fuel n_vertices threads
    (workers (schedule_step src gs_used batch_id n_vertices threads k p)) + 1
  <= total_fuel n_vertices threads (workers p).
Proof.
  intros Hinv Hmoves. unfold worker_moves in Hmoves. unfold schedule_step.
  destruct (workers p !! k) as [w |] eqn:Ek; [| discriminate].
  destruct (worker_step src gs_used batch_id n_vertices threads w
              (shared_output p) (parallel_log p))
    as [[[w' cache'] lg'] |] eqn:Estep; [| discriminate].
  cbn [workers]. rewrite (total_fuel_insert _ k w w' Ek).
  destruct Hinv as (Hsize & Hw & _).
  destruct (Hw k w Ek) as ((j & Hj & Eindex) & Hbound & _).
  pose proof (worker_step_fuel w w' _ cache' _ lg' Hsize ltac:(nia) Hbound Estep). lia.
Qed.

Lemma total_fuel_nonnegative (p : Parallel) :
  parallel_inv src batch_id n_vertices threads size p ->
  0 <= total_fuel n_vertices threads (workers p).
Proof.
  intros (_ & Hw & _).
  assert (Hall : forall ws : list Worker,
            (forall w, w ∈ ws -> 0 <= worker_fuel n_vertices threads w) ->
            0 <= total_fuel n_vertices threads ws).
  { induction ws as [| w ws IH]; intros Hws; [cbn; lia |].
    pose proof (Hws w ltac:(apply list_elem_of_here)).
    pose proof (IH ltac:(intros w0 Hin; apply Hws, list_elem_of_further, Hin)).
    unfold total_fuel in *. cbn [foldr]. lia. }
  apply Hall. intros w Hin. apply list_elem_of_lookup_1 in Hin as [k Hk].
  destruct (Hw k w Hk) as ((j & Hj & Eindex) & Hbound & _).
  apply worker_fuel_bounds; [nia | exact Hbound].
Qed.

Lemma steps_made_bound (schedule : list nat) :
  forall p : Parallel,
  parallel_inv src batch_id n_vertices threads size p ->
  0 <= steps_made src gs_used batch_id n_vertices threads schedule p
    <= total_fuel n_vertices threads (workers p).
Proof.
  induction schedule as [| k schedule IH]; intros p Hinv.
  - cbn [steps_made]. pose proof (total_fuel_nonnegative p Hinv). lia.
  - cbn [steps_made].
    pose proof (IH _ (schedule_step_inv k p Hinv)) as Hrest.
    destruct (worker_moves src gs_used batch_id n_vertices threads k p) eqn:Emoves.
    + pose proof (schedule_step_fuel k p Hinv Emoves). lia.
    + assert (Esame : schedule_step src gs_used batch_id n_vertices threads k p = p).
      { unfold worker_moves in Emoves. unfold schedule_step.
        destruct (workers p !! k); [| reflexivity].
        destruct (worker_step _ _ _ _ _ _ _ _); [discriminate | reflexivity]. }
      rewrite Esame in Hrest |- *. lia.
Qed.

Lemma start_workers_fuel (cache : list Cached) :
  0 <= n_vertices ->
  total_fuel n_vertices threads (workers (start_workers threads cache))
  <= 5 * threads * (n_vertices / threads + 1).
Proof.
  intros Hn.
  assert (Hall : forall (ws : list Worker) (bound : Z),
            (forall w, w ∈ ws -> worker_fuel n_vertices threads w <= bound) ->
            total_fuel n_vertices threads ws <= Z.of_nat (length ws) * bound).
  { induction ws as [| w ws IH]; intros bound Hws; [cbn; lia |].
    pose proof (Hws w ltac:(apply list_elem_of_here)).
    pose proof (IH bound ltac:(intros w0 Hin; apply Hws, list_elem_of_further, Hin)).
    unfold total_fuel in *. cbn [foldr length]. lia. }
  specialize (Hall (workers (start_workers threads cache)) (5 * (n_vertices / threads + 1))).
  assert (Hlen : length (workers (start_workers threads cache)) = Z.to_nat threads).
  { unfold start_workers. cbn. rewrite length_map, length_push_jobs. reflexivity. }
  rewrite Hlen in Hall. rewrite Z2Nat.id in Hall by lia.
  replace (5 * threads * (n_vertices / threads + 1))
    with (threads * (5 * (n_vertices / threads + 1))) by lia.
  apply Hall. intros w Hin. apply list_elem_of_lookup_1 in Hin as [k Hk].
  apply start_workers_lookup in Hk as [Ei Ep].
  unfold worker_fuel. rewrite Ei, Ep. cbn [phase_rank].
  assert (Z.max 0 (n_vertices + threads - 1 - Z.of_nat k) / threads
          <= n_vertices / threads + 1).
  { replace (n_vertices / threads + 1) with ((n_vertices + 1 * threads) / threads)
      by (rewrite Z.div_add by lia; reflexivity).
    apply Z.div_le_mono; lia. }
  lia.
Qed.

(** X20.  The workers cannot keep one another busy.  A worker never
    waits for a lock (it skips the vertex instead), so each of its steps
    brings it nearer to the end of its loop: at most five steps per loop
    index.  In any interleaving the workers of a draw make at most
    [5 * threads * (num_vertices / threads + 1)] steps altogether. *)
Theorem workers_make_bounded_steps (schedule : list nat) (cache : list Cached) :
  length cache = size ->
  1 <= batch_id ->
  Forall (fun entry => lock entry = false /\ 0 <= batch entry < batch_id) cache ->
  0 <= n_vertices ->
  0 <= steps_made src gs_used batch_id n_vertices threads schedule
         (start_workers threads cache)
    <= 5 * threads * (n_vertices / threads + 1).
Proof.
  intros Hsize Hid Hfresh Hn.
  pose proof (steps_made_bound schedule _ (start_workers_inv cache Hsize Hid Hfresh)).
  pose proof (start_workers_fuel cache Hn). lia.
Qed.

(** A worker without a step has left its loop. *)
Lemma worker_step_none (w : Worker) (cache : list Cached) (lg : DrawLog) :
  worker_step src gs_used batch_id n_vertices threads w cache lg = None ->
  worker_phase w = AtLoopHead /\ n_vertices <= worker_index w.
Proof.
  unfold worker_step. rewrite draw_is_indexed.
  destruct (worker_phase w).
  - destruct (Z.ltb_spec (worker_index w) n_vertices) as [Hlt | Hge].
    + destruct (lock _); discriminate.
    + intros _. split; [reflexivity | exact Hge].
  - destruct (_ =? _); discriminate.
  - destruct (run_vertex_shader _ _ _ _). discriminate.
  - discriminate.
  - discriminate.
Qed.

Lemma worker_fuel_spent (w : Worker) :
  0 <= worker_index w ->
  (worker_phase w <> AtLoopHead -> worker_index w < n_vertices) ->
  worker_fuel n_vertices threads w <= 0 ->
  worker_phase w = AtLoopHead /\ n_vertices <= worker_index w.
Proof.
  intros Hindex Hbound Hfuel.
  destruct (worker_fuel_bounds w Hindex Hbound) as [_ Hactive].
  assert (Hover : n_vertices <= worker_index w).
  { destruct (Z.lt_ge_cases (worker_index w) n_vertices) as [Hlt | Hge]; [| exact Hge].
    destruct (Hactive Hlt) as [_ H1]. unfold worker_fuel in Hfuel.
    destruct (worker_phase w); cbn [phase_rank] in Hfuel; lia. }
  split; [| exact Hover].
  destruct (worker_phase w) eqn:Ephase; try reflexivity;
    specialize (Hbound ltac:(discriminate)); lia.
Qed.

(** Each turn of a worker uses up some of its fuel, until it is done. *)
Lemma worker_progress (k : nat) (schedule : list nat) :
  forall (p : Parallel) (w : Worker),
  parallel_inv src batch_id n_vertices threads size p ->
  workers p !! k = Some w ->
  exists w',
    workers (run_schedule src gs_used batch_id n_vertices threads schedule p) !! k = Some w'
    /\ ((worker_phase w' = AtLoopHead /\ n_vertices <= worker_index w')
        \/ worker_fuel n_vertices threads w' + turns k schedule
           <= worker_fuel n_vertices threads w).
Proof.
  induction schedule as [| k0 schedule IH]; intros p w Hinv Hk.
  - exists w. split; [exact Hk |]. right. cbn [turns]. lia.
  - cbn [run_schedule fold_left turns].
    fold (run_schedule src gs_used batch_id n_vertices threads schedule
            (schedule_step src gs_used batch_id n_vertices threads k0 p)).
    pose proof (schedule_step_inv k0 p Hinv) as Hinv1.
    destruct (Nat.eqb_spec k0 k) as [-> | Hne].
    + (* the worker's own turn *)
      assert (Hturn : exists w1,
                workers (schedule_step src gs_used batch_id n_vertices threads k p) !! k
                = Some w1
                /\ worker_fuel n_vertices threads w1 + 1 <= worker_fuel n_vertices threads w
                   \/ (workers (schedule_step src gs_used batch_id n_vertices threads k p) !! k
                       = Some w1
                       /\ w1 = w /\ worker_fuel n_vertices threads w <= 0)).
      { destruct Hinv as (Hsize & Hw & _).
        destruct (Hw k w Hk) as ((j & Hj & Eindex) & Hbound & _).
        unfold schedule_step. rewrite Hk.
        destruct (worker_step src gs_used batch_id n_vertices threads w
                    (shared_output p) (parallel_log p))
          as [[[w1 cache1] lg1] |] eqn:Estep.
        - exists w1. left. cbn [workers].
          split; [apply list_lookup_insert_eq; eapply lookup_lt_Some; exact Hk |].
          exact (worker_step_fuel w w1 _ cache1 _ lg1 Hsize ltac:(nia) Hbound Estep).
        - exists w. right. split; [exact Hk |]. split; [reflexivity |].
          apply worker_step_none in Estep as [Eph Hover].
          unfold worker_fuel. rewrite Eph. cbn [phase_rank].
          rewrite Z.div_small by lia. lia. }
      destruct Hturn as (w1 & [[Hk1 Hspent] | (Hk1 & Ew & Hzero)]);
        destruct (IH _ w1 Hinv1 Hk1) as (w' & Hk' & Hrest);
        exists w'; (split; [exact Hk' |]);
        (destruct Hrest as [Hdone | Hfuel]; [left; exact Hdone |]);
        [| rewrite Ew in Hfuel].
      * right. lia.
      * (* the worker was done already *)
        left.
        pose proof (run_schedule_inv schedule _ Hinv1) as (_ & Hw' & _).
        destruct (Hw' k w' Hk') as ((j & Hj & Eindex) & Hbound & _).
        assert (Hturns : 0 <= turns k schedule).
        { clear. induction schedule as [| k1 schedule IHs]; cbn [turns]; [lia |].
          destruct (Nat.eqb k1 k); lia. }
        apply worker_fuel_spent; [nia | exact Hbound | lia].
    + (* another worker's turn *)
      assert (Hk1 : workers (schedule_step src gs_used batch_id n_vertices threads k0 p) !! k
                    = Some w).
      { unfold schedule_step.
        destruct (workers p !! k0); [| exact Hk].
        destruct (worker_step _ _ _ _ _ _ _ _) as [[[w1 c1] l1] |]; [| exact Hk].
        cbn [workers]. rewrite list_lookup_insert_ne by exact Hne. exact Hk. }
      destruct (IH _ w Hinv1 Hk1) as (w' & Hk' & Hrest).
      exists w'. split; [exact Hk' |]. rewrite Z.add_0_l. exact Hrest.
Qed.

(** X21.  The workers finish.  In any interleaving that gives each worker
    [5 * (num_vertices / threads + 1)] turns, every worker has left its
    loop; then every vertex of the index array has been shaded exactly
    once, its entry carries the batch id, so that the wait of the
    consumption loop ends for every loop index, and all locks are
    clear. *)
Theorem workers_finish (schedule : list nat) (cache : list Cached) :
  length cache = size ->
  1 <= batch_id ->
  Forall (fun entry => lock entry = false /\ 0 <= batch entry < batch_id) cache ->
  0 <= n_vertices ->
  (forall k, (k < Z.to_nat threads)%nat ->
     5 * (n_vertices / threads + 1) <= turns k schedule) ->
  let p := run_schedule src gs_used batch_id n_vertices threads schedule
             (start_workers threads cache) in
  workers_done n_vertices p
  /\ (forall i, 0 <= i < n_vertices ->
        batch (cache_at (shared_output p) (VertexIndex src i)) = batch_id
        /\ shader_runs (VertexIndex src i) (parallel_log p) = 1%nat)
  /\ (forall v, 0 <= v -> lock (cache_at (shared_output p) v) = false).
Proof.
  intros Hsize Hid Hfresh Hn Hfair p.
  pose proof (start_workers_inv cache Hsize Hid Hfresh) as Hinv0.
  pose proof (run_schedule_inv schedule _ Hinv0) as Hinv. fold p in Hinv.
  assert (Hlen : length (workers p) = Z.to_nat threads)
    by (subst p; rewrite run_schedule_workers; apply start_workers_length).
  assert (Hdone : workers_done n_vertices p).
  { intros k w' Hk'.
    assert (Hk : (k < Z.to_nat threads)%nat)
      by (rewrite <- Hlen; eapply lookup_lt_Some; exact Hk').
    destruct (lookup_lt_is_Some_2 (workers (start_workers threads cache)) k
                ltac:(rewrite start_workers_length; exact Hk)) as [w Hw].
    destruct (worker_progress k schedule _ w Hinv0 Hw) as (w'' & Hk'' & Hrest).
    fold p in Hk''. rewrite Hk' in Hk''. inversion Hk''. subst w''.
    destruct Hrest as [Hover | Hfuel]; [exact Hover |].
    destruct Hinv as (_ & Hall & _).
    destruct (Hall k w' Hk') as ((j & Hj & Eindex) & Hbound & _).
    apply worker_fuel_spent; [nia | exact Hbound |].
    specialize (Hfair k Hk).
    assert (worker_fuel n_vertices threads w <= 5 * (n_vertices / threads + 1)).
    { pose proof (start_workers_lookup cache k w Hw) as [Ei Ep].
      unfold worker_fuel. rewrite Ei, Ep. cbn [phase_rank].
      assert (Z.max 0 (n_vertices + threads - 1 - Z.of_nat k) / threads
              <= n_vertices / threads + 1).
      { replace (n_vertices / threads + 1) with ((n_vertices + 1 * threads) / threads)
          by (rewrite Z.div_add by lia; reflexivity).
        apply Z.div_le_mono; lia. }
      lia. }
    lia. }
  split; [exact Hdone |]. apply all_shaded_when_done; assumption.
Qed.

End ParallelDraw.

End CommandProcessor.

(** * The model on the PICA200 platform *)

Section OnPica200.

(** The modelled functions with the platform filled in. *)

Let pica_WriteUniformFloatReg :=
  (WriteUniformFloatReg float24_bits Float32Bits RawBits pica_uniform_setup_index
     pica_uniform_setup_IsFloat32 pica_uniform_setup_index_Assign).

Let pica_write_uniform_words :=
  (write_uniform_words float24_bits Float32Bits RawBits pica_uniform_setup_index
     pica_uniform_setup_IsFloat32 pica_uniform_setup_index_Assign).

Let pica_WritePicaReg :=
  (WritePicaReg float24_bits Float32Bits RawBits pica_NUM_REGS pica_uniform_setup_index
     pica_uniform_setup_IsFloat32 pica_uniform_setup_index_Assign pica_reg_program_offset
     pica_reg_swizzle_offset pica_gs_unit_exclusive_configuration
     pica_command_buffer_GetPhysicalAddress pica_command_buffer_GetSize pica_reg_trigger
     pica_reg_uniform_set_value pica_reg_program_set_word pica_reg_swizzle_set_word
     flat_GetPhysicalPointer (fun _ _ s => s)).

Let pica_process_command (host_word : Z -> Z) :=
  (process_command float24_bits Float32Bits RawBits pica_NUM_REGS pica_uniform_setup_index
     pica_uniform_setup_IsFloat32 pica_uniform_setup_index_Assign pica_reg_program_offset
     pica_reg_swizzle_offset pica_gs_unit_exclusive_configuration
     pica_command_buffer_GetPhysicalAddress pica_command_buffer_GetSize pica_reg_trigger
     pica_reg_uniform_set_value pica_reg_program_set_word pica_reg_swizzle_set_word
     pica_header_cmd_id pica_header_parameter_mask pica_header_extra_data_length
     pica_header_group_commands flat_GetPhysicalPointer host_word (fun _ _ s => s)).

Let pica_process_commands (host_word : Z -> Z) :=
  (process_commands float24_bits Float32Bits RawBits pica_NUM_REGS pica_uniform_setup_index
     pica_uniform_setup_IsFloat32 pica_uniform_setup_index_Assign pica_reg_program_offset
     pica_reg_swizzle_offset pica_gs_unit_exclusive_configuration
     pica_command_buffer_GetPhysicalAddress pica_command_buffer_GetSize pica_reg_trigger
     pica_reg_uniform_set_value pica_reg_program_set_word pica_reg_swizzle_set_word
     pica_header_cmd_id pica_header_parameter_mask pica_header_extra_data_length
     pica_header_group_commands flat_GetPhysicalPointer host_word (fun _ _ s => s)).

Let pica_ProcessCommandList (host_word : Z -> Z) :=
  (ProcessCommandList float24_bits Float32Bits RawBits pica_NUM_REGS pica_uniform_setup_index
     pica_uniform_setup_IsFloat32 pica_uniform_setup_index_Assign pica_reg_program_offset
     pica_reg_swizzle_offset pica_gs_unit_exclusive_configuration
     pica_command_buffer_GetPhysicalAddress pica_command_buffer_GetSize pica_reg_trigger
     pica_reg_uniform_set_value pica_reg_program_set_word pica_reg_swizzle_set_word
     pica_header_cmd_id pica_header_parameter_mask pica_header_extra_data_length
     pica_header_group_commands flat_GetPhysicalPointer host_word (fun _ _ s => s)).

(** The default-attribute state after reset. *)
Let example_immediate : Immediate float24_bits :=
  mkImmediate float24_bits 0 [0; 0; 0]
    (replicate 16 (mkVec4 (RawBits 0) (RawBits 0) (RawBits 0) (RawBits 0)))
    0
    (replicate 16 (mkVec4 (RawBits 0) (RawBits 0) (RawBits 0) (RawBits 0)))
    true [].


Let pica_write_fog_lut := (write_fog_lut pica_fog_lut_offset pica_fog_lut_offset_Assign).

(** The inline draw with the stand-in shader and geometry pipeline. *)
Let example_draw :=
  (draw_single_threaded Z Z Z 0 example_shader (fun a => a + 1000) Z
     (fun wanted => wanted) (fun wanted => wanted)
     example_NeedIndexInput example_SubmitIndex (fun _ wanted => wanted)).

(** ** The platform meets the assumptions *)

Lemma pica_reg_uniform_setup_range (u : ShaderUnit) :
  0 <= pica_reg_uniform_setup u < pica_NUM_REGS.
Proof. destruct u; cbn; unfold pica_NUM_REGS; lia. Qed.

Lemma pica_index_Assign_length (u : ShaderUnit) (n : Z) (r : list Z) :
  length (pica_uniform_setup_index_Assign u n r) = length r.
Proof. apply length_array_set. Qed.

Lemma pica_index_Assign_index (u : ShaderUnit) (n : Z) (r : list Z) :
  Z.of_nat (length r) = pica_NUM_REGS -> 0 <= n <= 96 ->
  pica_uniform_setup_index u (pica_uniform_setup_index_Assign u n r) = n.
Proof.
  intros Hlen Hn. pose proof (pica_reg_uniform_setup_range u) as Hreg.
  unfold pica_uniform_setup_index, pica_uniform_setup_index_Assign.
  rewrite word_at_array_set_eq by lia.
  change 0x7F with (Z.ones 7).
  apply Z.bits_inj'. intros i Hi.
  rewrite Z.land_spec, Z.lor_spec, !Z.land_spec, u32_not_spec by lia.
  destruct (Z.ltb_spec i 7) as [Hlt | Hge].
  - rewrite Z.ones_spec_low by lia.
    destruct (Z.testbit (word_at r (pica_reg_uniform_setup u)) i), (Z.testbit n i), (i <? 32);
      reflexivity.
  - rewrite Z.ones_spec_high by lia. rewrite !andb_false_r.
    symmetry. rewrite <- (Z.mod_small n (2 ^ 7)) by lia.
    apply Z.mod_pow2_bits_high. lia.
Qed.

Lemma pica_index_Assign_IsFloat32 (u : ShaderUnit) (n : Z) (r : list Z) :
  Z.of_nat (length r) = pica_NUM_REGS ->
  pica_uniform_setup_IsFloat32 u (pica_uniform_setup_index_Assign u n r)
  = pica_uniform_setup_IsFloat32 u r.
Proof.
  intros Hlen. pose proof (pica_reg_uniform_setup_range u) as Hreg.
  unfold pica_uniform_setup_IsFloat32, pica_uniform_setup_index_Assign.
  rewrite word_at_array_set_eq by lia.
  rewrite Z.lor_spec, !Z.land_spec, u32_not_spec by lia.
  change (Z.testbit 0x7F 31) with false. change (31 <? 32) with true.
  destruct (Z.testbit (word_at r (pica_reg_uniform_setup u)) 31), (Z.testbit n 31);
    reflexivity.
Qed.

Lemma pica_exclusive_flag_apart_program (r : list Z) (v : Z) :
  pica_gs_unit_exclusive_configuration (array_set r (pica_reg_program_offset VS) v)
  = pica_gs_unit_exclusive_configuration r.
Proof.
  unfold pica_gs_unit_exclusive_configuration.
  rewrite word_at_array_set_ne by (cbn; lia). reflexivity.
Qed.

Lemma pica_exclusive_flag_apart_swizzle (r : list Z) (v : Z) :
  pica_gs_unit_exclusive_configuration (array_set r (pica_reg_swizzle_offset VS) v)
  = pica_gs_unit_exclusive_configuration r.
Proof.
  unfold pica_gs_unit_exclusive_configuration.
  rewrite word_at_array_set_ne by (cbn; lia). reflexivity.
Qed.

(** ** Concrete runs *)



(** The four words of (1.0, 2.0, 3.0, 4.0) written in 32-bit mode to
    vertex uniform 5 arrive reversed. *)
Lemma flush_decodes_vector_example :
  uniforms_f
    (setup VS
       (pica_WriteUniformFloatReg VS 0x40800000
          (example_state [(0x2C0%nat, 0x80000005)] 3
             [0x3F800000; 0x40000000; 0x40400000; 0] false [])))
  !! 5%nat
  = Some (mkVec4 (Float32Bits 0x40800000) (Float32Bits 0x40400000)
                 (Float32Bits 0x40000000) (Float32Bits 0x3F800000)).
Proof.
  pose proof (flush_decodes_vector float24_bits Float32Bits RawBits
                pica_uniform_setup_index pica_uniform_setup_IsFloat32
                pica_uniform_setup_index_Assign VS 0x40800000
                (example_state [(0x2C0%nat, 0x80000005)] 3
                   [0x3F800000; 0x40000000; 0x40400000; 0] false [])) as H.
  specialize (H ltac:(reflexivity) ltac:(cbn; lia)
                ltac:(cbn; repeat (constructor; [lia |]); constructor)
                ltac:(lia) ltac:(reflexivity) ltac:(reflexivity)
                ltac:(vm_compute; split; [discriminate | reflexivity])).
  exact (proj1 (proj2 (proj2 H))).
Defined.

Lemma worker_count_example : vs_threads 30 10 5 = Z.min (30 / 10) (5 - 1).
Proof.
  exact (proj1 (worker_count 30 10 5 ltac:(lia) ltac:(lia) ltac:(lia))).
Defined.

(** The 3 workers of the scenario are not 5. *)
Lemma worker_count_scenario :
  spawned_workers (dispatch_vs_units (vs_threads 30 10 5)) = 3
  /\ spawned_workers (dispatch_vs_units (vs_threads 30 10 5)) <> 5.
Proof.
  split; [reflexivity | discriminate].
Qed.

(** A strip of four vertices takes the fast path. *)
Lemma fast_path_strip_of_four :
  takes_fast_path (fun _ => true) (mkDrawConfig true true UseGS_No TopologyStrip 4) true = true
  /\ assembler_topology (mkDrawConfig true true UseGS_No TopologyStrip 4) = TopologyStrip
  /\ 4 mod 3 <> 0.
Proof.
  split; [reflexivity | split; [reflexivity | discriminate]].
Qed.

(** A valid write with both observers present. *)
Lemma WritePicaReg_observers_example :
  log (pica_WritePicaReg 5 0xAABBCCDD 5
         (example_state [(5%nat, 0x11223344)] 0 [0; 0; 0; 0] true []))
  = [OnPicaRegWrite 5 5 0x11BB33DD; OnEvent PicaCommandLoaded 5;
     NotifyPicaRegisterChanged 5; OnEvent PicaCommandProcessed 5].
Proof.
  pose proof (WritePicaReg_observers float24_bits Float32Bits RawBits pica_NUM_REGS
                pica_uniform_setup_index pica_uniform_setup_IsFloat32
                pica_uniform_setup_index_Assign pica_reg_program_offset
                pica_reg_swizzle_offset pica_gs_unit_exclusive_configuration
                pica_command_buffer_GetPhysicalAddress pica_command_buffer_GetSize
                pica_reg_trigger pica_reg_uniform_set_value pica_reg_program_set_word
                pica_reg_swizzle_set_word flat_GetPhysicalPointer (fun _ _ s => s)
                5 0xAABBCCDD 5
                (example_state [(5%nat, 0x11223344)] 0 [0; 0; 0; 0] true [])) as H.
  specialize (H ltac:(reflexivity) ltac:(unfold pica_NUM_REGS; lia) ltac:(lia) ltac:(lia)).
  exact (proj2 (proj2 (proj2 H ltac:(unfold pica_NUM_REGS; lia)))).
Defined.

(** A write to register 0x300 with both observers present: only the error
    is logged. *)
Lemma invalid_write_is_not_observed :
  log (pica_WritePicaReg 0x300 0x12345678 0xF (example_state [] 0 [0; 0; 0; 0] true []))
  = [LogError_InvalidRegister 0x300 0x12345678 0xF]
  /\ is_pica_tracing (example_state [] 0 [0; 0; 0; 0] true []) = true
  /\ has_debug_context (example_state [] 0 [0; 0; 0; 0] true []) = true.
Proof.
  repeat split; reflexivity.
Qed.

(** 96 packed vectors from index 0, then one more. *)
Lemma uniform_index_advances_example :
  pica_uniform_setup_index VS
    (regs (pica_write_uniform_words VS (replicate 288 7)
             (example_state [] 0 [0; 0; 0; 0] false []))) = 96
  /\ pica_uniform_setup_index VS
       (regs (pica_write_uniform_words VS [1; 2; 3]
                (pica_write_uniform_words VS (replicate 288 7)
                   (example_state [] 0 [0; 0; 0; 0] false [])))) = 96.
Proof.
  pose proof (uniform_index_advances float24_bits Float32Bits RawBits pica_NUM_REGS
                pica_uniform_setup_index pica_uniform_setup_IsFloat32
                pica_uniform_setup_index_Assign
                pica_index_Assign_length pica_index_Assign_index pica_index_Assign_IsFloat32
                VS (example_state [] 0 [0; 0; 0; 0] false [])
                (replicate 288 7) [1; 2; 3]) as H.
  specialize (H ltac:(reflexivity) ltac:(reflexivity) ltac:(reflexivity)
                ltac:(reflexivity) ltac:(reflexivity)).
  exact (conj (proj1 (proj2 (proj2 H)))
              (proj1 (proj2 (proj2 (proj2 (proj2 H)))))).
Defined.

(** A program word written at offset 3 with the flag clear. *)
Lemma vs_words_mirrored_to_gs_example :
  word_at (program_code
             (gs (vs_program_set_word float24_bits pica_reg_program_offset
                    pica_gs_unit_exclusive_configuration 0xDEAD
                    (example_state [(0x2CB%nat, 3)] 0 [0; 0; 0; 0] false [])))) 3
  = 0xDEAD.
Proof.
  pose proof (vs_words_mirrored_to_gs float24_bits pica_NUM_REGS pica_reg_program_offset
                pica_reg_swizzle_offset pica_gs_unit_exclusive_configuration
                pica_exclusive_flag_apart_program pica_exclusive_flag_apart_swizzle
                (example_state [(0x2CB%nat, 3)] 0 [0; 0; 0; 0] false [])
                0xDEAD [(0, 11); (1, 22); (0, 33)] [(7, 5)]) as H.
  specialize (H ltac:(reflexivity)
                ltac:(cbn; unfold pica_NUM_REGS; lia)
                ltac:(cbn; unfold pica_NUM_REGS; lia)
                ltac:(vm_compute; discriminate)
                ltac:(vm_compute; discriminate)
                ltac:(reflexivity)
                ltac:(repeat (constructor; [cbn; lia |]); constructor)
                ltac:(repeat (constructor; [cbn; lia |]); constructor)).
  exact (proj1 (proj2 (proj1 H ltac:(vm_compute; split; [discriminate | reflexivity])))).
Defined.

(** Five loop indices over the vertices 2, 0, 2, 1, 2, with a geometry
    shader whose pipeline asks for two vertex indices: each vertex is
    shaded once (vertex 2 by the first run, vertex 0 by the second, vertex
    1 by the third), the first two passes of the consumption loop hand on
    vertex numbers, and the last three what the entries hold, the same for
    both occurrences of vertex 2. *)
Lemma indexed_draw_shades_each_vertex_once_example :
  example_draw false example_indices (mkDrawConfig false true UseGS_Yes TopologyList 5)
    0xFFFFFFFF (replicate 4 (mkCachedVertex NoOutput 0 false)) 2
  = Some (1,
          mkVertexPhase Z Z Z
            [mkCachedVertex (OutputAttr 1) 1 false; mkCachedVertex (OutputAttr 102) 1 false;
             mkCachedVertex (OutputAttr 200) 1 false; mkCachedVertex NoOutput 0 false]
            3 [RunShader 0 2; RunShader 1 0; RunShader 3 1],
          0,
          [GeometrySubmitIndex 2; GeometrySubmitIndex 0;
           GeometrySubmitVertex (OutputAttr 200); GeometrySubmitVertex (OutputAttr 102);
           GeometrySubmitVertex (OutputAttr 200)]).
Proof.
  pose proof (indexed_draw_shades_each_vertex_once Z Z Z 0 example_shader
                (fun a => a + 1000) Z (fun wanted => wanted) (fun wanted => wanted)
                example_NeedIndexInput example_SubmitIndex (fun _ wanted => wanted)
                false example_indices (mkDrawConfig false true UseGS_Yes TopologyList 5)
                0xFFFFFFFF (replicate 4 (mkCachedVertex NoOutput 0 false)) 2) as H.
  specialize (H ltac:(reflexivity)).
  specialize (H ltac:(split; [lia |];
                      cbn; repeat (constructor; [cbn; lia |]); constructor)).
  specialize (H ltac:(cbn; lia)).
  specialize (H ltac:(intros i Hi;
                      assert (Hc : i = 0 \/ i = 1 \/ i = 2 \/ i = 3 \/ i = 4) by (cbn in Hi; lia);
                      destruct Hc as [-> | [-> | [-> | [-> | ->]]]];
                      vm_compute; split; (discriminate || reflexivity))).
  exact (proj1 H).
Defined.

(** The same draw with a pipeline that asks for five vertex indices: the
    entries hold the results of the three runs, and every pass of the
    consumption loop hands on a vertex number; none hands on what an entry
    holds. *)
Lemma index_input_reads_no_entry :
  example_draw false example_indices (mkDrawConfig false true UseGS_Yes TopologyList 5)
    0xFFFFFFFF (replicate 4 (mkCachedVertex NoOutput 0 false)) 5
  = Some (1,
          mkVertexPhase Z Z Z
            [mkCachedVertex (OutputAttr 1) 1 false; mkCachedVertex (OutputAttr 102) 1 false;
             mkCachedVertex (OutputAttr 200) 1 false; mkCachedVertex NoOutput 0 false]
            3 [RunShader 0 2; RunShader 1 0; RunShader 3 1],
          0,
          [GeometrySubmitIndex 2; GeometrySubmitIndex 0; GeometrySubmitIndex 2;
           GeometrySubmitIndex 1; GeometrySubmitIndex 2]).
Proof. vm_compute. reflexivity. Qed.

(** A list of two commands whose value words, 0x23C and -1.0f, would be
    trigger commands as headers: it is walked in two passes. *)
Lemma ProcessCommandList_terminates_example :
  exists s',
    pica_ProcessCommandList value_list_word 2 0 16 (example_state [] 0 [0; 0; 0; 0] false [])
    = Some s'
    /\ head_ptr (cmd_list s') = 0
    /\ length_words (cmd_list s') = 16 / 4
    /\ 0 + 16 / 4 <= current_ptr (cmd_list s')
    /\ command_at pica_header_extra_data_length value_list_word 0 (16 / 4)
         (current_ptr (cmd_list s')).
Proof.
  pose proof (ProcessCommandList_terminates float24_bits Float32Bits RawBits pica_NUM_REGS
                pica_uniform_setup_index pica_uniform_setup_IsFloat32
                pica_uniform_setup_index_Assign pica_reg_program_offset
                pica_reg_swizzle_offset pica_gs_unit_exclusive_configuration
                pica_command_buffer_GetPhysicalAddress pica_command_buffer_GetSize
                pica_reg_trigger pica_reg_uniform_set_value pica_reg_program_set_word
                pica_reg_swizzle_set_word pica_header_cmd_id pica_header_parameter_mask
                pica_header_extra_data_length pica_header_group_commands
                flat_GetPhysicalPointer value_list_word (fun _ _ s => s)
                (fun _ _ _ => eq_refl)
                0 16 (example_state [] 0 [0; 0; 0; 0] false []) 2%nat) as H.
  assert (Hat : forall cursor,
            command_at pica_header_extra_data_length value_list_word 0 (16 / 4) cursor ->
            cursor = 0 \/ cursor = 2 \/ cursor = 4).
  { induction 1 as [| cursor _ IH Hlt]; [left; reflexivity |].
    destruct IH as [-> | [-> | ->]];
      [right; left; reflexivity | right; right; reflexivity | discriminate Hlt]. }
  specialize (H ltac:(intros cursor Hc Hlt;
                      destruct (Hat cursor Hc) as [-> | [-> | ->]];
                      [repeat constructor | repeat constructor | discriminate Hlt])
                ltac:(vm_compute; discriminate)).
  exact (proj2 H).
Defined.

(** A third packed word arriving with the index at 96. *)
Lemma rejected_flush_resets_counter_example :
  float_regs_counter VS
    (pica_WriteUniformFloatReg VS 3
       (example_state [(0x2C0%nat, 96)] 2 [1; 2; 0; 0] false [])) = 0.
Proof.
  pose proof (rejected_flush_resets_counter float24_bits Float32Bits RawBits
                pica_uniform_setup_index pica_uniform_setup_IsFloat32
                pica_uniform_setup_index_Assign VS 3
                (example_state [(0x2C0%nat, 96)] 2 [1; 2; 0; 0] false [])) as H.
  specialize (H ltac:(reflexivity) ltac:(vm_compute; discriminate)).
  exact (proj1 (proj2 H)).
Defined.

(** The jump list sends the cursor back to its start on every pass. *)
Lemma jump_list_pass (events : list Event) :
  pica_process_command jump_list_word (jump_list_state events)
  = jump_list_state (events ++ [NotifyPicaRegisterChanged 0x23C]).
Proof.
  vm_compute. reflexivity.
Qed.

Lemma jump_list_runs_on (fuel : nat) :
  forall events, pica_process_commands jump_list_word fuel (jump_list_state events) = None.
Proof.
  induction fuel as [| k IH]; intros events.
  - reflexivity.
  - change (pica_process_commands jump_list_word (S k) (jump_list_state events))
      with (pica_process_commands jump_list_word k
              (pica_process_command jump_list_word (jump_list_state events))).
    rewrite jump_list_pass. apply IH.
Qed.

(** A command that writes the trigger register: after the pass the cursor
    is where it was, the list is still pending, and no amount of passes
    ends the walk. *)
Lemma jump_list_never_ends :
  current_ptr (cmd_list (jump_list_state [])) = 0
  /\ current_ptr (cmd_list (pica_process_command jump_list_word (jump_list_state []))) = 0
  /\ list_pending float24_bits (pica_process_command jump_list_word (jump_list_state []))
     = true
  /\ (forall fuel,
        pica_ProcessCommandList jump_list_word fuel 0 8 (jump_list_state []) = None).
Proof.
  split; [reflexivity |]. split; [reflexivity |]. split; [reflexivity |].
  intros fuel. apply (jump_list_runs_on fuel []).
Qed.

(** ** Further runs *)

Lemma pica_fog_lut_offset_Assign_length (n : Z) (r : list Z) :
  length (pica_fog_lut_offset_Assign n r) = length r.
Proof.
  apply length_array_set.
Qed.

Lemma pica_fog_lut_offset_Assign_offset (n : Z) (r : list Z) :
  Z.of_nat (length r) = pica_NUM_REGS ->
  pica_fog_lut_offset (pica_fog_lut_offset_Assign n r) = n mod 2 ^ 16.
Proof.
  intros Hlen. unfold pica_fog_lut_offset, pica_fog_lut_offset_Assign.
  rewrite word_at_array_set_eq by (unfold pica_NUM_REGS in Hlen; lia).
  change 0xFFFF with (Z.ones 16). rewrite <- Z.land_ones by lia.
  apply Z.bits_inj'. intros i Hi.
  rewrite Z.land_spec, Z.lor_spec, !Z.land_spec, u32_not_spec by lia.
  destruct (Z.ltb_spec i 16) as [Hlt | Hge].
  - rewrite Z.ones_spec_low by lia.
    destruct (Z.testbit (word_at r 230) i), (Z.testbit n i), (i <? 32); reflexivity.
  - rewrite Z.ones_spec_high by lia. rewrite !andb_false_r. reflexivity.
Qed.

(** A word for vertex [set_value[0]] under mask 0 is staged in full, and
    the register keeps its old content. *)
Lemma float_uniform_word_ignores_mask_example :
  uniform_write_buffer VS
    (pica_WritePicaReg 0x2C1 0xAABBCCDD 0 (example_state [] 0 [0; 0; 0; 0] false []))
  = [0xAABBCCDD; 0; 0; 0].
Proof.
  pose proof (float_uniform_word_ignores_mask float24_bits Float32Bits RawBits pica_NUM_REGS
                pica_uniform_setup_index pica_uniform_setup_IsFloat32
                pica_uniform_setup_index_Assign pica_reg_program_offset
                pica_reg_swizzle_offset pica_gs_unit_exclusive_configuration
                pica_command_buffer_GetPhysicalAddress pica_command_buffer_GetSize
                pica_reg_trigger pica_reg_uniform_set_value pica_reg_program_set_word
                pica_reg_swizzle_set_word flat_GetPhysicalPointer (fun _ _ s => s)
                VS 0x2C1 0xAABBCCDD 0
                (example_state [] 0 [0; 0; 0; 0] false [])) as H.
  specialize (H ltac:(unfold pica_NUM_REGS; lia) ltac:(reflexivity) ltac:(reflexivity)
                ltac:(intros _; repeat split; reflexivity)).
  exact (proj1 H).
Defined.

(** The three writes of the command for registers 0x300 to 0x302 are
    logged and the cursor is past its four words. *)
Lemma invalid_command_is_skipped_example :
  log (pica_process_command invalid_list_word (example_list_state [] 4))
  = [LogError_InvalidRegister 0x300 7 0xF; LogError_InvalidRegister 0x301 8 0xF;
     LogError_InvalidRegister 0x302 9 0xF]
  /\ cmd_list (pica_process_command invalid_list_word (example_list_state [] 4))
     = mkCmdList 0 4 4.
Proof.
  pose proof (invalid_command_is_skipped float24_bits Float32Bits RawBits pica_NUM_REGS
                pica_uniform_setup_index pica_uniform_setup_IsFloat32
                pica_uniform_setup_index_Assign pica_reg_program_offset
                pica_reg_swizzle_offset pica_gs_unit_exclusive_configuration
                pica_command_buffer_GetPhysicalAddress pica_command_buffer_GetSize
                pica_reg_trigger pica_reg_uniform_set_value pica_reg_program_set_word
                pica_reg_swizzle_set_word pica_header_cmd_id pica_header_parameter_mask
                pica_header_extra_data_length pica_header_group_commands
                flat_GetPhysicalPointer invalid_list_word (fun _ _ s => s)
                (example_list_state [] 4)) as H.
  specialize (H ltac:(repeat (constructor; [vm_compute; discriminate |]); constructor)).
  split; [exact (f_equal log H) | exact (f_equal cmd_list H)].
Defined.

(** The jump command, with the command buffer registers naming the four
    words at word address 8: the walk goes through the two commands there,
    whose value words are 0x23C and -1.0f, and ends. *)
Lemma trigger_continues_in_the_named_buffer_example :
  exists s',
    pica_ProcessCommandList jump_to_values_word 3 0 8
      (example_list_state [(0x23A%nat, 4); (0x238%nat, 2)] 0)
    = Some s'
    /\ head_ptr (cmd_list s') = 8
    /\ length_words (cmd_list s') = 4
    /\ 8 + 4 <= current_ptr (cmd_list s')
    /\ command_at pica_header_extra_data_length jump_to_values_word 8 4
         (current_ptr (cmd_list s')).
Proof.
  pose proof (trigger_continues_in_the_named_buffer float24_bits Float32Bits RawBits
                pica_NUM_REGS
                pica_uniform_setup_index pica_uniform_setup_IsFloat32
                pica_uniform_setup_index_Assign pica_reg_program_offset
                pica_reg_swizzle_offset pica_gs_unit_exclusive_configuration
                pica_command_buffer_GetPhysicalAddress pica_command_buffer_GetSize
                pica_reg_trigger pica_reg_uniform_set_value pica_reg_program_set_word
                pica_reg_swizzle_set_word pica_header_cmd_id pica_header_parameter_mask
                pica_header_extra_data_length pica_header_group_commands
                flat_GetPhysicalPointer jump_to_values_word (fun _ _ s => s)
                (fun _ _ _ => eq_refl)
                0 8 (example_list_state [(0x23A%nat, 4); (0x238%nat, 2)] 0) 2%nat) as H.
  assert (Hat : forall cursor,
            command_at pica_header_extra_data_length jump_to_values_word 8 4 cursor ->
            cursor = 8 \/ cursor = 10 \/ cursor = 12).
  { induction 1 as [| cursor _ IH Hlt]; [left; reflexivity |].
    destruct IH as [-> | [-> | ->]];
      [right; left; reflexivity | right; right; reflexivity | discriminate Hlt]. }
  specialize (H ltac:(vm_compute; reflexivity) ltac:(vm_compute; reflexivity)
                ltac:(reflexivity) ltac:(reflexivity)).
  specialize (H ltac:(intros cursor Hc Hlt;
                      destruct (Hat cursor Hc) as [-> | [-> | ->]];
                      [repeat constructor | repeat constructor | discriminate Hlt])
                ltac:(vm_compute; discriminate)).
  exact (proj2 H).
Defined.

(** Three vertices from vertex 10 on, with a cache of two entries that
    grows by one without moving: the three runs fill the three entries and
    are handed to the primitive assembler in order. *)
Lemma plain_draw_shades_every_index_example :
  example_draw false example_plain_source (mkDrawConfig false true UseGS_No TopologyList 3)
    0xFFFFFFFF (replicate 2 (mkCachedVertex (OutputVertexOf 5) 0 false)) 0
  = Some (1,
          mkVertexPhase Z Z Z
            [mkCachedVertex (OutputVertexOf 2000) 0 false;
             mkCachedVertex (OutputVertexOf 2101) 0 false;
             mkCachedVertex (OutputVertexOf 2202) 0 false]
            3 [RunShader 0 10; RunShader 1 11; RunShader 2 12],
          0,
          [AssemblerSubmitVertex (OutputVertexOf 2000);
           AssemblerSubmitVertex (OutputVertexOf 2101);
           AssemblerSubmitVertex (OutputVertexOf 2202)]).
Proof.
  pose proof (plain_draw_shades_every_index Z Z Z 0 example_shader
                (fun a => a + 1000) Z (fun wanted => wanted) (fun wanted => wanted)
                example_NeedIndexInput example_SubmitIndex (fun _ wanted => wanted)
                false example_plain_source (mkDrawConfig false true UseGS_No TopologyList 3)
                0xFFFFFFFF (replicate 2 (mkCachedVertex (OutputVertexOf 5) 0 false)) 0) as H.
  specialize (H ltac:(reflexivity) ltac:(cbn; lia)).
  exact (proj1 H).
Defined.

(** The first draw after start-up has batch id 1; five vertices without
    index array on a cache of two entries that moves when it grows leave
    five entries, none tagged above 1. *)
Lemma draw_keeps_tags_bounded_example :
  option_map (fun r => (fst (fst (fst r)), length (vs_output Z Z Z (snd (fst (fst r))))))
    (example_draw true example_plain_source (mkDrawConfig false true UseGS_No TopologyList 5)
       0xFFFFFFFF (replicate 2 (mkCachedVertex (OutputVertexOf 5) 0 false)) 0)
  = Some (1, 5%nat)
  /\ tags_bounded Z Z 1
       (vs_output Z Z Z
          (VSUnitLoop Z Z Z 0 example_shader (fun a => a + 1000) example_plain_source false 1 5
             (replicate 5 (mkCachedVertex NoOutput 0 false)))).
Proof.
  pose proof (draw_keeps_tags_bounded Z Z Z 0 example_shader
                (fun a => a + 1000) Z (fun wanted => wanted) (fun wanted => wanted)
                example_NeedIndexInput example_SubmitIndex (fun _ wanted => wanted)
                true example_plain_source (mkDrawConfig false true UseGS_No TopologyList 5)
                0xFFFFFFFF (replicate 2 (mkCachedVertex (OutputVertexOf 5) 0 false)) 0) as H.
  specialize (H ltac:(split; [lia |];
                      cbn; repeat (constructor; [cbn; lia |]); constructor)).
  split; [exact (f_equal (option_map _) (proj1 H)) | exact (proj1 (proj2 H))].
Defined.

(** Three words written with the vertex program offset at 510: two are
    stored, the third is refused at offset 512. *)
Lemma vs_program_run_is_consecutive_example :
  word_at (regs (write_words float24_bits
                   (vs_program_set_word float24_bits pica_reg_program_offset
                      pica_gs_unit_exclusive_configuration)
                   [1; 2; 3] (example_state [(0x2CB%nat, 510)] 0 [0; 0; 0; 0] false [])))
    (pica_reg_program_offset VS)
  = 512
  /\ log (write_words float24_bits
            (vs_program_set_word float24_bits pica_reg_program_offset
               pica_gs_unit_exclusive_configuration)
            [1; 2; 3] (example_state [(0x2CB%nat, 510)] 0 [0; 0; 0; 0] false []))
     = [LogError_InvalidProgramOffset VS 512].
Proof.
  pose proof (vs_program_run_is_consecutive float24_bits pica_reg_program_offset
                pica_gs_unit_exclusive_configuration [1; 2; 3]
                (example_state [(0x2CB%nat, 510)] 0 [0; 0; 0; 0] false [])) as H.
  specialize (H ltac:(vm_compute; split; [discriminate | reflexivity])
                ltac:(vm_compute; discriminate)
                ltac:(vm_compute; split; discriminate)).
  exact (proj2 H).
Defined.

(** Two words written with the geometry program offset at 4095: the
    second is refused, and the vertex unit is as before. *)
Lemma gs_runs_are_consecutive_example :
  word_at (regs (write_words float24_bits
                   (gs_program_set_word float24_bits pica_reg_program_offset)
                   [1; 2] (example_state [(0x29B%nat, 4095)] 0 [0; 0; 0; 0] false [])))
    (pica_reg_program_offset GS)
  = 4096
  /\ log (write_words float24_bits
            (gs_program_set_word float24_bits pica_reg_program_offset)
            [1; 2] (example_state [(0x29B%nat, 4095)] 0 [0; 0; 0; 0] false []))
     = [LogError_InvalidProgramOffset GS 4096]
  /\ vs (write_words float24_bits
           (gs_program_set_word float24_bits pica_reg_program_offset)
           [1; 2] (example_state [(0x29B%nat, 4095)] 0 [0; 0; 0; 0] false []))
     = example_setup.
Proof.
  pose proof (gs_runs_are_consecutive float24_bits pica_reg_program_offset
                pica_reg_swizzle_offset [1; 2]
                (example_state [(0x29B%nat, 4095)] 0 [0; 0; 0; 0] false [])) as H.
  specialize (H ltac:(vm_compute; split; [discriminate | reflexivity])
                ltac:(vm_compute; split; [discriminate | reflexivity])
                ltac:(vm_compute; discriminate)
                ltac:(vm_compute; reflexivity)
                ltac:(vm_compute; split; discriminate)
                ltac:(vm_compute; split; discriminate)).
  exact (proj2 (proj1 H)).
Defined.

(** Ten vertices and three workers: worker 1 takes 1, 4 and 7. *)
Lemma workers_share_the_loop_indices_example :
  NoDup (VSUnitLoop_indices (1, 3) 10)
  /\ VSUnitLoop_indices (1, 3) 10 = [1; 4; 7].
Proof.
  pose proof (workers_share_the_loop_indices 3 10 [(0, 3); (1, 3); (2, 3)]) as H.
  specialize (H ltac:(lia) ltac:(lia) ltac:(lia) ltac:(reflexivity)).
  split; [| reflexivity].
  apply (proj1 (proj2 H)). apply list_elem_of_further, list_elem_of_here.
Defined.

(** The word 0x8005 sets the uniforms 0, 2 and 15. *)
Lemma bool_uniforms_are_the_bits_example :
  WriteUniformBoolReg (replicate 16 true) 0x8005
  = map (fun i => Z.testbit 0x8005 i) (seqZ 0 16).
Proof.
  exact (bool_uniforms_are_the_bits (replicate 16 true) 0x8005 ltac:(cbn; lia)).
Defined.



(** Two words written with the fog offset at 127 land at the entries 127
    and 0. *)
Lemma fog_lut_is_written_in_a_ring_example :
  word_at (snd (pica_write_fog_lut [5; 6]
                  (example_regs [(0xE6%nat, 127)], replicate 128 0))) 127 = 5
  /\ word_at (snd (pica_write_fog_lut [5; 6]
                     (example_regs [(0xE6%nat, 127)], replicate 128 0))) 0 = 6.
Proof.
  pose proof (fog_lut_is_written_in_a_ring pica_NUM_REGS pica_fog_lut_offset
                pica_fog_lut_offset_Assign [5; 6]
                (example_regs [(0xE6%nat, 127)]) (replicate 128 0)
                pica_fog_lut_offset_Assign_length pica_fog_lut_offset_Assign_offset) as H.
  specialize (H ltac:(reflexivity) ltac:(vm_compute; split; [discriminate | reflexivity])
                ltac:(reflexivity) ltac:(vm_compute; discriminate)).
  split.
  - exact (proj1 (proj2 (proj2 H)) 0 ltac:(cbn; lia)).
  - exact (proj1 (proj2 (proj2 H)) 1 ltac:(cbn; lia)).
Defined.

(** The grouped command for the registers 5 and 6 is the two writes. *)
Lemma command_is_its_register_writes_example :
  pica_process_command grouped_list_word (example_list_state [] 3)
  = with_cmd_list (mkCmdList 0 3 3)
      (pica_WritePicaReg 6 0x11 0xF
         (pica_WritePicaReg 5 0xAABBCCDD 0xF (example_list_state [] 3))).
Proof.
  pose proof (command_is_its_register_writes float24_bits Float32Bits RawBits pica_NUM_REGS
                pica_uniform_setup_index pica_uniform_setup_IsFloat32
                pica_uniform_setup_index_Assign pica_reg_program_offset
                pica_reg_swizzle_offset pica_gs_unit_exclusive_configuration
                pica_command_buffer_GetPhysicalAddress pica_command_buffer_GetSize
                pica_reg_trigger pica_reg_uniform_set_value pica_reg_program_set_word
                pica_reg_swizzle_set_word pica_header_cmd_id pica_header_parameter_mask
                pica_header_extra_data_length pica_header_group_commands
                flat_GetPhysicalPointer grouped_list_word (fun _ _ s => s)
                (fun _ _ _ _ => eq_refl)
                (example_list_state [] 3)) as H.
  specialize (H ltac:(repeat (constructor; [vm_compute; reflexivity |]); constructor)).
  exact H.
Defined.

(** A fourth word arriving in packed mode, as after a change of the mode
    bit in the middle of a vector: it is staged in the last slot and the
    counter stays in range. *)
Lemma staging_counters_stay_in_bounds_example :
  0 <= float_regs_counter VS
         (pica_WriteUniformFloatReg VS 9 (example_state [] 3 [1; 2; 3; 0] false []))
    <= 3
  /\ word_at (uniform_write_buffer VS
                (pica_WriteUniformFloatReg VS 9 (example_state [] 3 [1; 2; 3; 0] false [])))
       3
     = 9.
Proof.
  pose proof (staging_counters_stay_in_bounds float24_bits Float32Bits RawBits
                pica_uniform_setup_index pica_uniform_setup_IsFloat32
                pica_uniform_setup_index_Assign pica_reg_default_attr_index
                pica_max_input_attrib_index VS 9
                (example_state [] 3 [1; 2; 3; 0] false [])
                (example_regs []) example_immediate) as H.
  specialize (H ltac:(cbn; lia) ltac:(reflexivity) ltac:(cbn; lia) ltac:(reflexivity)).
  exact (conj (proj1 H) (proj1 (proj2 (proj2 H)))).
Defined.

(** 30 vertices: with the concurrency unknown three workers (30 / 10), and
    with a setting of -10 none. *)
Lemma worker_count_at_the_edges_example :
  vs_threads 30 10 0 = 30 / 10
  /\ vs_threads 30 (- 10) 5 = 0
  /\ dispatch_vs_units (vs_threads 30 (- 10) 5) = RunInline.
Proof.
  exact (worker_count_at_the_edges 30 10 5 ltac:(lia) ltac:(lia) ltac:(lia)).
Defined.


(** ** Two workers on the five loop indices over the vertices 2, 0, 2, 1, 2 *)

Let example_run (schedule : list nat) :=
  (run_schedule Z Z Z example_shader (fun a => a + 1000) example_indices false 1 5 2
     schedule (start_workers Z Z Z 0 2 (replicate 4 (mkCachedVertex NoOutput 0 false)))).

Lemma example_indices_in_cache (i : Z) :
  0 <= i < 5 -> 0 <= VertexIndex example_indices i < Z.of_nat 4.
Proof.
  intros Hi.
  assert (Hc : i = 0 \/ i = 1 \/ i = 2 \/ i = 3 \/ i = 4) by lia.
  destruct Hc as [-> | [-> | [-> | [-> | ->]]]];
    vm_compute; split; (discriminate || reflexivity).
Qed.

Lemma example_cache_is_fresh :
  Forall (fun entry : CachedVertex Z Z => lock entry = false /\ 0 <= batch entry < 1)
    (replicate 4 (mkCachedVertex NoOutput 0 false)).
Proof.
  cbn. repeat (constructor; [cbn; split; [reflexivity | lia] |]). constructor.
Qed.

(** Both workers go for vertex 2 at once (loop indices 0 and 2 are worker
    0's, loop index 1 is worker 1's): it is shaded once. *)
Lemma workers_shade_each_vertex_once_example :
  (shader_runs Z Z 2
     (parallel_log Z Z Z (example_run [0; 1; 0; 1; 0; 1; 0; 1; 0; 1; 0; 0; 0; 0; 0; 0]%nat))
   <= 1)%nat.
Proof.
  pose proof (workers_shade_each_vertex_once Z Z Z 0 example_shader (fun a => a + 1000)
                example_indices false 1 5 2 4%nat
                ltac:(reflexivity) ltac:(lia) ltac:(lia) example_indices_in_cache
                [0; 1; 0; 1; 0; 1; 0; 1; 0; 1; 0; 0; 0; 0; 0; 0]%nat
                (replicate 4 (mkCachedVertex NoOutput 0 false))
                ltac:(reflexivity) ltac:(lia) example_cache_is_fresh) as H.
  exact (proj1 H 2 ltac:(lia)).
Defined.

(** After ten steps the entry of vertex 2 is tagged; eight more steps
    leave its output as it is. *)
Lemma tagged_output_is_final_example :
  cached_output
    (cache_at Z Z
       (shared_output Z Z Z
          (example_run ([0; 1; 0; 1; 0; 1; 0; 1; 0; 1] ++ [0; 1; 0; 1; 0; 1; 0; 1])%nat)) 2)
  = cached_output
      (cache_at Z Z (shared_output Z Z Z (example_run [0; 1; 0; 1; 0; 1; 0; 1; 0; 1]%nat)) 2).
Proof.
  pose proof (tagged_output_is_final Z Z Z 0 example_shader (fun a => a + 1000)
                example_indices false 1 5 2 4%nat
                ltac:(reflexivity) ltac:(lia) ltac:(lia) example_indices_in_cache
                [0; 1; 0; 1; 0; 1; 0; 1; 0; 1]%nat [0; 1; 0; 1; 0; 1; 0; 1]%nat
                (replicate 4 (mkCachedVertex NoOutput 0 false)) 2
                ltac:(reflexivity) ltac:(lia) example_cache_is_fresh ltac:(lia)) as H.
  exact (proj2 (H ltac:(vm_compute; reflexivity))).
Defined.

(** Thirty turns are at most thirty steps. *)
Lemma workers_make_bounded_steps_example :
  0 <= steps_made Z Z Z example_shader (fun a => a + 1000) example_indices false 1 5 2
         (concat (replicate 15 [0; 1]%nat))
         (start_workers Z Z Z 0 2 (replicate 4 (mkCachedVertex NoOutput 0 false)))
    <= 5 * 2 * (5 / 2 + 1).
Proof.
  exact (workers_make_bounded_steps Z Z Z 0 example_shader (fun a => a + 1000)
           example_indices false 1 5 2 4%nat
           ltac:(reflexivity) ltac:(lia) ltac:(lia) example_indices_in_cache
           (concat (replicate 15 [0; 1]%nat))
           (replicate 4 (mkCachedVertex NoOutput 0 false))
           ltac:(reflexivity) ltac:(lia) example_cache_is_fresh ltac:(lia)).
Defined.

(** With fifteen turns each the two workers are done, and vertex 0 (loop
    index 1) is tagged and has been shaded once. *)
Lemma workers_finish_example :
  batch (cache_at Z Z (shared_output Z Z Z (example_run (concat (replicate 15 [0; 1]%nat))))
           (VertexIndex example_indices 1))
  = 1
  /\ shader_runs Z Z (VertexIndex example_indices 1)
       (parallel_log Z Z Z (example_run (concat (replicate 15 [0; 1]%nat))))
     = 1%nat.
Proof.
  pose proof (workers_finish Z Z Z 0 example_shader (fun a => a + 1000)
                example_indices false 1 5 2 4%nat
                ltac:(reflexivity) ltac:(lia) ltac:(lia) example_indices_in_cache
                (concat (replicate 15 [0; 1]%nat))
                (replicate 4 (mkCachedVertex NoOutput 0 false))
                ltac:(reflexivity) ltac:(lia) example_cache_is_fresh ltac:(lia)) as H.
  specialize (H ltac:(intros k Hk; destruct k as [| [| k]];
                      [vm_compute; discriminate | vm_compute; discriminate
                      | cbn in Hk; lia])).
  exact (proj1 (proj2 H) 1 ltac:(lia)).
Defined.

End OnPica200.
